(** * image-compressor: size estimation, batch orchestration and the
      compression endpoint

    A shallow embedding of [src/components/ImageCompressor.tsx] and
    [src/app/api/compress/route.ts].

    JavaScript numbers are IEEE 754 binary64 values; they are modelled by
    Rocq's primitive floats ([PrimFloat.float]), whose operations are the
    binary64 ones, and reasoned about through their specification
    ([SpecFloat]). *)

From Stdlib Require Import ZArith List String Bool Lia.
From Stdlib Require Import Floats.
Import ListNotations.

Set Warnings "-inexact-float".
Local Open Scope string_scope.
Local Open Scope list_scope.

(** ** JavaScript values used by the component *)

Module Js.

Definition number := float.

(** Integers as numbers: the binary64 value nearest to [z]. *)
Definition of_Z (z : Z) : number :=
  SF2Prim (binary_normalize prec emax z 0 false).

(** [ToBoolean] on a number: [NaN], [+0] and [-0] are falsy. *)
Definition truthy_number (x : number) : bool :=
  negb (PrimFloat.is_nan x || PrimFloat.is_zero x).

(** The values a property read on [QUALITY_FACTORS] can produce. An
    object stands for the functions and objects inherited from
    [Object.prototype]. *)
Inductive value :=
| VUndefined
| VNumber (x : number)
| VObject (name : string).

Definition truthy (v : value) : bool :=
  match v with
  | VUndefined => false
  | VNumber x => truthy_number x
  | VObject _ => true
  end.

(** [a || b] *)
Definition or_else (a b : value) : value :=
  if truthy a then a else b.

(** [ToNumber]: [undefined] and every function or plain object convert
    to [NaN]. *)
Definition ToNumber (v : value) : number :=
  match v with
  | VNumber x => x
  | VUndefined | VObject _ => PrimFloat.nan
  end.

(** [Math.round]: the integral number closest to [x], the one closer to
    plus infinity in the case of a tie; [NaN], the infinities, the zeros
    and integral numbers are returned unchanged, and a result of zero
    keeps the sign of [x]. *)
Definition round_half_up (s : bool) (m : positive) (e : Z) : Z :=
  (2 * cond_Zopp s (Zpos m) + 2 ^ (- e)) / 2 ^ (1 - e).

Definition Math_round (x : number) : number :=
  match Prim2SF x with
  | S754_finite s m e =>
      if (0 <=? e)%Z then x
      else
        let n := round_half_up s m e in
        if (n =? 0)%Z then SF2Prim (S754_zero s) else of_Z n
  | _ => x
  end.

(** Property names every plain object inherits from [Object.prototype]. *)
Definition Object_prototype_keys : list string :=
  [ "constructor"; "__defineGetter__"; "__defineSetter__";
    "hasOwnProperty"; "__lookupGetter__"; "__lookupSetter__";
    "isPrototypeOf"; "propertyIsEnumerable"; "toString"; "valueOf";
    "__proto__"; "toLocaleString" ].

(** [obj[key]] on an object literal with number-valued own properties. *)
Fixpoint own_property (props : list (string * number)) (key : string)
  : option number :=
  match props with
  | [] => None
  | (k, v) :: rest => if String.eqb k key then Some v else own_property rest key
  end.

Definition get (props : list (string * number)) (key : string) : value :=
  match own_property props key with
  | Some v => VNumber v
  | None =>
      if existsb (String.eqb key) Object_prototype_keys
      then VObject key else VUndefined
  end.

End Js.

Import Js.

(** ** The estimator ([ImageCompressor.tsx], lines 33-56) *)

Definition QUALITY_FACTORS : list (string * number) :=
  [ ("high", 0.7%float); ("medium", 0.45%float); ("low", 0.25%float) ].

Definition custom_factor (customQuality : number) : number :=
  (0.1 + (customQuality / 100) * 0.6)%float.

Definition estimateSize (originalSize : number) (preset : string)
    (customQuality : option number) : number :=
  let fallback :=
    Math_round
      (originalSize *
       ToNumber (or_else (get QUALITY_FACTORS preset) (VNumber 0.45%float)))%float in
  match customQuality with
  | Some q =>
      if String.eqb preset "custom" && truthy_number q
      then Math_round (originalSize * custom_factor q)%float
      else fallback
  | None => fallback
  end.


(** ** Data model ([ImageCompressor.tsx], lines 8-31) *)

Inductive Status := Pending | Compressing | Done | Error.

Definition Status_eqb (a b : Status) : bool :=
  match a, b with
  | Pending, Pending | Compressing, Compressing
  | Done, Done | Error, Error => true
  | _, _ => false
  end.

Record File := { file_name : string; file_bytes : list Byte.byte }.

Definition file_size (f : File) : number :=
  of_Z (Z.of_nat (List.length (file_bytes f))).

Module Original.
Record t := { name : string; size : number; width : number;
              height : number; format : string }.
End Original.

Module Compressed.
Record t := { size : number; width : number; height : number;
              format : string; base64 : string }.
End Compressed.

Record ImageFile := {
  id : string;
  file : File;
  preview : string;
  status : Status;
  originalSize : number;
  estimatedSize : option number;
  original : option Original.t;
  compressed : option Compressed.t;
  compressionRatio : option number;
  error : option string
}.

Inductive Preset := high | medium | low | custom.

Definition preset_key (p : Preset) : string :=
  match p with
  | high => "high" | medium => "medium" | low => "low" | custom => "custom"
  end.

Definition Preset_eqb (a b : Preset) : bool :=
  String.eqb (preset_key a) (preset_key b).

(** The component's [useState] cells. *)
Record State := {
  images : list ImageFile;
  quality : number;
  qualityPreset : Preset;
  outputFormat : string;
  isCompressing : bool
}.

Definition initial_state : State :=
  {| images := []; quality := 70%float; qualityPreset := medium;
     outputFormat := "original"; isCompressing := false |}.

Definition with_images (st : State) (imgs : list ImageFile) : State :=
  {| images := imgs; quality := quality st;
     qualityPreset := qualityPreset st; outputFormat := outputFormat st;
     isCompressing := isCompressing st |}.

Definition with_quality (st : State) (q : number) : State :=
  {| images := images st; quality := q;
     qualityPreset := qualityPreset st; outputFormat := outputFormat st;
     isCompressing := isCompressing st |}.

Definition with_qualityPreset (st : State) (p : Preset) : State :=
  {| images := images st; quality := quality st;
     qualityPreset := p; outputFormat := outputFormat st;
     isCompressing := isCompressing st |}.

Definition with_isCompressing (st : State) (b : bool) : State :=
  {| images := images st; quality := quality st;
     qualityPreset := qualityPreset st; outputFormat := outputFormat st;
     isCompressing := b |}.

(** [{ ...img, estimatedSize: e }] *)
Definition with_estimatedSize (img : ImageFile) (e : number) : ImageFile :=
  {| id := id img; file := file img; preview := preview img;
     status := status img; originalSize := originalSize img;
     estimatedSize := Some e;
     original := original img; compressed := compressed img;
     compressionRatio := compressionRatio img; error := error img |}.

(** [{ ...img, status: s }] *)
Definition with_status (img : ImageFile) (s : Status) : ImageFile :=
  {| id := id img; file := file img; preview := preview img;
     status := s; originalSize := originalSize img;
     estimatedSize := estimatedSize img;
     original := original img; compressed := compressed img;
     compressionRatio := compressionRatio img; error := error img |}.

(** ** Upload ([onDrop], lines 68-78) *)

(** An accepted file together with the identifier drawn for it and the
    object URL created for its preview. *)
Record Accepted := {
  acc_id : string;
  acc_url : string;
  acc_file : File
}.

Definition onDrop (acceptedFiles : list Accepted) (st : State) : State :=
  let newImages :=
    map (fun a =>
           {| id := acc_id a; file := acc_file a; preview := acc_url a;
              status := Pending; originalSize := file_size (acc_file a);
              estimatedSize :=
                Some (estimateSize (file_size (acc_file a))
                        (preset_key (qualityPreset st)) (Some (quality st)));
              original := None; compressed := None;
              compressionRatio := None; error := None |})
      acceptedFiles in
  with_images st (images st ++ newImages).

(** ** Re-estimation on a quality change (lines 58-66 and 92-99) *)

(** The body of the [useEffect]. *)
Definition estimate_effect (st : State) : State :=
  if (0 <? List.length (images st))%nat then
    with_images st
      (map (fun img =>
              with_estimatedSize img
                (estimateSize (originalSize img)
                   (preset_key (qualityPreset st)) (Some (quality st))))
         (images st))
  else st.

(** React runs the effect after a render in which a dependency differs
    ([Object.is]) from its value at the previous render. *)
Definition deps_changed (old new : State) : bool :=
  negb (Preset_eqb (qualityPreset old) (qualityPreset new)
        && PrimFloat.Leibniz.eqb (quality old) (quality new)).

Definition commit (old new : State) : State :=
  if deps_changed old new then estimate_effect new else new.

Definition handleQualityPreset (preset : Preset) (st : State) : State :=
  let st1 := with_qualityPreset st preset in
  let st2 :=
    match preset with
    | high => with_quality st1 90%float
    | medium => with_quality st1 70%float
    | low => with_quality st1 50%float
    | custom => st1
    end in
  commit st st2.

(** The slider's [onChange]: [setQuality(parseInt(e.target.value))]. *)
Definition handleQualityChange (q : number) (st : State) : State :=
  commit st (with_quality st q).

(** ** Aggregate statistics (lines 216-220) *)

Definition number_or_zero (x : option number) : number :=
  match x with
  | Some v => if truthy_number v then v else 0%float
  | None => 0%float
  end.

Definition totalOriginalSize (imgs : list ImageFile) : number :=
  fold_left (fun acc img => (acc + originalSize img)%float) imgs 0%float.

Definition totalEstimatedSize (imgs : list ImageFile) : number :=
  fold_left (fun acc img => (acc + number_or_zero (estimatedSize img))%float)
    imgs 0%float.

Definition totalCompressedSize (imgs : list ImageFile) : number :=
  fold_left
    (fun acc img =>
       (acc + number_or_zero (option_map Compressed.size (compressed img)))%float)
    (filter (fun img =>
               Status_eqb (status img) Done &&
               match compressed img with Some _ => true | None => false end)
       imgs)
    0%float.

(** ** The compression request and its possible outcomes *)

(** The multipart form sent to [/api/compress]. A field that is absent
    reads as [null] on the server. *)
Record FormData := {
  fd_file : option File;
  fd_quality : option string;
  fd_format : option string
}.

(** The JSON body of a response, as far as the component reads it. A
    number that is not finite is serialised as [null] and reads back as no
    number. *)
Record Json := {
  json_original : option Original.t;
  json_compressed : option Compressed.t;
  json_compressionRatio : option number;
  json_error : option string
}.

(** What a [catch] clause receives: an [Error] with its message, or
    another value. *)
Inductive Thrown := ThrownError (message : string) | ThrownOther.

(** [await response.json()] either rejects (the body is not JSON) or
    resolves to the parsed body. *)
Inductive Body := BodyThrows (t : Thrown) | BodyJson (result : Json).

Record HttpResponse := { http_status : Z; http_body : Body }.

(** [response.ok] *)
Definition ok (r : HttpResponse) : bool :=
  (200 <=? http_status r)%Z && (http_status r <=? 299)%Z.

(** [await fetch(...)] either rejects or resolves to a response. *)
Inductive FetchOutcome :=
| Rejected (t : Thrown)
| Resolved (r : HttpResponse).

(** ** Effects: the React state, the requests and the revoked URLs *)

Inductive Event :=
| EvRequest (fd : FormData)
| EvSettled (fd : FormData) (o : FetchOutcome)
| EvRevoke (url : string).

Record World := { state : State; log : list Event }.

Definition M (A : Type) : Type := World -> A * World.

Definition ret {A} (a : A) : M A := fun w => (a, w).

Definition bind {A B} (m : M A) (k : A -> M B) : M B :=
  fun w => let (a, w') := m w in k a w'.

Declare Scope m_scope.
Delimit Scope m_scope with m.
Notation "x <- c1 ;; c2" := (bind c1 (fun x => c2))
  (at level 61, c1 at next level, right associativity) : m_scope.
Notation "c1 ;; c2" := (bind c1 (fun _ => c2))
  (at level 61, right associativity) : m_scope.

(** [for (const x of xs) { await body(x) }] *)
Fixpoint for_of {A} (xs : list A) (body : A -> M unit) : M unit :=
  match xs with
  | [] => ret tt
  | x :: rest => (body x ;; for_of rest body)%m
  end.

Definition emit (e : Event) : M unit :=
  fun w => (tt, {| state := state w; log := log w ++ [e] |}).

(** [setImages(prev => f(prev))] *)
Definition setImages (f : list ImageFile -> list ImageFile) : M unit :=
  fun w => (tt, {| state := with_images (state w) (f (images (state w)));
                   log := log w |}).

Definition setIsCompressing (b : bool) : M unit :=
  fun w => (tt, {| state := with_isCompressing (state w) b; log := log w |}).

Definition is_request (e : Event) : bool :=
  match e with EvRequest _ => true | _ => false end.

Definition is_settled (e : Event) : bool :=
  match e with EvSettled _ _ => true | _ => false end.

Definition requests_made (l : list Event) : nat :=
  List.length (filter is_request l).

(** Requests begun and not yet settled after the events of [l]. *)
Definition in_flight (l : list Event) : Z :=
  Z.of_nat (List.length (filter is_request l))
  - Z.of_nat (List.length (filter is_settled l)).

Section Client.

(** The network and the server behind it: the outcome of the [n]-th
    request of the session. *)
Variable network : nat -> FormData -> FetchOutcome.

(** [Number.prototype.toString] *)
Variable Number_toString : number -> string.

(** [await fetch('/api/compress', { method: 'POST', body })]: the
    request is sent, and the caller resumes once it has settled. *)
Definition fetch (fd : FormData) : M FetchOutcome :=
  fun w =>
    let o := network (requests_made (log w)) fd in
    (o, {| state := state w;
           log := log w ++ [EvRequest fd; EvSettled fd o] |}).

Definition request_of (snapshot : State) (image : ImageFile) : FormData :=
  {| fd_file := Some (file image);
     fd_quality := Some (Number_toString (quality snapshot));
     fd_format := Some (outputFormat snapshot) |}.

(** The [catch] branch of [compressImage]. *)
Definition failed (image : ImageFile) (t : Thrown) : ImageFile :=
  {| id := id image; file := file image; preview := preview image;
     status := Error; originalSize := originalSize image;
     estimatedSize := estimatedSize image;
     original := original image; compressed := compressed image;
     compressionRatio := compressionRatio image;
     error := Some match t with
                   | ThrownError message => message
                   | ThrownOther => "压缩失败"
                   end |}.

(** The record returned after [await response.json()]. *)
Definition succeeded (image : ImageFile) (result : Json) : ImageFile :=
  {| id := id image; file := file image; preview := preview image;
     status := Done; originalSize := originalSize image;
     estimatedSize := estimatedSize image;
     original := json_original result;
     compressed := json_compressed result;
     compressionRatio := json_compressionRatio result;
     error := error image |}.

(** What [compressImage] makes of the outcome of its request. *)
Definition settle (image : ImageFile) (o : FetchOutcome) : ImageFile :=
  match o with
  | Rejected t => failed image t
  | Resolved r =>
      if negb (ok r) then failed image (ThrownError "压缩失败")
      else match http_body r with
           | BodyThrows t => failed image t
           | BodyJson result => succeeded image result
           end
  end.

Definition compressImage (snapshot : State) (image : ImageFile)
  : M ImageFile :=
  (o <- fetch (request_of snapshot image) ;;
   ret (settle image o))%m.

Definition eligible (img : ImageFile) : bool :=
  Status_eqb (status img) Pending || Status_eqb (status img) Compressing.

Definition mark_compressing (prev : list ImageFile) : list ImageFile :=
  map (fun img =>
         if Status_eqb (status img) Pending
         then with_status img Compressing else img) prev.

Definition replace_by_id (compressed : ImageFile) (prev : list ImageFile)
  : list ImageFile :=
  map (fun img => if String.eqb (id img) (id compressed)
                  then compressed else img) prev.

(** [handleCompress], run from a render whose state is [snapshot]. *)
Definition handleCompress (snapshot : State) : M unit :=
  if (List.length (images snapshot) =? 0)%nat then ret tt
  else
    (setIsCompressing true ;;
     setImages mark_compressing ;;
     let pendingImages := filter eligible (images snapshot) in
     for_of pendingImages
       (fun image =>
          compressed <- compressImage snapshot image ;;
          setImages (replace_by_id compressed)) ;;
     setIsCompressing false)%m.

(** A click on the compress button: the handler closes over the state
    of the current render. *)
Definition click_compress (w : World) : World :=
  snd (handleCompress (state w) w).

(** [removeImage] (lines 199-201) *)
Definition removeImage (id0 : string) : M unit :=
  setImages (filter (fun img => negb (String.eqb (id img) id0))).

(** [clearAll] (lines 203-206) *)
Definition clearAll (snapshot : State) : M unit :=
  (for_of (images snapshot) (fun img => emit (EvRevoke (preview img))) ;;
   setImages (fun _ => []))%m.

End Client.

(** ** Two-decimal formatting: [x.toFixed(2)] and [parseFloat] *)

(** The text [toFixed(2)] produces, by its shape: the name of a value that
    is not finite, a decimal with two fractional digits (sign and number
    of hundredths), or, from 1e21 on, the text of [x] itself. *)
Inductive FixedText :=
| TextNaN
| TextInfinity (negative : bool)
| TextDecimal (negative : bool) (hundredths : Z)
| TextNumber (x : number).

(** The integer [n] for which [n / 100] is closest to [m * 2^e], the
    larger one in the case of a tie. *)
Definition nearest_hundredths (m : positive) (e : Z) : Z :=
  if (0 <=? e)%Z then 100 * Zpos m * 2 ^ e
  else (200 * Zpos m + 2 ^ (- e)) / 2 ^ (1 - e).

Definition toFixed2 (x : number) : FixedText :=
  match Prim2SF x with
  | S754_nan => TextNaN
  | S754_infinity s => TextInfinity s
  | S754_zero _ => TextDecimal false 0
  | S754_finite s m e =>
      if (PrimFloat.abs x <? 1e21)%float
      then TextDecimal s (nearest_hundredths m e)
      else TextNumber x
  end.

(** [parseFloat] on such a text: the number nearest to the decimal. *)
Definition parseFloat_fixed (t : FixedText) : number :=
  match t with
  | TextNaN => PrimFloat.nan
  | TextInfinity s => SF2Prim (S754_infinity s)
  | TextDecimal s n =>
      match n with
      | Zpos p =>
          SF2Prim (SFdiv prec emax (S754_finite s p 0) (S754_finite false 100 0))
      | _ => SF2Prim (S754_zero s)
      end
  | TextNumber x => x
  end.

(** A number through [JSON.stringify] and [JSON.parse]: a number that is
    not finite is written as [null], and a zero of either sign is written
    as [0]. *)
Definition json_number (x : number) : option number :=
  if PrimFloat.is_finite x
  then Some (if PrimFloat.is_zero x then 0%float else x)
  else None.

(** ** The compression endpoint ([route.ts]) *)

Inductive Encoder := EncJpeg | EncPng | EncWebp | EncAvif.

Record Metadata := {
  md_width : option number;
  md_height : option number;
  md_format : option string
}.

(** [a || b] on strings: the empty string is falsy. *)
Definition string_or (a : option string) (b : string) : string :=
  match a with
  | Some s => if String.eqb s "" then b else s
  | None => b
  end.

Definition number_or (a : option number) (b : number) : number :=
  match a with
  | Some x => if truthy_number x then x else b
  | None => b
  end.

(** The [switch] on the output format (lines 32-61): the encoder and the
    format reported back. *)
Definition select_encoder (outputFormat0 : string) : Encoder * string :=
  if String.eqb outputFormat0 "jpeg" || String.eqb outputFormat0 "jpg"
  then (EncJpeg, "jpeg")
  else if String.eqb outputFormat0 "png" then (EncPng, "png")
  else if String.eqb outputFormat0 "webp" then (EncWebp, "webp")
  else if String.eqb outputFormat0 "avif" then (EncAvif, "avif")
  else (EncJpeg, "jpeg").

(** Line 29: [format === 'original' ? originalFormat : format] *)
Definition resolve_format (format originalFormat : string) : string :=
  if String.eqb format "original" then originalFormat else format.

(** Line 70 and line 92 *)
Definition compression_ratio (compressedSize originalSize0 : number) : number :=
  parseFloat_fixed (toFixed2 ((1 - compressedSize / originalSize0) * 100)%float).

Definition error_response (status0 : Z) (message : string) : HttpResponse :=
  {| http_status := status0;
     http_body := BodyJson {| json_original := None; json_compressed := None;
                              json_compressionRatio := None;
                              json_error := Some message |} |}.

(** The output encoding for a format token and a detected source
    encoding, as lines 9, 23 and 29-61 compute it. *)
Definition chosen_encoding (format originalFormat : option string) : string :=
  snd (select_encoder
         (resolve_format (string_or format "original")
            (string_or originalFormat "unknown"))).

Section Server.

(** The image library: [sharp(buffer).metadata()] and the encoders
    followed by [toBuffer()]; [None] stands for a thrown exception. *)
Variable sharp_metadata : list Byte.byte -> option Metadata.
Variable sharp_encode :
  Encoder -> number -> list Byte.byte -> option (list Byte.byte).

(** [buffer.toString('base64')] and the global [parseInt]. *)
Variable base64_encode : list Byte.byte -> string.
Variable parseInt : string -> number.

Definition buffer_length (b : list Byte.byte) : number :=
  of_Z (Z.of_nat (List.length b)).

Definition internal_error : HttpResponse :=
  error_response 500 "图片压缩失败，请检查文件格式是否正确".

Definition POST (formData : FormData) : HttpResponse :=
  let quality0 :=
    number_or (option_map parseInt (fd_quality formData)) 80%float in
  let format := string_or (fd_format formData) "original" in
  match fd_file formData with
  | None => error_response 400 "没有上传文件"
  | Some file0 =>
      let buffer := file_bytes file0 in
      let originalSize0 := buffer_length buffer in
      match sharp_metadata buffer with
      | None => internal_error
      | Some metadata =>
          let originalWidth := number_or (md_width metadata) 0%float in
          let originalHeight := number_or (md_height metadata) 0%float in
          let originalFormat := string_or (md_format metadata) "unknown" in
          let (encoder, outputFormat0) :=
            select_encoder (resolve_format format originalFormat) in
          match sharp_encode encoder quality0 buffer with
          | None => internal_error
          | Some compressedBuffer =>
              match sharp_metadata compressedBuffer with
              | None => internal_error
              | Some compressedMetadata =>
                  let compressedSize := buffer_length compressedBuffer in
                  {| http_status := 200;
                     http_body := BodyJson
                       {| json_original := Some
                            {| Original.name := file_name file0;
                               Original.size := originalSize0;
                               Original.width := originalWidth;
                               Original.height := originalHeight;
                               Original.format := originalFormat |};
                          json_compressed := Some
                            {| Compressed.size := compressedSize;
                               Compressed.width :=
                                 number_or (md_width compressedMetadata) 0%float;
                               Compressed.height :=
                                 number_or (md_height compressedMetadata) 0%float;
                               Compressed.format := outputFormat0;
                               Compressed.base64 :=
                                 "data:image/" ++ outputFormat0 ++ ";base64,"
                                 ++ base64_encode compressedBuffer |};
                          json_compressionRatio :=
                            json_number
                              (compression_ratio compressedSize originalSize0);
                          json_error := None |} |}
              end
          end
      end
  end.

End Server.

(** ** A concrete session

    Two uploads, of 20 and 24 bytes, under the initial selection (medium,
    quality 70), and an image library that detects the first as PNG and the
    second as GIF and encodes every image to 7 bytes. *)

Definition upload_a : Accepted :=
  {| acc_id := "a"; acc_url := "blob:a";
     acc_file := {| file_name := "a.png";
                    file_bytes := repeat Byte.x00 20 |} |}.

Definition upload_b : Accepted :=
  {| acc_id := "b"; acc_url := "blob:b";
     acc_file := {| file_name := "b.gif";
                    file_bytes := repeat Byte.x01 24 |} |}.

Definition sample_metadata (buffer : list Byte.byte) : option Metadata :=
  Some {| md_width := Some 4%float; md_height := Some 5%float;
          md_format := Some match buffer with
                            | Byte.x01 :: _ => "gif"
                            | _ => "png"
                            end |}.

Definition sample_encode (enc : Encoder) (q : number)
    (buffer : list Byte.byte) : option (list Byte.byte) :=
  Some (repeat Byte.x00 7).

Definition sample_base64 (buffer : list Byte.byte) : string := "AAAAAAAAAA==".

Definition sample_parseInt (s : string) : number := 70%float.

Definition sample_toString (q : number) : string := "70".

Definition sample_POST : FormData -> HttpResponse :=
  POST sample_metadata sample_encode sample_base64 sample_parseInt.

(** Every request reaches the endpoint. *)
Definition served (n : nat) (fd : FormData) : FetchOutcome :=
  Resolved (sample_POST fd).

(** The first request of the session fails in the network; the later
    ones reach the endpoint. *)
Definition first_fails (n : nat) (fd : FormData) : FetchOutcome :=
  match n with
  | O => Rejected (ThrownError "Failed to fetch")
  | S _ => served n fd
  end.

Definition one_upload : World :=
  {| state := onDrop [upload_a] initial_state; log := [] |}.

Definition two_uploads : World :=
  {| state := onDrop [upload_a; upload_b] initial_state; log := [] |}.

(** The session after the single upload has been compressed. *)
Definition one_done : World :=
  click_compress served sample_toString one_upload.

(** * Properties *)

(** ** Helpers: bounded integer ranges *)

Fixpoint Z_range (lo : Z) (n : nat) : list Z :=
  match n with
  | O => []
  | S k => lo :: Z_range (lo + 1) k
  end.

Lemma Z_range_In (n : nat) : forall lo z,
  (lo <= z < lo + Z.of_nat n)%Z -> In z (Z_range lo n).
Proof.
  induction n as [|k IH]; intros lo z Hz.
  - lia.
  - cbn [Z_range]. destruct (Z.eq_dec lo z) as [->|Hne].
    + now left.
    + right. apply IH. lia.
Qed.

Lemma forallb_Z_range (P : Z -> bool) (lo : Z) (n : nat) (z : Z) :
  forallb P (Z_range lo n) = true ->
  (lo <= z < lo + Z.of_nat n)%Z -> P z = true.
Proof.
  intros Hall Hz. rewrite forallb_forall in Hall.
  apply Hall, Z_range_In, Hz.
Qed.

(** Every quality value of the slider is a truthy number. *)
Lemma quality_truthy (q : Z) :
  (10 <= q <= 100)%Z -> truthy_number (of_Z q) = true.
Proof.
  intros Hq.
  apply (forallb_Z_range (fun z => truthy_number (of_Z z)) 10 91 q).
  - vm_compute. reflexivity.
  - lia.
Qed.

(** ** The number model on known values *)

(** [Math.round] rounds ties towards plus infinity and keeps the sign of a
    zero result. *)
Example Math_round_values :
  map Math_round
    [2.5; -2.5; 0.49999999999999994; 0.5; -0.2; -0.5; -3.7;
     31.499999999999996; 4503599627370497]%float
  = [3; -2; 0; 1; -0; -0; -4; 31; 4503599627370497]%float.
Proof. vm_compute. reflexivity. Qed.

(** [toFixed(2)] rounds the exact value of the number: 1.005 is below
    1.005 as a double and prints as 1.00, 8.345 is above and prints as
    8.35. *)
Example toFixed2_values :
  map toFixed2 [1.005; 8.345; 1.255; -1.5; -0.001; 70.83333333333334]%float
  = [TextDecimal false 100; TextDecimal false 835; TextDecimal false 125;
     TextDecimal true 150; TextDecimal true 0; TextDecimal false 7083].
Proof. vm_compute. reflexivity. Qed.

Example parseFloat_fixed_values :
  map parseFloat_fixed
    [TextDecimal false 7083; TextDecimal false 1; TextDecimal true 150;
     TextDecimal false 12345678901234567890123]
  = [70.83; 0.01; -1.5; 123456789012345678901.23]%float.
Proof. vm_compute. reflexivity. Qed.

(** ** The estimator *)

Lemma estimateSize_table (x : number) (preset : string) (f : number)
    (cq : option number) :
  String.eqb preset "custom" = false ->
  own_property QUALITY_FACTORS preset = Some f ->
  truthy_number f = true ->
  estimateSize x preset cq = Math_round (x * f)%float.
Proof.
  intros Hc Hp Hf. unfold estimateSize, get, or_else.
  rewrite Hc, Hp. cbn [andb truthy ToNumber]. rewrite Hf.
  now destruct cq.
Qed.

(** C1. For every size, the estimator returns [round(size * 0.70)] for
    preset high, [round(size * 0.45)] for medium, [round(size * 0.25)] for
    low, and for preset custom with a quality [q] in 10..100 returns
    [round(size * (0.1 + (q / 100) * 0.6))]; rounding and arithmetic are
    those of JavaScript numbers. In particular a 1,000,000-byte file is
    estimated at 450000 bytes under medium and at 430000 bytes under custom
    with quality 55. *)
Theorem estimateSize_presets (sourceBytes q : Z) (cq : option number) :
  (0 <= sourceBytes)%Z -> (10 <= q <= 100)%Z ->
  let x := of_Z sourceBytes in
  estimateSize x "high" cq = Math_round (x * 0.7)%float /\
  estimateSize x "medium" cq = Math_round (x * 0.45)%float /\
  estimateSize x "low" cq = Math_round (x * 0.25)%float /\
  estimateSize x "custom" (Some (of_Z q))
    = Math_round (x * (0.1 + (of_Z q / 100) * 0.6))%float /\
  estimateSize (of_Z 1000000) "medium" cq = of_Z 450000 /\
  estimateSize (of_Z 1000000) "custom" (Some (of_Z 55)) = of_Z 430000.
Proof.
  intros _ Hq x.
  split; [|split; [|split; [|split; [|split]]]].
  - now apply estimateSize_table.
  - now apply estimateSize_table.
  - now apply estimateSize_table.
  - unfold estimateSize. rewrite (quality_truthy q Hq). reflexivity.
  - rewrite (estimateSize_table _ "medium" 0.45%float) by reflexivity.
    vm_compute. reflexivity.
  - vm_compute. reflexivity.
Qed.

(** The product is the binary64 one: 45 * 0.7 is 31.499999999999996, and
    the estimate of a 45-byte file under high is 31. *)
Example estimate_45_high :
  estimateSize (of_Z 45) "high" (Some 90%float) = of_Z 31.
Proof. vm_compute. reflexivity. Qed.

Lemma estimateSize_presets_witness :
  estimateSize (of_Z 2048) "high" None = Math_round (of_Z 2048 * 0.7)%float /\
  estimateSize (of_Z 2048) "custom" (Some (of_Z 10))
    = Math_round (of_Z 2048 * (0.1 + (of_Z 10 / 100) * 0.6))%float.
Proof.
  destruct (estimateSize_presets 2048 10 None) as (H1 & _ & _ & H4 & _);
    [lia | lia | ].
  split; [exact H1 | exact H4].
Defined.

(** The custom branch of the estimator is entered. *)
Definition custom_branch_taken (preset : string) (cq : option number) : bool :=
  String.eqb preset "custom" &&
  match cq with Some q => truthy_number q | None => false end.







(** The failing input: ["constructor"] is outside high, medium and low and
    does not take the custom branch; a file of 100 bytes is estimated at
    [NaN], where [round(100 * 0.45)] is 45. *)
Example estimateSize_inherited_key :
  "constructor" <> "high" /\ "constructor" <> "medium" /\
  "constructor" <> "low" /\
  custom_branch_taken "constructor" None = false /\
  Prim2SF (estimateSize (of_Z 100) "constructor" None) = S754_nan /\
  Math_round (of_Z 100 * 0.45)%float = of_Z 45 /\
  estimateSize (of_Z 100) "constructor" None
    <> Math_round (of_Z 100 * 0.45)%float.
Proof.
  repeat (split; [discriminate || (vm_compute; reflexivity)|]).
  intros H. apply (f_equal Prim2SF) in H. vm_compute in H. discriminate.
Qed.

(** ** Re-estimation *)

Lemma Preset_eqb_eq (a b : Preset) : Preset_eqb a b = true <-> a = b.
Proof. destruct a, b; cbv; split; congruence. Qed.

(** [new] is [old] with its estimate recomputed under the selection of
    [st]; every other field is the one of [old]. *)
Definition reestimated (st : State) (old new : ImageFile) : Prop :=
  new = with_estimatedSize old
          (estimateSize (originalSize old) (preset_key (qualityPreset st))
             (Some (quality st))).

Lemma Forall2_map_same {A B} (R : A -> B -> Prop) (f : A -> B) (l : list A) :
  (forall a, R a (f a)) -> Forall2 R l (map f l).
Proof. intros H. induction l; cbn; constructor; auto. Qed.

Lemma commit_reestimates (old new : State) :
  deps_changed old new = true ->
  Forall2 (reestimated new) (images new) (images (commit old new)).
Proof.
  intros Hd. unfold commit, estimate_effect. rewrite Hd.
  destruct (images new) as [|i l] eqn:E; cbn.
  - rewrite E. constructor.
  - constructor; [reflexivity|].
    apply Forall2_map_same. intros a. reflexivity.
Qed.

(** C2 (amended). After a change of the preset or of the quality value
    the estimate of every record, whatever its status, is recomputed
    under the new selection; every record keeps all its other fields, so a
    done record keeps its status, its measured result and its compression
    ratio, but not its estimate. *)
Theorem quality_change_reestimates (st : State) (p : Preset) (q : number) :
  (qualityPreset st <> p ->
   qualityPreset (handleQualityPreset p st) = p /\
   Forall2 (reestimated (handleQualityPreset p st))
     (images st) (images (handleQualityPreset p st))) /\
  (quality st <> q ->
   quality (handleQualityChange q st) = q /\
   Forall2 (reestimated (handleQualityChange q st))
     (images st) (images (handleQualityChange q st))).
Proof.
  split.
  - intros Hp.
    assert (Hd : forall st2, qualityPreset st2 = p ->
                  deps_changed st st2 = true).
    { intros st2 E. unfold deps_changed.
      destruct (Preset_eqb (qualityPreset st) (qualityPreset st2)) eqn:Eb;
        [|reflexivity].
      apply Preset_eqb_eq in Eb. congruence. }
    unfold handleQualityPreset.
    set (st2 := match p with
                | high => _ | medium => _ | low => _ | custom => _ end).
    assert (E2 : qualityPreset st2 = p) by (subst st2; now destruct p).
    assert (Ei : images st2 = images st) by (subst st2; now destruct p).
    pose proof (commit_reestimates st st2 (Hd st2 E2)) as HF.
    rewrite Ei in HF.
    assert (Es : qualityPreset (commit st st2) = p /\
                 quality (commit st st2) = quality st2).
    { unfold commit. rewrite (Hd st2 E2). unfold estimate_effect.
      destruct (0 <? _)%nat; cbn; auto. }
    destruct Es as [Es1 Es2]. split; [exact Es1|].
    unfold reestimated in *. rewrite Es1, Es2. rewrite E2 in HF. exact HF.
  - intros Hq.
    assert (Hd : deps_changed st (with_quality st q) = true).
    { unfold deps_changed. cbn.
      destruct (PrimFloat.Leibniz.eqb (quality st) q) eqn:Eb.
      - apply FloatAxioms.Leibniz.eqb_spec in Eb. contradiction.
      - now rewrite andb_false_r. }
    pose proof (commit_reestimates st _ Hd) as HF. cbn in HF.
    unfold handleQualityChange.
    assert (Es : qualityPreset (commit st (with_quality st q)) = qualityPreset st /\
                 quality (commit st (with_quality st q)) = q).
    { unfold commit. rewrite Hd. unfold estimate_effect.
      destruct (0 <? _)%nat; cbn; auto. }
    destruct Es as [Es1 Es2]. split; [exact Es2|].
    unfold reestimated in *. rewrite Es1, Es2. exact HF.
Qed.

Lemma quality_change_reestimates_witness :
  qualityPreset (handleQualityPreset low (state two_uploads)) = low /\
  Forall2 (reestimated (handleQualityPreset low (state two_uploads)))
    (images (state two_uploads))
    (images (handleQualityPreset low (state two_uploads))).
Proof.
  apply (proj1 (quality_change_reestimates (state two_uploads) low 50%float)).
  vm_compute. discriminate.
Defined.

(** C2, as stated, fails: the single record of [one_done] is done with an
    estimate of 9 bytes; selecting the low preset changes its estimate to 5
    bytes. *)
Lemma done_record_is_reestimated :
  map status (images (state one_done)) = [Done] /\
  map estimatedSize (images (state one_done)) = [Some (of_Z 9)] /\
  map status (images (handleQualityPreset low (state one_done))) = [Done] /\
  map estimatedSize (images (handleQualityPreset low (state one_done)))
    = [Some (of_Z 5)] /\
  map estimatedSize (images (handleQualityPreset low (state one_done)))
    <> map estimatedSize (images (state one_done)).
Proof.
  repeat (split; [vm_compute; reflexivity|]).
  intros H. apply (f_equal (map (option_map Prim2SF))) in H.
  vm_compute in H. discriminate.
Qed.

(** ** The total of the estimates *)

(** The total as the specification words it: the estimates of the records
    that are not done, plus the measured sizes of the done records. *)
Definition spec_totalEstimatedSize (imgs : list ImageFile) : number :=
  (fold_left (fun acc img => (acc + number_or_zero (estimatedSize img))%float)
     (filter (fun img => negb (Status_eqb (status img) Done)) imgs) 0%float
   + totalCompressedSize imgs)%float.

Lemma fold_left_add_map {A} (f : A -> number) (l : list A) (acc : number) :
  fold_left (fun a x => (a + f x)%float) l acc
  = fold_left PrimFloat.add (map f l) acc.
Proof.
  revert acc. induction l as [|x l IH]; intros acc; cbn; [reflexivity|].
  apply IH.
Qed.

(** C7 (amended). The total of the estimates is the sum, in list order, of
    [estimatedSize] (0 when absent) over all records, whatever their
    status; a record that completes keeps contributing its estimate, not
    its measured size. *)
Theorem totalEstimatedSize_all_records (imgs : list ImageFile)
    (result : ImageFile -> Json) :
  totalEstimatedSize imgs
  = fold_left PrimFloat.add
      (map (fun img => number_or_zero (estimatedSize img)) imgs) 0%float /\
  totalEstimatedSize (map (fun img => succeeded img (result img)) imgs)
  = totalEstimatedSize imgs.
Proof.
  unfold totalEstimatedSize. split.
  - apply fold_left_add_map.
  - rewrite (fold_left_add_map (fun img => number_or_zero (estimatedSize img))).
    rewrite (fold_left_add_map (fun img => number_or_zero (estimatedSize img))).
    rewrite map_map. reflexivity.
Qed.

(** C7, as stated, fails: the single record of [one_done] is done with a
    measured size of 7 bytes and an estimate of 9 bytes; the total is 9,
    where the sum the specification describes is 7. *)
Lemma totalEstimatedSize_ignores_measured :
  map status (images (state one_done)) = [Done] /\
  totalEstimatedSize (images (state one_done)) = of_Z 9 /\
  spec_totalEstimatedSize (images (state one_done)) = of_Z 7 /\
  totalEstimatedSize (images (state one_done))
    <> spec_totalEstimatedSize (images (state one_done)).
Proof.
  repeat (split; [vm_compute; reflexivity|]).
  intros H. apply (f_equal Prim2SF) in H. vm_compute in H. discriminate.
Qed.

(** ** Preview handles *)

Definition revokes (url : string) (e : Event) : bool :=
  match e with EvRevoke u => String.eqb u url | _ => false end.

(** How many times [URL.revokeObjectURL(url)] has been called. *)
Definition revocations (url : string) (l : list Event) : nat :=
  List.length (filter (revokes url) l).

(** C3 (the code at the failing input). [removeImage] only filters the
    list: it never calls [URL.revokeObjectURL]. Removing the single record
    of [one_upload] empties the list and leaves its preview handle
    [blob:a] released zero times, where [clearAll] on the same session
    releases it once. *)
Theorem removeImage_releases_nothing :
  (forall id0 w, log (snd (removeImage id0 w)) = log w) /\
  map preview (images (state one_upload)) = ["blob:a"] /\
  images (state (snd (removeImage "a" one_upload))) = [] /\
  revocations "blob:a" (log (snd (removeImage "a" one_upload))) = 0%nat /\
  revocations "blob:a" (log (snd (clearAll (state one_upload) one_upload)))
    = 1%nat.
Proof.
  split; [reflexivity|].
  repeat (split; [vm_compute; reflexivity|]).
  vm_compute; reflexivity.
Qed.

(** ** The output encoding *)

Definition supported_encoding (s : string) : bool :=
  String.eqb s "jpeg" || String.eqb s "png" || String.eqb s "webp"
  || String.eqb s "avif".

Ltac string_cases :=
  repeat match goal with
    | |- context [String.eqb ?a ?b] =>
        destruct (String.eqb_spec a b); try congruence; try discriminate
    end.

(** The rule of the [switch]: what the endpoint answers with, [out], for a
    format token as read and a detected source encoding. *)
Definition encoding_rule (token source out : string) : Prop :=
  (token = "jpeg" \/ token = "jpg" -> out = "jpeg") /\
  (token = "png" \/ token = "webp" \/ token = "avif" -> out = token) /\
  (token = "original" -> supported_encoding source = true -> out = source) /\
  (token = "original" -> supported_encoding source = false -> out = "jpeg") /\
  (token <> "original" -> token <> "jpg" ->
   supported_encoding token = false -> out = "jpeg").

Lemma chosen_encoding_cases (format originalFormat : option string) :
  encoding_rule (string_or format "original")
    (string_or originalFormat "unknown")
    (chosen_encoding format originalFormat).
Proof.
  unfold encoding_rule.
  unfold chosen_encoding.
  generalize (string_or format "original") as token.
  generalize (string_or originalFormat "unknown") as source.
  intros source token.
  unfold resolve_format, select_encoder, supported_encoding.
  repeat split.
  - intros [E|E]; rewrite E; reflexivity.
  - intros [E|[E|E]]; rewrite E; reflexivity.
  - intros E. rewrite E. change (String.eqb "original" "original") with true.
    cbv iota. string_cases; cbn; intros; congruence.
  - intros E. rewrite E. change (String.eqb "original" "original") with true.
    cbv iota. string_cases; cbn; intros; congruence.
  - intros H1 H2.
    destruct (String.eqb_spec token "original"); [contradiction|].
    string_cases; cbn; intros; congruence.
Qed.

Section ServerProperties.

Variable sharp_metadata : list Byte.byte -> option Metadata.
Variable sharp_encode :
  Encoder -> number -> list Byte.byte -> option (list Byte.byte).
Variable base64_encode : list Byte.byte -> string.
Variable parseInt : string -> number.

Let endpoint := POST sharp_metadata sharp_encode base64_encode parseInt.

(** A response that carries a compressed image comes from the success
    path of the endpoint. *)
Lemma POST_success (formData : FormData) (result : Json) (c : Compressed.t) :
  http_body (endpoint formData) = BodyJson result ->
  json_compressed result = Some c ->
  exists file0 metadata encoder compressedBuffer,
    fd_file formData = Some file0 /\
    sharp_metadata (file_bytes file0) = Some metadata /\
    select_encoder
      (resolve_format (string_or (fd_format formData) "original")
         (string_or (md_format metadata) "unknown"))
      = (encoder, Compressed.format c) /\
    sharp_encode encoder
      (number_or (option_map parseInt (fd_quality formData)) 80%float)
      (file_bytes file0) = Some compressedBuffer /\
    Compressed.size c = buffer_length compressedBuffer /\
    json_compressionRatio result
      = json_number (compression_ratio (buffer_length compressedBuffer)
                       (buffer_length (file_bytes file0))) /\
    http_status (endpoint formData) = 200%Z.
Proof.
  subst endpoint. unfold POST, internal_error, error_response.
  destruct (fd_file formData) as [file0|]; cbn;
    [|intros H; inversion H; subst; cbn; discriminate].
  destruct (sharp_metadata (file_bytes file0)) as [metadata|] eqn:Em; cbn;
    [|intros H; inversion H; subst; cbn; discriminate].
  destruct (select_encoder _) as [encoder outputFormat0] eqn:Es.
  destruct (sharp_encode encoder _ _) as [compressedBuffer|] eqn:Ee; cbn;
    [|intros H; inversion H; subst; cbn; discriminate].
  destruct (sharp_metadata compressedBuffer) as [compressedMetadata|]; cbn;
    [|intros H; inversion H; subst; cbn; discriminate].
  intros H Hc. inversion H; subst; clear H. cbn in Hc.
  inversion Hc; subst; clear Hc. cbn.
  exists file0, metadata, encoder, compressedBuffer.
  repeat split; auto.
Qed.

(** C9 (amended). For every request the endpoint compresses, the output
    encoding is computed from the format token, an absent or empty token
    reading as original, and the detected source encoding: JPEG for the
    tokens jpeg and jpg; the token itself for png, webp and avif; for
    original, the detected source encoding when that is one of jpeg, png,
    webp and avif, and JPEG otherwise; JPEG for any other token. *)
Theorem endpoint_output_encoding (formData : FormData) (result : Json)
    (c : Compressed.t) :
  http_body (endpoint formData) = BodyJson result ->
  json_compressed result = Some c ->
  exists file0 metadata,
    fd_file formData = Some file0 /\
    sharp_metadata (file_bytes file0) = Some metadata /\
    Compressed.format c
      = chosen_encoding (fd_format formData) (md_format metadata) /\
    encoding_rule (string_or (fd_format formData) "original")
      (string_or (md_format metadata) "unknown") (Compressed.format c).
Proof.
  intros Hb Hc.
  destruct (POST_success formData result c Hb Hc)
    as (file0 & metadata & encoder & buf & Hf & Hm & Hs & _).
  exists file0, metadata. split; [exact Hf|]. split; [exact Hm|].
  assert (E : Compressed.format c
              = chosen_encoding (fd_format formData) (md_format metadata)).
  { unfold chosen_encoding. now rewrite Hs. }
  split; [exact E|]. rewrite E.
  apply chosen_encoding_cases.
Qed.

End ServerProperties.

Definition request_original_b : FormData :=
  {| fd_file := Some (acc_file upload_b); fd_quality := Some "70";
     fd_format := Some "original" |}.

Definition response_format (r : HttpResponse) : option string :=
  match http_body r with
  | BodyJson result => option_map Compressed.format (json_compressed result)
  | BodyThrows _ => None
  end.

Definition empty_json : Json :=
  {| json_original := None; json_compressed := None;
     json_compressionRatio := None; json_error := None |}.

Definition response_json (r : HttpResponse) : Json :=
  match http_body r with
  | BodyJson result => result
  | BodyThrows _ => empty_json
  end.

Definition compressed_b : Compressed.t :=
  {| Compressed.size := 7%float; Compressed.width := 4%float;
     Compressed.height := 5%float; Compressed.format := "jpeg";
     Compressed.base64 := "data:image/jpeg;base64,AAAAAAAAAA==" |}.

Lemma endpoint_output_encoding_witness :
  exists file0 metadata,
    fd_file request_original_b = Some file0 /\
    sample_metadata (file_bytes file0) = Some metadata /\
    Compressed.format compressed_b
      = chosen_encoding (fd_format request_original_b) (md_format metadata) /\
    encoding_rule (string_or (fd_format request_original_b) "original")
      (string_or (md_format metadata) "unknown")
      (Compressed.format compressed_b).
Proof.
  apply (endpoint_output_encoding sample_metadata sample_encode sample_base64
           sample_parseInt request_original_b
           (response_json (sample_POST request_original_b)) compressed_b);
    vm_compute; reflexivity.
Defined.

(** C9, as stated, fails: for the token original and an upload detected as
    GIF the endpoint answers with a JPEG, not with the detected source
    encoding. *)
Lemma original_gif_becomes_jpeg :
  option_map md_format (sample_metadata (file_bytes (acc_file upload_b)))
    = Some (Some "gif") /\
  fd_format request_original_b = Some "original" /\
  http_status (sample_POST request_original_b) = 200%Z /\
  response_format (sample_POST request_original_b) = Some "jpeg" /\
  response_format (sample_POST request_original_b) <> Some "gif".
Proof.
  repeat (split; [vm_compute; reflexivity|]).
  vm_compute. discriminate.
Qed.

(** ** The batch *)



Section ClientProperties.

Variable network : nat -> FormData -> FetchOutcome.
Variable Number_toString : number -> string.

Let request := request_of Number_toString.

(** The events of a batch over [pending] whose first request is the
    [n]-th of the session: each request is followed by its own settlement
    before the next one is sent. *)
Fixpoint batch_log (snapshot : State) (n : nat) (pending : list ImageFile)
  : list Event :=
  match pending with
  | [] => []
  | image :: rest =>
      EvRequest (request snapshot image)
      :: EvSettled (request snapshot image)
           (network n (request snapshot image))
      :: batch_log snapshot (S n) rest
  end.

(** The list after the loop, update by update. *)
Fixpoint batch_images (snapshot : State) (n : nat) (pending : list ImageFile)
    (cur : list ImageFile) : list ImageFile :=
  match pending with
  | [] => cur
  | image :: rest =>
      batch_images snapshot (S n) rest
        (replace_by_id
           (settle image (network n (request snapshot image))) cur)
  end.

(** One pass over the list: every eligible record is settled with the
    outcome of its own request, the others are left alone. *)
Fixpoint settle_all (snapshot : State) (n : nat) (imgs : list ImageFile)
  : list ImageFile :=
  match imgs with
  | [] => []
  | img :: rest =>
      if eligible img
      then settle img (network n (request snapshot img))
           :: settle_all snapshot (S n) rest
      else img :: settle_all snapshot n rest
  end.

Lemma requests_made_app (l1 l2 : list Event) :
  requests_made (l1 ++ l2) = (requests_made l1 + requests_made l2)%nat.
Proof. unfold requests_made. now rewrite filter_app, length_app. Qed.

Lemma with_images_twice (st : State) (a b : list ImageFile) :
  with_images (with_images st a) b = with_images st b.
Proof. reflexivity. Qed.

Lemma for_of_batch (snapshot : State) (pending : list ImageFile) :
  forall st l,
    for_of pending
      (fun image =>
         (compressed <- compressImage network Number_toString snapshot image ;;
          setImages (replace_by_id compressed))%m)
      {| state := st; log := l |}
    = (tt, {| state := with_images st
                         (batch_images snapshot (requests_made l) pending
                            (images st));
              log := l ++ batch_log snapshot (requests_made l) pending |}).
Proof.
  induction pending as [|image rest IH]; intros st l.
  - cbn. rewrite app_nil_r. now destruct st.
  - cbn [for_of]. unfold bind at 1. unfold bind at 1.
    unfold compressImage, fetch, bind, ret, setImages. cbn [state log].
    rewrite IH. cbn [batch_images batch_log images with_images].
    rewrite requests_made_app. cbn [requests_made filter is_request List.length].
    replace (requests_made l + 1)%nat with (S (requests_made l)) by lia.
    rewrite with_images_twice. fold request.
    rewrite <- app_assoc. reflexivity.
Qed.

Lemma id_settle (image : ImageFile) (o : FetchOutcome) :
  id (settle image o) = id image.
Proof.
  unfold settle. destruct o as [t|r]; [reflexivity|].
  destruct (negb (ok r)); [reflexivity|].
  now destruct (http_body r).
Qed.

Lemma map_id_mark (imgs : list ImageFile) :
  map id (mark_compressing imgs) = map id imgs.
Proof.
  unfold mark_compressing. rewrite map_map. apply map_ext.
  intros img. now destruct (Status_eqb _ _).
Qed.

Lemma replace_by_id_absent (c : ImageFile) (l : list ImageFile) :
  ~ In (id c) (map id l) -> replace_by_id c l = l.
Proof.
  unfold replace_by_id. induction l as [|x l IH]; intros Hn; cbn; [reflexivity|].
  cbn in Hn. destruct (String.eqb_spec (id x) (id c)) as [E|E].
  - exfalso. apply Hn. now left.
  - f_equal. apply IH. intros Hin. apply Hn. now right.
Qed.

Lemma replace_by_id_middle (c x : ImageFile) (l1 l2 : list ImageFile) :
  id x = id c ->
  ~ In (id c) (map id l1) -> ~ In (id c) (map id l2) ->
  replace_by_id c (l1 ++ x :: l2) = l1 ++ c :: l2.
Proof.
  intros E H1 H2.
  change (replace_by_id c (l1 ++ x :: l2))
    with (map (fun img => if String.eqb (id img) (id c) then c else img)
            (l1 ++ x :: l2)).
  rewrite map_app. cbn [map].
  fold (replace_by_id c l1). fold (replace_by_id c l2).
  rewrite (replace_by_id_absent c l1 H1), (replace_by_id_absent c l2 H2).
  rewrite E, String.eqb_refl. reflexivity.
Qed.

Lemma mark_not_pending (img : ImageFile) :
  eligible img = false ->
  (if Status_eqb (status img) Pending then with_status img Compressing else img)
  = img.
Proof. unfold eligible. now destruct (status img). Qed.

(** With distinct identifiers, the updates of the loop amount to one pass
    over the list. *)
Lemma batch_images_settle_all (snapshot : State) (imgs : list ImageFile) :
  forall n finished,
    NoDup (map id finished ++ map id imgs) ->
    batch_images snapshot n (filter eligible imgs)
      (finished ++ mark_compressing imgs)
    = finished ++ settle_all snapshot n imgs.
Proof.
  induction imgs as [|img rest IH]; intros n finished Hnd.
  - reflexivity.
  - cbn [filter settle_all mark_compressing map].
    fold (mark_compressing rest).
    assert (Hsplit : NoDup ((map id finished ++ [id img]) ++ map id rest)).
    { now rewrite <- app_assoc. }
    pose proof (NoDup_remove_2 _ _ _ Hnd) as Hfresh.
    rewrite in_app_iff in Hfresh.
    destruct (eligible img) eqn:El.
    + cbn [batch_images].
      rewrite replace_by_id_middle.
      * change (finished ++ ?c :: ?l) with (finished ++ [c] ++ l).
        rewrite !app_assoc. apply IH.
        rewrite map_app. cbn [map]. now rewrite id_settle.
      * rewrite id_settle. now destruct (Status_eqb _ _).
      * rewrite id_settle. tauto.
      * rewrite id_settle, map_id_mark. tauto.
    + rewrite (mark_not_pending img El).
      change (finished ++ img :: ?l) with (finished ++ [img] ++ l).
      rewrite !app_assoc. apply IH.
      rewrite map_app. exact Hsplit.
Qed.

Lemma handleCompress_run (st : State) (l : list Event) :
  images st <> [] ->
  handleCompress network Number_toString st {| state := st; log := l |}
  = (tt,
     {| state :=
          with_isCompressing
            (with_images (with_isCompressing st true)
               (batch_images st (requests_made l)
                  (filter eligible (images st))
                  (mark_compressing (images st))))
            false;
        log := l ++ batch_log st (requests_made l)
                      (filter eligible (images st)) |}).
Proof.
  intros Hne. unfold handleCompress.
  destruct (images st) as [|i0 rest] eqn:Ei; [congruence|].
  cbn [List.length Nat.eqb]. rewrite <- Ei.
  unfold bind at 1 2 3. unfold setIsCompressing at 1. unfold setImages at 1.
  cbv beta iota. cbn [state log]. rewrite for_of_batch.
  reflexivity.
Qed.

(** The state and the log after a click on the compress button. *)
Lemma click_compress_run (w : World) :
  let base := requests_made (log w) in
  let pendingImages := filter eligible (images (state w)) in
  log (click_compress network Number_toString w)
    = log w ++ batch_log (state w) base pendingImages /\
  images (state (click_compress network Number_toString w))
    = batch_images (state w) base pendingImages
        (mark_compressing (images (state w))).
Proof.
  destruct w as [st l]. cbn [state log]. unfold click_compress. cbn [state log].
  destruct (images st) as [|i0 rest] eqn:Ei.
  - unfold handleCompress. rewrite Ei. cbn. rewrite app_nil_r. now rewrite Ei.
  - rewrite handleCompress_run by congruence. rewrite Ei. cbn. auto.
Qed.




Lemma in_flight_batch_log (snapshot : State) (pending : list ImageFile) :
  forall n k,
    (0 <= in_flight (firstn k (batch_log snapshot n pending)) <= 1)%Z.
Proof.
  induction pending as [|image rest IH]; intros n k.
  - destruct k; cbn; lia.
  - destruct k as [|[|k]]; [cbn; lia | cbn; lia |].
    specialize (IH (S n) k).
    cbn [batch_log firstn]. unfold in_flight in *.
    cbn [filter is_request is_settled List.length]. lia.
Qed.



End ClientProperties.


(** ** The compression ratio *)

(** [n] is the number of hundredths nearest to [m * 2^e], ties upwards:
    [n - 1/2 <= 100 * m * 2^e < n + 1/2]. *)
Definition is_nearest_hundredths (m : positive) (e n : Z) : Prop :=
  (0 <= e -> n = 100 * Zpos m * 2 ^ e)%Z /\
  (e < 0 -> 2 ^ (- e) * (2 * n - 1) <= 200 * Zpos m < 2 ^ (- e) * (2 * n + 1))%Z.

Lemma nearest_hundredths_spec (m : positive) (e : Z) :
  is_nearest_hundredths m e (nearest_hundredths m e).
Proof.
  unfold is_nearest_hundredths, nearest_hundredths. split; intros He.
  - destruct (Z.leb_spec 0 e); [reflexivity|lia].
  - destruct (Z.leb_spec 0 e); [lia|].
    replace (1 - e)%Z with (Z.succ (- e)) by lia.
    rewrite Z.pow_succ_r by lia.
    assert (HD : (0 < 2 ^ (- e))%Z) by (apply Z.pow_pos_nonneg; lia).
    set (D := (2 ^ (- e))%Z) in *.
    pose proof (Z.div_mod (200 * Zpos m + D) (2 * D) ltac:(lia)) as Hdm.
    pose proof (Z.mod_pos_bound (200 * Zpos m + D) (2 * D) ltac:(lia)) as Hb.
    set (n := ((200 * Zpos m + D) / (2 * D))%Z) in *.
    nia.
Qed.

Lemma toFixed2_finite (x : number) (s : bool) (m : positive) (e : Z) :
  Prim2SF x = S754_finite s m e ->
  (PrimFloat.abs x <? 1e21)%float = true ->
  exists n, toFixed2 x = TextDecimal s n /\ is_nearest_hundredths m e n.
Proof.
  intros Hx Hlt. unfold toFixed2. rewrite Hx, Hlt.
  eexists. split; [reflexivity|]. apply nearest_hundredths_spec.
Qed.

Section EndToEnd.

Variable sharp_metadata : list Byte.byte -> option Metadata.
Variable sharp_encode :
  Encoder -> number -> list Byte.byte -> option (list Byte.byte).
Variable base64_encode : list Byte.byte -> string.
Variable parseInt : string -> number.
Variable Number_toString : number -> string.

Let endpoint := POST sharp_metadata sharp_encode base64_encode parseInt.

(** A response with a success status comes from the success path. *)
Lemma POST_ok (formData : FormData) :
  ok (endpoint formData) = true ->
  exists result c, http_body (endpoint formData) = BodyJson result /\
                   json_compressed result = Some c.
Proof.
  subst endpoint. unfold POST, internal_error, error_response.
  destruct (fd_file formData) as [file0|]; [|discriminate].
  destruct (sharp_metadata (file_bytes file0)) as [metadata|];
    [|discriminate].
  destruct (select_encoder _) as [encoder outputFormat0].
  destruct (sharp_encode encoder _ _) as [compressedBuffer|]; [|discriminate].
  destruct (sharp_metadata compressedBuffer) as [compressedMetadata|];
    [|discriminate].
  intros _. cbn. eexists. eexists. split; reflexivity.
Qed.

End EndToEnd.

Definition record_b : ImageFile :=
  nth 1 (images (state two_uploads))
    {| id := ""; file := acc_file upload_b; preview := ""; status := Pending;
       originalSize := 0%float; estimatedSize := None; original := None;
       compressed := None; compressionRatio := None; error := None |}.

(** The ratio of the 24-byte upload compressed to 7 bytes,
    70.8333..., is reported as 70.83. *)
Example compressionRatio_b :
  compressionRatio
    (settle record_b
       (Resolved (sample_POST
                    (request_of sample_toString (state two_uploads) record_b))))
  = Some 70.83%float.
Proof. vm_compute. reflexivity. Qed.

(** * Binary64 arithmetic and the monotonicity of the custom estimate

    The rounding performed by [SpecFloat]'s [binary_round_aux] is related
    to a rounding function on integers, from which the order of products
    and of their [Math.round] follows. *)

Section Binary64.

Local Open Scope Z_scope.

(** Round to nearest, ties to even, of [V / 2^K]. *)
Definition rne (V K : Z) : Z :=
  let q := V / 2 ^ K in
  let rem := V mod 2 ^ K in
  if 2 * rem <? 2 ^ K then q
  else if 2 ^ K <? 2 * rem then q + 1
  else if Z.even q then q else q + 1.

(** Values are scaled by [2^2148]: the product of two binary64 numbers is
    an integer at that scale. *)
Definition scale : Z := 2148.

(** The exponent, at that scale, of the binade of [V]. *)
Definition binade (V : Z) : Z := Z.max (Z.log2 V - 52) 1074.

(** The binary64 rounding of the scaled value [V], before overflow. *)
Definition round64 (V : Z) : Z := rne V (binade V) * 2 ^ binade V.

Lemma rne_bounds (V K : Z) : V / 2 ^ K <= rne V K <= V / 2 ^ K + 1.
Proof.
  unfold rne. destruct (_ <? _); [lia|].
  destruct (_ <? _); [lia|]. destruct (Z.even _); lia.
Qed.

Lemma rne_mono (K V1 V2 : Z) :
  0 <= K -> V1 <= V2 -> rne V1 K <= rne V2 K.
Proof.
  intros HK HV.
  assert (HP : 0 < 2 ^ K) by (apply Z.pow_pos_nonneg; lia).
  pose proof (Z.div_le_mono V1 V2 (2 ^ K) HP HV) as Hq.
  destruct (Z.eq_dec (V1 / 2 ^ K) (V2 / 2 ^ K)) as [E|NE].
  - pose proof (Z.div_mod V1 (2 ^ K) ltac:(lia)) as H1.
    pose proof (Z.div_mod V2 (2 ^ K) ltac:(lia)) as H2.
    assert (Hr : V1 mod 2 ^ K <= V2 mod 2 ^ K) by (rewrite E in H1; lia).
    unfold rne. rewrite E.
    destruct (Z.ltb_spec (2 * (V1 mod 2 ^ K)) (2 ^ K));
      destruct (Z.ltb_spec (2 * (V2 mod 2 ^ K)) (2 ^ K));
      destruct (Z.ltb_spec (2 ^ K) (2 * (V1 mod 2 ^ K)));
      destruct (Z.ltb_spec (2 ^ K) (2 * (V2 mod 2 ^ K)));
      destruct (Z.even (V2 / 2 ^ K)); lia.
  - pose proof (rne_bounds V1 K). pose proof (rne_bounds V2 K). lia.
Qed.

Lemma rne_exact (V K : Z) : 0 <= K -> V mod 2 ^ K = 0 -> rne V K = V / 2 ^ K.
Proof.
  intros HK H0. unfold rne. rewrite H0.
  assert (HP : 0 < 2 ^ K) by (apply Z.pow_pos_nonneg; lia).
  destruct (Z.ltb_spec (2 * 0) (2 ^ K)); lia.
Qed.

Lemma binade_mono (V1 V2 : Z) : 0 < V1 -> V1 <= V2 -> binade V1 <= binade V2.
Proof.
  intros H1 H2. unfold binade.
  pose proof (Z.log2_le_mono V1 V2 H2). lia.
Qed.

Lemma binade_ge (V : Z) : 1074 <= binade V.
Proof. unfold binade. lia. Qed.

(** Below the binade, a quotient has at most 53 bits. *)
Lemma quotient_lt (V : Z) : 0 < V -> V / 2 ^ binade V < 2 ^ 53.
Proof.
  intros HV. pose proof (binade_ge V) as HK.
  apply Z.div_lt_upper_bound; [apply Z.pow_pos_nonneg; lia|].
  rewrite <- Z.pow_add_r by lia.
  destruct (Z.log2_spec V HV) as [_ Hu].
  eapply Z.lt_le_trans; [exact Hu|].
  apply Z.pow_le_mono_r; [lia|]. unfold binade. lia.
Qed.

(** In a normal binade the quotient has exactly 53 bits. *)
Lemma quotient_ge (V : Z) :
  0 < V -> 1074 < binade V -> 2 ^ 52 <= V / 2 ^ binade V.
Proof.
  intros HV HK.
  assert (E : binade V = Z.log2 V - 52) by (unfold binade in *; lia).
  apply Z.div_le_lower_bound; [apply Z.pow_pos_nonneg; lia|].
  rewrite <- Z.pow_add_r by lia.
  destruct (Z.log2_spec V HV) as [Hl _].
  replace (binade V + 52) with (Z.log2 V) by lia. exact Hl.
Qed.

Lemma round64_mono (V1 V2 : Z) :
  0 < V1 -> V1 <= V2 -> round64 V1 <= round64 V2.
Proof.
  intros H1 H2. unfold round64.
  pose proof (binade_mono V1 V2 H1 H2) as HK.
  pose proof (binade_ge V1) as HK1.
  destruct (Z.eq_dec (binade V1) (binade V2)) as [E|NE].
  - rewrite E. apply Z.mul_le_mono_nonneg_r.
    + apply Z.pow_nonneg; lia.
    + apply rne_mono; lia.
  - assert (Hlt : binade V1 < binade V2) by lia.
    pose proof (quotient_lt V1 H1) as Hq1.
    pose proof (quotient_ge V2 ltac:(lia) ltac:(lia)) as Hq2.
    pose proof (rne_bounds V1 (binade V1)) as Hb1.
    pose proof (rne_bounds V2 (binade V2)) as Hb2.
    apply Z.le_trans with (2 ^ 53 * 2 ^ binade V1).
    + apply Z.mul_le_mono_nonneg_r; [apply Z.pow_nonneg; lia|lia].
    + apply Z.le_trans with (2 ^ 52 * 2 ^ binade V2).
      * rewrite <- !Z.pow_add_r by lia. apply Z.pow_le_mono_r; lia.
      * apply Z.mul_le_mono_nonneg_r; [apply Z.pow_nonneg; lia|lia].
Qed.

(** ** The rounding of [SpecFloat], bit by bit *)

Lemma fexp64 (x : Z) : fexp prec emax x = Z.max (x - 53) (-1074).
Proof. reflexivity. Qed.

Lemma digits2_size (p : positive) : digits2_pos p = Pos.size p.
Proof. induction p; cbn; congruence. Qed.

Lemma digits2_log2 (p : positive) :
  Zpos (digits2_pos p) = Z.log2 (Zpos p) + 1.
Proof.
  rewrite digits2_size. destruct p; cbn; lia.
Qed.

Lemma digits2_bounds (p : positive) :
  2 ^ (Zpos (digits2_pos p) - 1) <= Zpos p < 2 ^ Zpos (digits2_pos p).
Proof.
  rewrite digits2_log2.
  pose proof (Z.log2_spec (Zpos p) ltac:(lia)) as H.
  replace (Z.log2 (Zpos p) + 1 - 1) with (Z.log2 (Zpos p)) by lia.
  replace (Z.log2 (Zpos p) + 1) with (Z.succ (Z.log2 (Zpos p))) by lia.
  exact H.
Qed.

Lemma iter_pos_nat {A} (f : A -> A) (p : positive) :
  forall x, iter_pos f p x = Nat.iter (Pos.to_nat p) f x.
Proof.
  induction p as [p IH|p IH|]; intros x; cbn [iter_pos].
  - rewrite !IH, Pos2Nat.inj_xI.
    replace (S (2 * Pos.to_nat p)) with (Pos.to_nat p + S (Pos.to_nat p))%nat
      by lia.
    rewrite Nat.iter_add. f_equal. now rewrite Nat.iter_succ_r.
  - rewrite !IH, Pos2Nat.inj_xO.
    replace (2 * Pos.to_nat p)%nat with (Pos.to_nat p + Pos.to_nat p)%nat
      by lia.
    now rewrite Nat.iter_add.
  - reflexivity.
Qed.

(** The record after [j] right shifts of [M]: the quotient, the bit
    shifted out last and whether any bit below it was set. *)
Definition shifted (M j : Z) (mrs : shr_record) : Prop :=
  0 <= shr_m mrs /\
  exists L,
    0 <= L < 2 ^ j /\
    2 * M = shr_m mrs * 2 ^ (j + 1)
            + (if shr_r mrs then 2 ^ j else 0) + L /\
    (shr_s mrs = true <-> L <> 0).

Lemma shifted_start (M : Z) :
  0 <= M -> shifted M 0 (shr_record_of_loc M loc_Exact).
Proof.
  intros HM. split; [exact HM|]. exists 0.
  cbn [shr_record_of_loc shr_m shr_r shr_s].
  split; [cbn; lia|]. split; [lia|]. split; [discriminate|congruence].
Qed.

Lemma shifted_step (M j : Z) (mrs : shr_record) :
  0 <= j -> shifted M j mrs -> shifted M (j + 1) (shr_1 mrs).
Proof.
  intros Hj [Hm (L & HL & HM & Hs)].
  destruct mrs as [m r s]. cbn [shr_m shr_r shr_s] in *.
  assert (HP : 0 < 2 ^ j) by (apply Z.pow_pos_nonneg; lia).
  assert (E1 : 2 ^ (j + 1) = 2 * 2 ^ j) by (rewrite Z.pow_add_r; lia).
  assert (E2 : 2 ^ (j + 1 + 1) = 4 * 2 ^ j)
    by (rewrite !Z.pow_add_r; lia).
  assert (Hs' : orb r s = true <-> (if r then 2 ^ j else 0) + L <> 0).
  { destruct r; cbn [orb].
    - split; [intros _; lia|reflexivity].
    - rewrite Hs. split; intros H; lia. }
  destruct m as [|p|p]; [| |exfalso; lia]; [|destruct p as [p|p|]];
    cbn [shr_1 shr_m shr_r shr_s];
    (split; cbn [shr_m shr_r shr_s]; [lia|]);
    exists ((if r then 2 ^ j else 0) + L); rewrite E1, E2;
    (split; [destruct r; lia|]); (split; [|exact Hs']);
    destruct r; lia.
Qed.

Lemma shifted_iter (M : Z) (n : nat) :
  0 <= M ->
  shifted M (Z.of_nat n) (Nat.iter n shr_1 (shr_record_of_loc M loc_Exact)).
Proof.
  intros HM. induction n as [|n IH].
  - now apply shifted_start.
  - rewrite Nat2Z.inj_succ. cbn [Nat.iter].
    replace (Z.succ (Z.of_nat n)) with (Z.of_nat n + 1) by lia.
    apply shifted_step; [lia|exact IH].
Qed.

(** Rounding the shifted record to nearest even is [rne]. *)
Lemma shifted_rne (M j : Z) (mrs : shr_record) :
  0 <= j -> shifted M j mrs ->
  round_nearest_even (shr_m mrs) (loc_of_shr_record mrs) = rne M j.
Proof.
  intros Hj [Hm (L & HL & HM & Hs)].
  destruct mrs as [m r s]. cbn [shr_m shr_r shr_s] in *.
  assert (HP : 0 < 2 ^ j) by (apply Z.pow_pos_nonneg; lia).
  assert (E1 : 2 ^ (j + 1) = 2 * 2 ^ j) by (rewrite Z.pow_add_r; lia).
  rewrite E1 in HM.
  set (rem := M - m * 2 ^ j).
  assert (Hrem : 2 * rem = (if r then 2 ^ j else 0) + L) by (subst rem; lia).
  assert (Hq : M / 2 ^ j = m).
  { symmetry. apply (Z.div_unique M (2 ^ j) m rem).
    - left. destruct r; lia.
    - subst rem; lia. }
  assert (Hr : M mod 2 ^ j = rem).
  { symmetry. apply (Z.mod_unique M (2 ^ j) m rem).
    - left. destruct r; lia.
    - subst rem; lia. }
  unfold rne. rewrite Hq, Hr.
  destruct r, s; cbn [loc_of_shr_record round_nearest_even].
  - assert (L <> 0) by (apply Hs; reflexivity).
    destruct (Z.ltb_spec (2 * rem) (2 ^ j)); [lia|].
    destruct (Z.ltb_spec (2 ^ j) (2 * rem)); [reflexivity|lia].
  - assert (L = 0).
    { destruct (Z.eq_dec L 0); [assumption|].
      assert (false = true) by (apply Hs; assumption). discriminate. }
    destruct (Z.ltb_spec (2 * rem) (2 ^ j)); [lia|].
    destruct (Z.ltb_spec (2 ^ j) (2 * rem)); [lia|reflexivity].
  - destruct (Z.ltb_spec (2 * rem) (2 ^ j)); [reflexivity|lia].
  - destruct (Z.ltb_spec (2 * rem) (2 ^ j)); [reflexivity|lia].
Qed.

(** The first half of [binary_round_aux]. *)
Lemma shr_fexp_rne (m : positive) (e : Z) :
  let E := fexp prec emax (Zpos (digits2_pos m) + e) in
  e <= E ->
  let '(mrs, e') := shr_fexp prec emax (Zpos m) e loc_Exact in
  e' = E /\
  round_nearest_even (shr_m mrs) (loc_of_shr_record mrs)
  = rne (Zpos m) (E - e).
Proof.
  intros E HE. unfold shr_fexp. cbn [Zdigits2]. fold E.
  destruct (E - e) as [|k|k] eqn:Ek; try lia; cbn [shr].
  - split; [lia|]. cbn [shr_record_of_loc shr_m loc_of_shr_record
                        round_nearest_even].
    rewrite rne_exact; cbn; [now rewrite Z.div_1_r|lia|apply Z.mod_1_r].
  - split; [lia|]. rewrite iter_pos_nat.
    apply shifted_rne; [lia|].
    rewrite <- (positive_nat_Z k). apply shifted_iter. lia.
Qed.

(** ** Non-negative numbers and their scaled values *)

(** The value of a non-negative number, scaled by [2^scale]; the infinity
    is placed just above the finite numbers. *)
Definition sval (y : spec_float) : Z :=
  match y with
  | S754_zero _ => 0
  | S754_finite _ m e => Zpos m * 2 ^ (e + scale)
  | S754_infinity _ => 2 ^ (1024 + scale)
  | S754_nan => -1
  end.

(** A valid number that is a zero, positive or plus infinity. *)
Definition nonneg (y : spec_float) : bool :=
  match y with
  | S754_zero _ => true
  | S754_finite s m e => negb s && bounded prec emax m e
  | S754_infinity s => negb s
  | S754_nan => false
  end.

Lemma bounded_inv (m : positive) (e : Z) :
  bounded prec emax m e = true ->
  -1074 <= e <= 971 /\
  Zpos (digits2_pos m) <= 53 /\
  (-1074 < e -> Zpos (digits2_pos m) = 53).
Proof.
  unfold bounded, canonical_mantissa. rewrite fexp64.
  intros H. apply andb_prop in H. destruct H as [H1 H2].
  apply Z.eqb_eq in H1. apply Z.leb_le in H2.
  change (emax - prec) with 971 in H2. lia.
Qed.

Lemma bounded_intro (m : positive) (e : Z) :
  -1074 <= e <= 971 ->
  Zpos (digits2_pos m) <= 53 ->
  (-1074 < e -> Zpos (digits2_pos m) = 53) ->
  bounded prec emax m e = true.
Proof.
  intros He Hd Hn. unfold bounded, canonical_mantissa. rewrite fexp64.
  apply andb_true_intro. split.
  - apply Z.eqb_eq. lia.
  - apply Z.leb_le. change (emax - prec) with 971. lia.
Qed.

Lemma digits_le (p : positive) (n : Z) :
  0 <= n -> Zpos p < 2 ^ n -> Zpos (digits2_pos p) <= n.
Proof.
  intros Hn Hp. destruct (digits2_bounds p) as [Hl _].
  destruct (Z_le_gt_dec (Zpos (digits2_pos p)) n) as [|Hgt]; [assumption|].
  exfalso.
  assert (2 ^ n <= 2 ^ (Zpos (digits2_pos p) - 1))
    by (apply Z.pow_le_mono_r; lia).
  lia.
Qed.

Lemma digits_ge (p : positive) (n : Z) :
  0 <= n -> 2 ^ n <= Zpos p -> n + 1 <= Zpos (digits2_pos p).
Proof.
  intros Hn Hp. destruct (digits2_bounds p) as [_ Hu].
  destruct (Z_le_gt_dec (n + 1) (Zpos (digits2_pos p))) as [|Hgt];
    [assumption|].
  exfalso.
  assert (2 ^ Zpos (digits2_pos p) <= 2 ^ n)
    by (apply Z.pow_le_mono_r; lia).
  lia.
Qed.

Lemma sval_finite_lt (s : bool) (m : positive) (e : Z) :
  bounded prec emax m e = true ->
  0 < sval (S754_finite s m e) < 2 ^ (1024 + scale).
Proof.
  intros Hb. destruct (bounded_inv m e Hb) as (He & Hd & _).
  cbn [sval]. unfold scale in *.
  assert (HP : 0 < 2 ^ (e + 2148)) by (apply Z.pow_pos_nonneg; lia).
  split; [lia|].
  destruct (digits2_bounds m) as [_ Hu].
  apply Z.lt_le_trans with (2 ^ 53 * 2 ^ (e + 2148)).
  - apply Z.mul_lt_mono_pos_r; [exact HP|].
    eapply Z.lt_le_trans; [exact Hu|]. apply Z.pow_le_mono_r; lia.
  - rewrite <- Z.pow_add_r by lia. apply Z.pow_le_mono_r; lia.
Qed.

(** On non-negative numbers the order of [SFleb] is the order of the
    values. *)
Lemma SFleb_sval (y1 y2 : spec_float) :
  nonneg y1 = true -> nonneg y2 = true ->
  sval y1 <= sval y2 -> SFleb y1 y2 = true.
Proof.
  intros H1 H2 Hv.
  destruct y1 as [s1|s1| |s1 m1 e1], y2 as [s2|s2| |s2 m2 e2];
    cbn [nonneg] in H1, H2; try discriminate;
    try (destruct s1; try discriminate); try (destruct s2; try discriminate);
    try reflexivity.
  - (* infinity <= zero *)
    exfalso. cbn [sval] in Hv.
    assert (0 < 2 ^ (1024 + scale)) by (apply Z.pow_pos_nonneg; unfold scale; lia).
    lia.
  - exfalso. cbn [sval] in Hv.
    assert (0 < 2 ^ (1024 + scale)) by (apply Z.pow_pos_nonneg; unfold scale; lia).
    lia.
  - (* infinity <= finite *)
    exfalso. pose proof (sval_finite_lt false m2 e2 H2). cbn [sval] in *. lia.
  - (* finite <= zero *)
    exfalso. pose proof (sval_finite_lt false m1 e1 H1). cbn [sval] in *. lia.
  - exfalso. pose proof (sval_finite_lt false m1 e1 H1). cbn [sval] in *. lia.
  - (* finite <= finite *)
    cbn [negb andb] in H1, H2.
    destruct (bounded_inv m1 e1 H1) as (He1 & Hd1 & Hn1).
    destruct (bounded_inv m2 e2 H2) as (He2 & Hd2 & Hn2).
    cbn [sval] in Hv. unfold scale in Hv.
    unfold SFleb, SFcompare.
    destruct (Z.compare_spec e1 e2) as [E|E|E]; [|reflexivity|].
    + subst e2.
      assert (HP : 0 < 2 ^ (e1 + 2148)) by (apply Z.pow_pos_nonneg; lia).
      assert (Hm : Zpos m1 <= Zpos m2) by nia.
      rewrite Pos.compare_cont_spec. cbn [Pos.switch_Eq].
      destruct (Pos.compare_spec m1 m2); try reflexivity. lia.
    + exfalso.
      assert (Hd : Zpos (digits2_pos m1) = 53) by (apply Hn1; lia).
      destruct (digits2_bounds m1) as [Hl1 _]. rewrite Hd in Hl1.
      destruct (digits2_bounds m2) as [_ Hu2].
      assert (Hm2 : Zpos m2 < 2 ^ 53).
      { eapply Z.lt_le_trans; [exact Hu2|]. apply Z.pow_le_mono_r; lia. }
      assert (HP2 : 0 < 2 ^ (e2 + 2148)) by (apply Z.pow_pos_nonneg; lia).
      assert (E12 : 2 ^ (e1 + 2148) = 2 ^ (e1 - e2) * 2 ^ (e2 + 2148)).
      { rewrite <- Z.pow_add_r by lia. f_equal. lia. }
      assert (Hp : 2 <= 2 ^ (e1 - e2)).
      { change 2 with (2 ^ 1) at 1. apply Z.pow_le_mono_r; lia. }
      rewrite E12 in Hv. change (53 - 1) with 52 in Hl1.
      nia.
Qed.

Lemma rne_scale (M k a : Z) :
  0 <= k -> 0 <= a -> rne (M * 2 ^ a) (k + a) = rne M k.
Proof.
  intros Hk Ha.
  assert (HPk : 0 < 2 ^ k) by (apply Z.pow_pos_nonneg; lia).
  assert (HPa : 0 < 2 ^ a) by (apply Z.pow_pos_nonneg; lia).
  unfold rne. rewrite Z.pow_add_r by lia.
  rewrite Z.div_mul_cancel_r by lia.
  rewrite Z.mul_mod_distr_r by lia.
  set (r := M mod 2 ^ k).
  assert (H1 : (2 * (r * 2 ^ a) <? 2 ^ k * 2 ^ a) = (2 * r <? 2 ^ k)).
  { destruct (Z.ltb_spec (2 * (r * 2 ^ a)) (2 ^ k * 2 ^ a));
      destruct (Z.ltb_spec (2 * r) (2 ^ k)); try reflexivity; nia. }
  assert (H2 : (2 ^ k * 2 ^ a <? 2 * (r * 2 ^ a)) = (2 ^ k <? 2 * r)).
  { destruct (Z.ltb_spec (2 ^ k * 2 ^ a) (2 * (r * 2 ^ a)));
      destruct (Z.ltb_spec (2 ^ k) (2 * r)); try reflexivity; nia. }
  now rewrite H1, H2.
Qed.

Lemma binade_scaled (m : positive) (e : Z) :
  - scale <= e ->
  binade (Zpos m * 2 ^ (e + scale))
  = fexp prec emax (Zpos (digits2_pos m) + e) + scale.
Proof.
  intros He. unfold binade. rewrite fexp64, digits2_log2.
  rewrite Z.log2_mul_pow2 by (unfold scale in *; lia).
  unfold scale in *. lia.
Qed.

(** [binary_round_aux] on an exact positive value whose mantissa needs no
    shift to the left: the result is a valid non-negative number, and its
    value is the rounding of the scaled value, capped at the infinity. *)
Lemma binary_round_aux_correct (m : positive) (e : Z) :
  e <= fexp prec emax (Zpos (digits2_pos m) + e) ->
  - scale <= e ->
  let y := binary_round_aux prec emax false (Zpos m) e loc_Exact in
  nonneg y = true /\
  sval y = Z.min (round64 (Zpos m * 2 ^ (e + scale))) (2 ^ (1024 + scale)).
Proof.
  intros HE He y. subst y.
  set (E := fexp prec emax (Zpos (digits2_pos m) + e)) in *.
  set (V := Zpos m * 2 ^ (e + scale)).
  assert (HV : 0 < V).
  { subst V. apply Z.mul_pos_pos; [lia|].
    apply Z.pow_pos_nonneg; unfold scale in *; lia. }
  assert (HEmin : -1074 <= E) by (subst E; rewrite fexp64; lia).
  assert (HK : binade V = E + scale) by (apply binade_scaled; exact He).
  assert (Hrne : rne V (binade V) = rne (Zpos m) (E - e)).
  { rewrite HK. subst V.
    replace (E + scale) with ((E - e) + (e + scale)) by lia.
    apply rne_scale; unfold scale in *; lia. }
  assert (Hround : round64 V = rne (Zpos m) (E - e) * 2 ^ (E + scale)).
  { unfold round64. now rewrite Hrne, HK. }
  pose proof (rne_bounds V (binade V)) as Hb. rewrite Hrne, HK in Hb.
  pose proof (quotient_lt V HV) as Hq. rewrite HK in Hq.
  assert (Hnormal : -1074 < E -> 2 ^ 52 <= rne (Zpos m) (E - e)).
  { intros Hn. pose proof (quotient_ge V HV) as Hg.
    rewrite HK in Hg. specialize (Hg ltac:(unfold scale; lia)). lia. }
  assert (Hpos : 0 <= V / 2 ^ (E + scale)).
  { apply Z.div_pos; [lia|]. apply Z.pow_pos_nonneg; unfold scale; lia. }
  pose proof (shr_fexp_rne m e HE) as Hshr. fold E in Hshr.
  unfold binary_round_aux.
  destruct (shr_fexp prec emax (Zpos m) e loc_Exact) as [mrs e'].
  destruct Hshr as [-> Hmr]. rewrite Hmr. rewrite Hround.
  set (mr := rne (Zpos m) (E - e)) in *.
  assert (HPE : 0 < 2 ^ (E + scale))
    by (apply Z.pow_pos_nonneg; unfold scale; lia).
  destruct mr as [|p|p] eqn:Emr; [| |lia].
  - (* the value rounds to zero *)
    assert (0 < 2 ^ (1024 + scale))
      by (apply Z.pow_pos_nonneg; unfold scale; lia).
    unfold shr_fexp. cbn [Zdigits2]. rewrite fexp64.
    destruct (Z.max (0 + E - 53) (-1074) - E) as [|k2|k2] eqn:Ek2; [| lia |];
      cbn [shr shr_record_of_loc shr_m nonneg sval]; (split; [reflexivity|lia]).
  - destruct (Z.eq_dec (Zpos p) (2 ^ 53)) as [Ecarry|Hlt].
    + (* the mantissa overflows into the next binade *)
      assert (Ep : p = 9007199254740992%positive) by (cbv in Ecarry; congruence).
      subst p. unfold shr_fexp. cbn [Zdigits2].
      change (Zpos (digits2_pos 9007199254740992)) with 54.
      rewrite fexp64.
      replace (Z.max (54 + E - 53) (-1074) - E) with 1 by lia.
      cbn [shr iter_pos shr_record_of_loc shr_1 shr_m].
      change (emax - prec) with 971.
      destruct (Z.leb_spec (E + 1) 971) as [Hfin|Hinf].
      * split.
        -- cbn [nonneg negb andb]. apply bounded_intro; try lia.
           ++ change (Zpos (digits2_pos 4503599627370496)) with 53. lia.
           ++ intros _. reflexivity.
        -- cbn [sval].
           replace (E + 1 + scale) with (1 + (E + scale)) by lia.
           rewrite Z.pow_add_r by (unfold scale; lia).
           change (2 ^ 1) with 2.
           assert (Hcap : 2 ^ 53 * 2 ^ (E + scale) < 2 ^ (1024 + scale)).
           { rewrite <- Z.pow_add_r by (unfold scale; lia).
             apply Z.pow_lt_mono_r; unfold scale; lia. }
           change (Zpos 9007199254740992) with (2 ^ 53).
           change (Zpos 4503599627370496) with (2 ^ 52).
           change (2 ^ 53) with (2 * 2 ^ 52) in *. lia.
      * split; [reflexivity|]. cbn [sval].
        assert (Hcap : 2 ^ (1024 + scale) <= 2 ^ 53 * 2 ^ (E + scale)).
        { rewrite <- Z.pow_add_r by (unfold scale; lia).
          apply Z.pow_le_mono_r; unfold scale; lia. }
        change (Zpos 9007199254740992) with (2 ^ 53). lia.
    + (* the mantissa fits *)
      assert (Hp53 : Zpos p < 2 ^ 53) by lia.
      pose proof (digits_le p 53 ltac:(lia) Hp53) as Hd.
      unfold shr_fexp. cbn [Zdigits2]. rewrite fexp64.
      assert (Hk2 : Z.max (Zpos (digits2_pos p) + E - 53) (-1074) - E <= 0)
        by lia.
      destruct (Z.max (Zpos (digits2_pos p) + E - 53) (-1074) - E)
        as [|k2|k2] eqn:Ek2; [| lia |];
        cbn [shr shr_record_of_loc shr_m];
        change (emax - prec) with 971;
        (destruct (Z.leb_spec E 971) as [Hfin|Hinf];
         [ split;
           [ cbn [nonneg negb andb]; apply bounded_intro; try lia;
             intros Hn; specialize (Hnormal Hn);
             pose proof (digits_ge p 52 ltac:(lia) Hnormal); lia
           | cbn [sval];
             assert (Hcap : Zpos p * 2 ^ (E + scale) < 2 ^ (1024 + scale));
             [ apply Z.lt_le_trans with (2 ^ 53 * 2 ^ (E + scale));
               [ apply Z.mul_lt_mono_pos_r; assumption
               | rewrite <- Z.pow_add_r by (unfold scale; lia);
                 apply Z.pow_le_mono_r; unfold scale; lia ]
             | lia ] ]
         | split; [reflexivity|]; cbn [sval];
           specialize (Hnormal ltac:(lia));
           assert (Hcap : 2 ^ (1024 + scale) <= Zpos p * 2 ^ (E + scale));
           [ apply Z.le_trans with (2 ^ 52 * 2 ^ (E + scale));
             [ rewrite <- Z.pow_add_r by (unfold scale; lia);
               apply Z.pow_le_mono_r; unfold scale; lia
             | apply Z.mul_le_mono_nonneg_r; lia ]
           | lia ] ]).
Qed.

(** ** Products, [Math.round] and the order of the results *)

Lemma nonneg_valid (y : spec_float) :
  nonneg y = true -> valid_binary y = true.
Proof.
  destruct y as [s|s| |s m e]; cbn; try reflexivity; try discriminate.
  intros H. apply andb_prop in H. tauto.
Qed.

Lemma round64_exact (V : Z) :
  0 < V -> V mod 2 ^ binade V = 0 -> round64 V = V.
Proof.
  intros HV H0. unfold round64.
  pose proof (binade_ge V) as HK.
  rewrite rne_exact by (lia || exact H0).
  assert (HP : 0 < 2 ^ binade V) by (apply Z.pow_pos_nonneg; lia).
  pose proof (Z.div_mod V (2 ^ binade V) ltac:(lia)). lia.
Qed.

(** The product of a non-negative finite number and a positive normal
    one. *)
Lemma SFmul_value (mx mf : positive) (ex ef : Z) :
  bounded prec emax mx ex = true ->
  bounded prec emax mf ef = true ->
  Zpos (digits2_pos mf) = 53 ->
  let y := SFmul prec emax (S754_finite false mx ex) (S754_finite false mf ef) in
  nonneg y = true /\
  sval y = Z.min (round64 (Zpos (mx * mf) * 2 ^ (ex + ef + scale)))
             (2 ^ (1024 + scale)).
Proof.
  intros Hx Hf Hd y. subst y. cbn [SFmul xorb].
  destruct (bounded_inv mx ex Hx) as (Hex & _).
  destruct (bounded_inv mf ef Hf) as (Hef & _).
  apply binary_round_aux_correct; [|unfold scale; lia].
  rewrite fexp64.
  destruct (digits2_bounds mf) as [Hl _]. rewrite Hd in Hl.
  change (53 - 1) with 52 in Hl.
  assert (Hp : 2 ^ 52 <= Zpos (mx * mf)) by (rewrite Pos2Z.inj_mul; nia).
  pose proof (digits_ge (mx * mf) 52 ltac:(lia) Hp). lia.
Qed.

Lemma SFmul_mono (mx mf1 mf2 : positive) (ex ef1 ef2 : Z) :
  bounded prec emax mx ex = true ->
  bounded prec emax mf1 ef1 = true -> Zpos (digits2_pos mf1) = 53 ->
  bounded prec emax mf2 ef2 = true -> Zpos (digits2_pos mf2) = 53 ->
  Zpos mf1 * 2 ^ (ef1 + 1074) <= Zpos mf2 * 2 ^ (ef2 + 1074) ->
  let y1 := SFmul prec emax (S754_finite false mx ex) (S754_finite false mf1 ef1) in
  let y2 := SFmul prec emax (S754_finite false mx ex) (S754_finite false mf2 ef2) in
  nonneg y1 = true /\ nonneg y2 = true /\ sval y1 <= sval y2.
Proof.
  intros Hx Hf1 Hd1 Hf2 Hd2 Hle y1 y2.
  destruct (SFmul_value mx mf1 ex ef1 Hx Hf1 Hd1) as [Hn1 Hv1].
  destruct (SFmul_value mx mf2 ex ef2 Hx Hf2 Hd2) as [Hn2 Hv2].
  fold y1 in Hn1, Hv1. fold y2 in Hn2, Hv2.
  split; [exact Hn1|]. split; [exact Hn2|].
  rewrite Hv1, Hv2.
  destruct (bounded_inv mx ex Hx) as (Hex & _).
  destruct (bounded_inv mf1 ef1 Hf1) as (Hef1 & _).
  destruct (bounded_inv mf2 ef2 Hf2) as (Hef2 & _).
  apply Z.min_le_compat_r. apply round64_mono.
  - apply Z.mul_pos_pos; [lia|]. apply Z.pow_pos_nonneg; unfold scale; lia.
  - assert (Hsplit : forall ef, -1074 <= ef ->
              2 ^ (ex + ef + scale) = 2 ^ (ex + 1074) * 2 ^ (ef + 1074)).
    { intros ef Hef. rewrite <- Z.pow_add_r by lia. f_equal.
      unfold scale. lia. }
    rewrite (Hsplit ef1), (Hsplit ef2) by lia. rewrite !Pos2Z.inj_mul.
    assert (0 < 2 ^ (ex + 1074)) by (apply Z.pow_pos_nonneg; lia).
    nia.
Qed.

(** The integer [n], below [2^53], as a number. *)
Lemma binary_normalize_value (n : positive) :
  Zpos n < 2 ^ 53 ->
  let y := binary_normalize prec emax (Zpos n) 0 false in
  nonneg y = true /\ sval y = Zpos n * 2 ^ scale.
Proof.
  intros Hn y. subst y. cbn [binary_normalize]. unfold binary_round.
  pose proof (digits_le n 53 ltac:(lia) Hn) as Hd.
  assert (Hd1 : 1 <= Zpos (digits2_pos n)) by lia.
  rewrite fexp64. rewrite Z.add_0_r.
  replace (Z.max (Zpos (digits2_pos n) - 53) (-1074))
    with (Zpos (digits2_pos n) - 53) by lia.
  unfold shl_align. rewrite Z.sub_0_r.
  destruct (Zpos (digits2_pos n) - 53) as [|k|k] eqn:Ek; [|lia|].
  - (* 53 bits already *)
    assert (Hc := binary_round_aux_correct n 0).
    rewrite fexp64 in Hc. specialize (Hc ltac:(lia) ltac:(unfold scale; lia)).
    destruct Hc as [Hc1 Hc2]. split; [exact Hc1|]. rewrite Hc2.
    rewrite Z.add_0_l. rewrite round64_exact.
    + apply Z.min_l.
      apply Z.le_trans with (2 ^ 53 * 2 ^ scale).
      * apply Z.mul_le_mono_nonneg_r; [apply Z.pow_nonneg|]; lia.
      * rewrite <- Z.pow_add_r by (unfold scale; lia).
        apply Z.pow_le_mono_r; unfold scale; lia.
    + apply Z.mul_pos_pos; [lia|]. apply Z.pow_pos_nonneg; unfold scale; lia.
    + pose proof (binade_scaled n 0 ltac:(unfold scale; lia)) as Hb.
      rewrite Z.add_0_l in Hb. rewrite Hb, fexp64.
      replace (Z.max (Zpos (digits2_pos n) + 0 - 53) (-1074) + scale)
        with scale by lia.
      apply Z.mod_mul. apply Z.pow_nonzero; unfold scale; lia.
  - (* shifted left to 53 bits *)
    set (mz := Pos.iter xO n k).
    assert (Hmz : Zpos mz = Zpos n * 2 ^ Zpos k).
    { subst mz. change (Pos.iter xO n k) with (shift_pos k n).
      rewrite shift_pos_correct.
      rewrite <- Z.pow_pos_fold. lia. }
    assert (Hdz : Zpos (digits2_pos mz) = 53).
    { rewrite digits2_log2, Hmz, Z.log2_mul_pow2 by lia.
      rewrite digits2_log2 in Ek. lia. }
    assert (Hc := binary_round_aux_correct mz (Zneg k)).
    rewrite fexp64, Hdz in Hc.
    specialize (Hc ltac:(lia) ltac:(unfold scale; lia)).
    destruct Hc as [Hc1 Hc2]. split; [exact Hc1|]. rewrite Hc2.
    assert (HV : Zpos mz * 2 ^ (Zneg k + scale) = Zpos n * 2 ^ scale).
    { rewrite Hmz, <- Z.mul_assoc, <- Z.pow_add_r by (unfold scale; lia).
      f_equal. f_equal. lia. }
    rewrite round64_exact.
    + rewrite HV. apply Z.min_l.
      apply Z.le_trans with (2 ^ 53 * 2 ^ scale).
      * apply Z.mul_le_mono_nonneg_r; [apply Z.pow_nonneg|]; lia.
      * rewrite <- Z.pow_add_r by (unfold scale; lia).
        apply Z.pow_le_mono_r; unfold scale; lia.
    + apply Z.mul_pos_pos; [lia|]. apply Z.pow_pos_nonneg; unfold scale; lia.
    + pose proof (binade_scaled mz (Zneg k) ltac:(unfold scale; lia)) as Hb.
      rewrite Hb, fexp64, Hdz.
      replace (Z.max (53 + Zneg k - 53) (-1074) + scale)
        with (Zneg k + scale) by lia.
      apply Z.mod_mul. apply Z.pow_nonzero; unfold scale; lia.
Qed.

(** [Math.round] on scaled values: the nearest multiple of [2^scale],
    ties upwards. *)
Definition round_scaled (v : Z) : Z :=
  (2 * v + 2 ^ scale) / (2 * 2 ^ scale) * 2 ^ scale.

Lemma round_scaled_mono (v1 v2 : Z) :
  v1 <= v2 -> round_scaled v1 <= round_scaled v2.
Proof.
  intros Hv. unfold round_scaled.
  assert (HT : 0 < 2 ^ scale) by (apply Z.pow_pos_nonneg; unfold scale; lia).
  apply Z.mul_le_mono_nonneg_r; [lia|].
  apply Z.div_le_mono; lia.
Qed.

Lemma round_scaled_multiple (a : Z) :
  round_scaled (a * 2 ^ scale) = a * 2 ^ scale.
Proof.
  unfold round_scaled.
  assert (HT : 0 < 2 ^ scale) by (apply Z.pow_pos_nonneg; unfold scale; lia).
  replace (2 * (a * 2 ^ scale) + 2 ^ scale) with ((2 * a + 1) * 2 ^ scale)
    by lia.
  rewrite Z.div_mul_cancel_r by lia.
  f_equal. symmetry. apply (Z.div_unique (2 * a + 1) 2 a 1); lia.
Qed.

Lemma round_half_up_scaled (m : positive) (e : Z) :
  - scale <= e < 0 ->
  round_half_up false m e
  = (2 * (Zpos m * 2 ^ (e + scale)) + 2 ^ scale) / (2 * 2 ^ scale).
Proof.
  intros He. unfold round_half_up. cbn [cond_Zopp].
  assert (HP : 0 < 2 ^ (e + scale)) by (apply Z.pow_pos_nonneg; lia).
  assert (E1 : 2 ^ scale = 2 ^ (- e) * 2 ^ (e + scale)).
  { rewrite <- Z.pow_add_r by lia. f_equal. lia. }
  assert (E2 : 2 ^ (1 - e) = 2 * 2 ^ (- e)).
  { replace (1 - e) with (1 + - e) by lia.
    rewrite Z.pow_add_r by lia. reflexivity. }
  assert (HPe : 0 < 2 ^ (- e)) by (apply Z.pow_pos_nonneg; lia).
  rewrite E2.
  assert (EA : 2 * (Zpos m * 2 ^ (e + scale)) + 2 ^ scale
               = (2 * Zpos m + 2 ^ (- e)) * 2 ^ (e + scale))
    by (rewrite E1; ring).
  assert (EB : 2 * 2 ^ scale = 2 * 2 ^ (- e) * 2 ^ (e + scale))
    by (rewrite E1; ring).
  rewrite EA, EB.
  rewrite Z.div_mul_cancel_r by lia. reflexivity.
Qed.

Lemma round_half_up_small (m : positive) (e : Z) :
  Zpos m < 2 ^ 53 -> e < 0 ->
  0 <= round_half_up false m e < 2 ^ 53.
Proof.
  intros Hm He. unfold round_half_up. cbn [cond_Zopp].
  assert (HPe : 2 <= 2 ^ (- e)).
  { change 2 with (2 ^ 1) at 1. apply Z.pow_le_mono_r; lia. }
  assert (E2 : 2 ^ (1 - e) = 2 * 2 ^ (- e)).
  { replace (1 - e) with (1 + - e) by lia.
    rewrite Z.pow_add_r by lia. reflexivity. }
  rewrite E2. split.
  - apply Z.div_pos; lia.
  - apply Z.div_lt_upper_bound; [lia|]. nia.
Qed.

(** [Math.round] keeps a non-negative number non-negative and acts on its
    value as [round_scaled]. *)
Lemma Math_round_value (y : number) :
  nonneg (Prim2SF y) = true ->
  nonneg (Prim2SF (Math_round y)) = true /\
  sval (Prim2SF (Math_round y)) = round_scaled (sval (Prim2SF y)).
Proof.
  intros Hy. unfold Math_round.
  destruct (Prim2SF y) as [s|s| |s m e] eqn:Ey; cbn [nonneg] in Hy.
  - rewrite Ey. split; [reflexivity|]. cbn [sval].
    exact (eq_sym (round_scaled_multiple 0)).
  - rewrite Ey. split; [exact Hy|]. cbn [sval].
    rewrite Z.pow_add_r by (unfold scale; lia).
    now rewrite round_scaled_multiple.
  - discriminate.
  - apply andb_prop in Hy. destruct Hy as [Hs Hb].
    destruct s; [discriminate|].
    destruct (bounded_inv m e Hb) as (He & Hd & _).
    destruct (Z.leb_spec 0 e) as [Hpos|Hneg].
    + rewrite Ey. split; [cbn [nonneg negb andb]; exact Hb|]. cbn [sval].
      rewrite Z.pow_add_r by (unfold scale; lia).
      rewrite Z.mul_assoc. now rewrite round_scaled_multiple.
    + assert (Hm : Zpos m < 2 ^ 53).
      { destruct (digits2_bounds m) as [_ Hu].
        eapply Z.lt_le_trans; [exact Hu|]. apply Z.pow_le_mono_r; lia. }
      pose proof (round_half_up_small m e Hm Hneg) as Hn.
      pose proof (round_half_up_scaled m e ltac:(unfold scale; lia)) as En.
      cbn [sval]. unfold round_scaled. rewrite <- En.
      destruct (round_half_up false m e) as [|n|n] eqn:Er; [| |lia].
      * cbn [Z.eqb]. rewrite Prim2SF_SF2Prim by reflexivity.
        split; reflexivity.
      * cbn [Z.eqb]. unfold of_Z.
        destruct (binary_normalize_value n ltac:(lia)) as [Hv1 Hv2].
        rewrite Prim2SF_SF2Prim by (apply nonneg_valid; exact Hv1).
        split; [exact Hv1|exact Hv2].
Qed.

Lemma sval_nonneg (y : spec_float) : nonneg y = true -> 0 <= sval y.
Proof.
  destruct y as [s|s| |s m e]; cbn [nonneg sval]; intros H.
  - lia.
  - apply Z.pow_nonneg. lia.
  - discriminate.
  - apply andb_prop in H. destruct H as [_ H].
    pose proof (sval_finite_lt s m e H) as Hv. cbn [sval] in Hv. lia.
Qed.

(** Every positive integer converts to a valid non-negative number. *)
Lemma binary_normalize_nonneg (n : positive) :
  nonneg (binary_normalize prec emax (Zpos n) 0 false) = true.
Proof.
  cbn [binary_normalize]. unfold binary_round, shl_align.
  rewrite fexp64, Z.add_0_r, Z.sub_0_r.
  assert (Hd1 : 1 <= Zpos (digits2_pos n)) by lia.
  destruct (Z.max (Zpos (digits2_pos n) - 53) (-1074)) as [|k|k] eqn:Ek.
  - apply binary_round_aux_correct; [rewrite fexp64|unfold scale]; lia.
  - apply binary_round_aux_correct; [rewrite fexp64|unfold scale]; lia.
  - set (mz := Pos.iter xO n k).
    assert (Hmz : Zpos mz = Zpos n * 2 ^ Zpos k).
    { subst mz. change (Pos.iter xO n k) with (shift_pos k n).
      rewrite shift_pos_correct.
      rewrite <- Z.pow_pos_fold. lia. }
    assert (Hdz : Zpos (digits2_pos mz) = 53).
    { rewrite digits2_log2, Hmz, Z.log2_mul_pow2 by lia.
      rewrite digits2_log2 in Ek, Hd1. lia. }
    apply binary_round_aux_correct; [rewrite fexp64, Hdz|unfold scale]; lia.
Qed.

(** A number that is not below zero is a valid non-negative number. *)
Lemma nonneg_of_leb (x : number) :
  (0 <=? x)%float = true -> nonneg (Prim2SF x) = true.
Proof.
  intros Hx. rewrite leb_spec in Hx.
  pose proof (Prim2SF_valid x) as Hv.
  change (Prim2SF 0%float) with (S754_zero false) in Hx.
  destruct (Prim2SF x) as [s|s| |s m e]; cbn in *; try reflexivity;
    try discriminate; destruct s; try discriminate; try reflexivity.
  exact Hv.
Qed.

(** The size of a file, a non-negative integer, is such a number. *)
Lemma of_Z_nonneg (n : Z) : 0 <= n -> (0 <=? of_Z n)%float = true.
Proof.
  intros Hn. rewrite leb_spec. unfold of_Z.
  change (Prim2SF 0%float) with (S754_zero false).
  destruct n as [|p|p]; [vm_compute; reflexivity| |lia].
  pose proof (binary_normalize_nonneg p) as Hy.
  rewrite Prim2SF_SF2Prim by (apply nonneg_valid; exact Hy).
  apply SFleb_sval; [reflexivity|exact Hy|].
  cbn [sval]. apply sval_nonneg. exact Hy.
Qed.

(** The factors of the custom branch: each is a positive normal number,
    and they do not decrease with the quality. *)
Definition factor_check (q1 q2 : Z) : bool :=
  match Prim2SF (custom_factor (of_Z q1)), Prim2SF (custom_factor (of_Z q2)) with
  | S754_finite false m1 e1, S754_finite false m2 e2 =>
      bounded prec emax m1 e1 && (Zpos (digits2_pos m1) =? 53)
      && bounded prec emax m2 e2 && (Zpos (digits2_pos m2) =? 53)
      && (-60 <=? e1) && (-60 <=? e2)
      && (Zpos m1 * 2 ^ (e1 + 60) <=? Zpos m2 * 2 ^ (e2 + 60))
  | _, _ => false
  end.

Lemma factor_table (q1 q2 : Z) :
  10 <= q1 -> q1 <= q2 -> q2 <= 100 -> factor_check q1 q2 = true.
Proof.
  intros H1 H2 H3.
  assert (Hall : forallb
                   (fun a => forallb
                               (fun b => negb (a <=? b) || factor_check a b)
                               (Z_range 10 91))
                   (Z_range 10 91) = true)
    by (vm_compute; reflexivity).
  pose proof (forallb_Z_range _ 10 91 q1 Hall ltac:(lia)) as Ha.
  cbv beta in Ha.
  pose proof (forallb_Z_range _ 10 91 q2 Ha ltac:(lia)) as Hb.
  cbv beta in Hb.
  destruct (Z.leb_spec q1 q2); [exact Hb|lia].
Qed.

Lemma custom_product_mono (x : number) (q1 q2 : Z) :
  (0 <=? x)%float = true -> 10 <= q1 -> q1 <= q2 -> q2 <= 100 ->
  let y1 := Prim2SF (x * custom_factor (of_Z q1))%float in
  let y2 := Prim2SF (x * custom_factor (of_Z q2))%float in
  nonneg y1 = true /\ nonneg y2 = true /\ sval y1 <= sval y2.
Proof.
  intros Hx H1 H2 H3 y1 y2. subst y1 y2.
  pose proof (nonneg_of_leb x Hx) as HX.
  pose proof (factor_table q1 q2 H1 H2 H3) as Hf. unfold factor_check in Hf.
  rewrite !mul_spec. unfold SF64mul.
  destruct (Prim2SF (custom_factor (of_Z q1))) as [| | |s1 m1 e1];
    try discriminate.
  destruct s1; [discriminate|].
  destruct (Prim2SF (custom_factor (of_Z q2))) as [| | |s2 m2 e2];
    try discriminate.
  destruct s2; [discriminate|].
  apply andb_prop in Hf. destruct Hf as [Hf Hle]. apply Z.leb_le in Hle.
  apply andb_prop in Hf. destruct Hf as [Hf He2]. apply Z.leb_le in He2.
  apply andb_prop in Hf. destruct Hf as [Hf He1]. apply Z.leb_le in He1.
  apply andb_prop in Hf. destruct Hf as [Hf Hd2]. apply Z.eqb_eq in Hd2.
  apply andb_prop in Hf. destruct Hf as [Hf Hb2].
  apply andb_prop in Hf. destruct Hf as [Hb1 Hd1]. apply Z.eqb_eq in Hd1.
  destruct (Prim2SF x) as [s|s| |s m e]; cbn [nonneg] in HX.
  - cbn. repeat split; lia.
  - destruct s; [discriminate|]. cbn. repeat split; lia.
  - discriminate.
  - apply andb_prop in HX. destruct HX as [Hs Hb].
    destruct s; [discriminate|].
    apply SFmul_mono; try assumption.
    assert (Hsplit : forall ef, -60 <= ef ->
              2 ^ (ef + 1074) = 2 ^ (ef + 60) * 2 ^ 1014).
    { intros ef Hef. rewrite <- Z.pow_add_r by lia. f_equal. lia. }
    rewrite (Hsplit e1), (Hsplit e2) by assumption.
    assert (0 < 2 ^ 1014) by (apply Z.pow_pos_nonneg; lia).
    rewrite !Z.mul_assoc. apply Z.mul_le_mono_nonneg_r; [lia|assumption].
Qed.

Lemma estimateSize_custom (x : number) (q : Z) :
  10 <= q <= 100 ->
  estimateSize x "custom" (Some (of_Z q))
  = Math_round (x * custom_factor (of_Z q))%float.
Proof.
  intros Hq. unfold estimateSize. now rewrite (quality_truthy q Hq).
Qed.

(** C6. For preset custom and every non-negative size (every number that
    is not below zero, which by [of_Z_nonneg] includes every non-negative
    integer), the estimate does not decrease when the quality grows from 10
    to 100; at quality 10 it is [round(0.16 * size)] and at quality 100 it
    is [round(0.70 * size)]. *)
Theorem custom_estimate_monotone (x : number) (q1 q2 : Z) :
  (0 <=? x)%float = true -> 10 <= q1 -> q1 <= q2 -> q2 <= 100 ->
  (estimateSize x "custom" (Some (of_Z q1))
   <=? estimateSize x "custom" (Some (of_Z q2)))%float = true /\
  estimateSize x "custom" (Some (of_Z 10)) = Math_round (x * 0.16)%float /\
  estimateSize x "custom" (Some (of_Z 100)) = Math_round (x * 0.7)%float.
Proof.
  intros Hx H1 H2 H3. split; [|split].
  - rewrite !estimateSize_custom by lia. rewrite leb_spec.
    destruct (custom_product_mono x q1 q2 Hx H1 H2 H3) as (Hn1 & Hn2 & Hle).
    destruct (Math_round_value _ Hn1) as [Hr1 Hv1].
    destruct (Math_round_value _ Hn2) as [Hr2 Hv2].
    apply SFleb_sval; [exact Hr1|exact Hr2|].
    rewrite Hv1, Hv2. apply round_scaled_mono. exact Hle.
  - rewrite estimateSize_custom by lia.
    replace (custom_factor (of_Z 10)) with 0.16%float
      by (vm_compute; reflexivity).
    reflexivity.
  - rewrite estimateSize_custom by lia.
    replace (custom_factor (of_Z 100)) with 0.7%float
      by (vm_compute; reflexivity).
    reflexivity.
Qed.

Lemma custom_estimate_monotone_witness :
  (estimateSize (of_Z 1000000) "custom" (Some (of_Z 55))
   <=? estimateSize (of_Z 1000000) "custom" (Some (of_Z 80)))%float = true /\
  estimateSize (of_Z 1000000) "custom" (Some (of_Z 10))
    = Math_round (of_Z 1000000 * 0.16)%float /\
  estimateSize (of_Z 1000000) "custom" (Some (of_Z 100))
    = Math_round (of_Z 1000000 * 0.7)%float.
Proof.
  apply (custom_estimate_monotone (of_Z 1000000) 55 80);
    [vm_compute; reflexivity | lia | lia | lia].
Defined.

End Binary64.

From Stdlib Require Import Ascii.

(** * Further properties of the component and of the endpoint *)

(** ** The batch: terminal states, idle clicks and what a batch keeps *)

(** A record that the batch loop will not pick up again. *)
Definition terminal (img : ImageFile) : Prop :=
  status img = Done \/ status img = Error.

(** The fields a batch never touches. *)
Definition same_upload (old new : ImageFile) : Prop :=
  id new = id old /\ file new = file old /\ preview new = preview old /\
  originalSize new = originalSize old /\
  estimatedSize new = estimatedSize old.

(** The [disabled] attribute of the compress button (line 366). *)
Definition compress_disabled (st : State) : bool :=
  isCompressing st
  || (List.length
        (filter (fun img => Status_eqb (status img) Pending) (images st))
      =? 0)%nat.

Section BatchProperties.

Variable network : nat -> FormData -> FetchOutcome.
Variable Number_toString : number -> string.

Let click := click_compress network Number_toString.

Lemma settle_not_eligible (image : ImageFile) (o : FetchOutcome) :
  eligible (settle image o) = false.
Proof.
  unfold settle. destruct o as [t|r]; [reflexivity|].
  destruct (negb (ok r)); [reflexivity|].
  now destruct (http_body r).
Qed.

Lemma not_eligible_terminal (img : ImageFile) :
  eligible img = false -> terminal img.
Proof.
  unfold eligible, terminal. destruct (status img); cbn; intros H;
    try discriminate; auto.
Qed.

Lemma in_mark_compressing (r : ImageFile) (imgs : list ImageFile) :
  In r (mark_compressing imgs) ->
  exists r0, In r0 imgs /\ id r = id r0 /\ eligible r = eligible r0.
Proof.
  unfold mark_compressing. rewrite in_map_iff. intros (r0 & E & Hin).
  exists r0. split; [exact Hin|]. subst r. unfold eligible.
  destruct (status r0) eqn:Es; cbn; rewrite ?Es; auto.
Qed.

(** Whatever the identifiers, the loop leaves no record behind that is
    eligible and whose identifier was among the processed ones. *)
Lemma batch_images_not_eligible (snapshot : State) (pending : list ImageFile) :
  forall n cur,
    (forall r, In r cur -> eligible r = true -> In (id r) (map id pending)) ->
    forall r,
      In r (batch_images network Number_toString snapshot n pending cur) ->
      eligible r = false.
Proof.
  induction pending as [|image rest IH]; intros n cur Hcur r Hin.
  - cbn in Hin. destruct (eligible r) eqn:E; [|reflexivity].
    destruct (Hcur r Hin E).
  - cbn [batch_images] in Hin. apply (IH _ _) in Hin; [exact Hin|].
    clear r Hin. intros r Hin El.
    unfold replace_by_id in Hin. apply in_map_iff in Hin.
    destruct Hin as (r0 & E & Hin0).
    destruct (String.eqb_spec (id r0) (id (settle image
                (network n (request_of Number_toString snapshot image)))))
      as [Eid|Nid].
    + subst r. now rewrite settle_not_eligible in El.
    + subst r. rewrite id_settle in Nid.
      destruct (Hcur r0 Hin0 El) as [Ehd|Htl]; [congruence|exact Htl].
Qed.

Lemma map_id_replace_by_id (c : ImageFile) (cur : list ImageFile) :
  map id (replace_by_id c cur) = map id cur.
Proof.
  unfold replace_by_id. rewrite map_map. apply map_ext.
  intros img. destruct (String.eqb_spec (id img) (id c)); congruence.
Qed.

Lemma map_id_batch_images (snapshot : State) (pending : list ImageFile) :
  forall n cur,
    map id (batch_images network Number_toString snapshot n pending cur)
    = map id cur.
Proof.
  induction pending as [|image rest IH]; intros n cur; cbn [batch_images];
    [reflexivity|].
  now rewrite IH, map_id_replace_by_id.
Qed.

Lemma mark_compressing_idle (imgs : list ImageFile) :
  filter eligible imgs = [] -> mark_compressing imgs = imgs.
Proof.
  intros Hf. unfold mark_compressing.
  rewrite <- (map_id imgs) at 2. apply map_ext_in.
  intros img Hin.
  destruct (eligible img) eqn:El.
  - assert (Hin' : In img (filter eligible imgs))
      by (apply filter_In; split; assumption).
    rewrite Hf in Hin'. destruct Hin'.
  - unfold eligible in El. now destruct (status img).
Qed.

(** The selection and the busy flag after a click. *)
Lemma click_selection (w : World) :
  quality (state (click w)) = quality (state w) /\
  qualityPreset (state (click w)) = qualityPreset (state w) /\
  outputFormat (state (click w)) = outputFormat (state w) /\
  isCompressing (state (click w))
  = (if (List.length (images (state w)) =? 0)%nat
     then isCompressing (state w) else false).
Proof.
  subst click. destruct w as [st l]. unfold click_compress. cbn [state log].
  destruct (images st) as [|i0 rest] eqn:Ei.
  - unfold handleCompress. rewrite Ei. cbn. auto.
  - rewrite handleCompress_run by congruence. cbn. auto.
Qed.

(** The handler run as a whole, with no event in between: every record
    ends done or in error, whatever the identifiers and whatever the
    network answers; the compress button is then disabled, and a second
    run sends no request and changes no record. *)
Lemma click_reaches_terminal (w : World) :
  Forall terminal (images (state (click w))) /\
  compress_disabled (state (click w)) = true /\
  log (click (click w)) = log (click w) /\
  images (state (click (click w))) = images (state (click w)).
Proof.
  assert (Hne : forall r, In r (images (state (click w))) ->
                          eligible r = false).
  { intros r Hin. subst click.
    rewrite (proj2 (click_compress_run network Number_toString w)) in Hin.
    revert r Hin. apply batch_images_not_eligible.
    intros r Hin El. apply in_mark_compressing in Hin.
    destruct Hin as (r0 & Hin0 & Eid & Eel).
    rewrite Eid. apply in_map. apply filter_In. split; congruence. }
  assert (Hidle : filter eligible (images (state (click w))) = []).
  { destruct (filter eligible _) as [|r l] eqn:Ef; [reflexivity|].
    assert (Hin : In r (filter eligible (images (state (click w)))))
      by (rewrite Ef; now left).
    apply filter_In in Hin. destruct Hin as [Hin El].
    rewrite (Hne r Hin) in El. discriminate. }
  split; [|split; [|split]].
  - apply Forall_forall. intros r Hin.
    apply not_eligible_terminal, Hne, Hin.
  - unfold compress_disabled.
    assert (Hp : filter (fun img => Status_eqb (status img) Pending)
                   (images (state (click w))) = []).
    { induction (images (state (click w))) as [|r l IH]; [reflexivity|].
      cbn [filter]. pose proof (Hne r ltac:(now left)) as Hr.
      unfold eligible in Hr. apply orb_false_iff in Hr.
      destruct Hr as [Hr _]. rewrite Hr. apply IH.
      - intros r' Hin. apply Hne. now right.
      - clear IH. destruct (filter eligible l) as [|x l'] eqn:Ef;
          [reflexivity|].
        assert (Hin : In x (filter eligible l)) by (rewrite Ef; now left).
        apply filter_In in Hin. destruct Hin as [Hin El].
        rewrite (Hne x (or_intror Hin)) in El. discriminate. }
    rewrite Hp. apply orb_true_r.
  - subst click.
    rewrite (proj1 (click_compress_run network Number_toString _)).
    cbv zeta. rewrite Hidle. cbn. apply app_nil_r.
  - subst click.
    rewrite (proj2 (click_compress_run network Number_toString _)).
    cbv zeta. rewrite Hidle. cbn. now apply mark_compressing_idle.
Qed.

(** X2. A click with nothing to do: on an empty list the handler returns
    at once and the world is unchanged; on a list without a pending or
    compressing record no request is sent and no record changes. *)
Theorem batch_without_eligible_records (w : World) :
  (images (state w) = [] -> click w = w) /\
  (filter eligible (images (state w)) = [] ->
   log (click w) = log w /\
   images (state (click w)) = images (state w)).
Proof.
  split.
  - intros He. subst click. destruct w as [st l]. cbn in He.
    unfold click_compress, handleCompress. cbn [state]. rewrite He.
    reflexivity.
  - intros Hidle. subst click. split.
    + rewrite (proj1 (click_compress_run network Number_toString w)).
      cbv zeta. rewrite Hidle. cbn. apply app_nil_r.
    + rewrite (proj2 (click_compress_run network Number_toString w)).
      cbv zeta. rewrite Hidle. cbn. now apply mark_compressing_idle.
Qed.

Lemma settle_same_upload (image : ImageFile) (o : FetchOutcome) :
  same_upload image (settle image o).
Proof.
  unfold settle, same_upload. destruct o as [t|r]; [cbn; auto 6|].
  destruct (negb (ok r)); [cbn; auto 6|].
  destruct (http_body r); cbn; auto 6.
Qed.

Lemma settle_all_same_upload (snapshot : State) (imgs : list ImageFile) :
  forall n,
    Forall2 same_upload imgs
      (settle_all network Number_toString snapshot n imgs).
Proof.
  induction imgs as [|img rest IH]; intros n; cbn [settle_all];
    [constructor|].
  destruct (eligible img); constructor; auto.
  - apply settle_same_upload.
  - unfold same_upload. auto 6.
Qed.

(** X3. What a batch keeps: the selection (quality, preset, output
    format) and the identifiers of the records, in order; when the
    identifiers are distinct, also the file, preview handle, original size
    and estimate of every record. The busy flag is down at the end. *)
Theorem batch_frame (w : World) :
  quality (state (click w)) = quality (state w) /\
  qualityPreset (state (click w)) = qualityPreset (state w) /\
  outputFormat (state (click w)) = outputFormat (state w) /\
  (images (state w) <> [] -> isCompressing (state (click w)) = false) /\
  map id (images (state (click w))) = map id (images (state w)) /\
  (NoDup (map id (images (state w))) ->
   Forall2 same_upload (images (state w)) (images (state (click w)))).
Proof.
  destruct (click_selection w) as (Hq & Hp & Hf & Hc).
  split; [exact Hq|]. split; [exact Hp|]. split; [exact Hf|]. split; [|split].
  - intros Hne. rewrite Hc. destruct (images (state w)); [congruence|].
    reflexivity.
  - subst click.
    rewrite (proj2 (click_compress_run network Number_toString w)).
    cbv zeta. now rewrite map_id_batch_images, map_id_mark.
  - intros Hnd. subst click.
    rewrite (proj2 (click_compress_run network Number_toString w)).
    cbv zeta.
    rewrite (batch_images_settle_all network Number_toString (state w)
               (images (state w)) _ [] Hnd).
    apply settle_all_same_upload.
Qed.

End BatchProperties.

Lemma batch_without_eligible_records_witness :
  click_compress served sample_toString
    {| state := initial_state; log := [] |}
  = {| state := initial_state; log := [] |}.
Proof.
  apply (proj1 (batch_without_eligible_records served sample_toString
                  {| state := initial_state; log := [] |})).
  reflexivity.
Defined.

Lemma batch_frame_witness :
  Forall2 same_upload (images (state two_uploads))
    (images (state (click_compress first_fails sample_toString two_uploads))).
Proof.
  apply (batch_frame first_fails sample_toString two_uploads).
  vm_compute. repeat constructor; cbn; intuition discriminate.
Defined.

(** ** Removing records and clearing the session *)

Definition remove (id0 : string) (w : World) : World :=
  snd (removeImage id0 w).

Definition clear (w : World) : World :=
  snd (clearAll (state w) w).

Lemma for_of_emit (f : ImageFile -> Event) (imgs : list ImageFile) :
  forall st l,
    for_of imgs (fun img => emit (f img)) {| state := st; log := l |}
    = (tt, {| state := st; log := l ++ map f imgs |}).
Proof.
  induction imgs as [|img rest IH]; intros st l.
  - cbn. now rewrite app_nil_r.
  - cbn [for_of]. unfold bind at 1. unfold emit at 1. cbn [state log].
    rewrite IH. cbn [map]. now rewrite <- app_assoc.
Qed.

Lemma clear_run (w : World) :
  clear w
  = {| state := with_images (state w) [];
       log := log w ++ map (fun img => EvRevoke (preview img))
                         (images (state w)) |}.
Proof.
  destruct w as [st l]. unfold clear, clearAll. cbn [state log].
  unfold bind. rewrite for_of_emit. reflexivity.
Qed.

Lemma revocations_app (url : string) (l1 l2 : list Event) :
  revocations url (l1 ++ l2)
  = (revocations url l1 + revocations url l2)%nat.
Proof. unfold revocations. now rewrite filter_app, length_app. Qed.

Lemma revocations_previews (url : string) (imgs : list ImageFile) :
  revocations url (map (fun img => EvRevoke (preview img)) imgs)
  = count_occ string_dec (map preview imgs) url.
Proof.
  unfold revocations. induction imgs as [|img rest IH]; [reflexivity|].
  cbn [map filter revokes count_occ].
  destruct (String.eqb_spec (preview img) url) as [E|N];
    destruct (string_dec (preview img) url) as [E'|N'];
    cbn [List.length]; congruence.
Qed.

(** X4. [clearAll] empties the list, keeps the selection, and releases
    the preview handle of every record of the render it was called from:
    a handle is revoked once for each record that holds it, so with
    distinct handles every one is revoked exactly once. *)
Theorem clearAll_releases_every_preview (w : World) (url : string) :
  images (state (clear w)) = [] /\
  quality (state (clear w)) = quality (state w) /\
  qualityPreset (state (clear w)) = qualityPreset (state w) /\
  outputFormat (state (clear w)) = outputFormat (state w) /\
  revocations url (log (clear w))
  = (revocations url (log w)
     + count_occ string_dec (map preview (images (state w))) url)%nat /\
  (NoDup (map preview (images (state w))) ->
   In url (map preview (images (state w))) ->
   revocations url (log (clear w)) = S (revocations url (log w))).
Proof.
  rewrite clear_run. cbn [state log images with_images quality qualityPreset
                           outputFormat].
  repeat (split; [reflexivity|]).
  rewrite revocations_app, revocations_previews.
  split; [reflexivity|].
  intros Hnd Hin.
  rewrite (proj1 (NoDup_count_occ' string_dec _) Hnd url Hin). lia.
Qed.

Lemma clearAll_releases_every_preview_witness :
  revocations "blob:b" (log (clear two_uploads))
  = S (revocations "blob:b" (log two_uploads)).
Proof.
  refine (proj2 (proj2 (proj2 (proj2 (proj2
            (clearAll_releases_every_preview two_uploads "blob:b"))))) _ _).
  - vm_compute. repeat constructor; cbn; intuition discriminate.
  - vm_compute. auto.
Defined.

Lemma with_images_same (st : State) : with_images st (images st) = st.
Proof. now destruct st. Qed.

Lemma filter_id_absent (a : string) (imgs : list ImageFile) :
  ~ In a (map id imgs) ->
  filter (fun img => negb (String.eqb (id img) a)) imgs = imgs.
Proof.
  induction imgs as [|img rest IH]; intros Hn; [reflexivity|].
  cbn [filter]. cbn in Hn.
  destruct (String.eqb_spec (id img) a) as [E|N]; [tauto|].
  cbn [negb]. f_equal. apply IH. tauto.
Qed.

Lemma filter_filter {A} (f g : A -> bool) (l : list A) :
  filter f (filter g l) = filter (fun x => g x && f x) l.
Proof.
  induction l as [|x l IH]; [reflexivity|]. cbn [filter].
  destruct (g x); cbn [filter andb]; [destruct (f x)|]; now rewrite IH.
Qed.

(** X5. [removeImage] drops exactly the records with the given
    identifier and keeps the others in order; removing an identifier that
    is not in the list changes nothing, removing twice is removing once,
    and two removals commute. *)
Theorem removeImage_laws (a b : string) (w : World) :
  (forall r, In r (images (state (remove a w))) <->
             In r (images (state w)) /\ id r <> a) /\
  (~ In a (map id (images (state w))) -> remove a w = w) /\
  remove a (remove a w) = remove a w /\
  remove a (remove b w) = remove b (remove a w).
Proof.
  destruct w as [st l]. unfold remove, removeImage, setImages.
  cbn [snd state log images with_images].
  split; [|split; [|split]].
  - intros r. rewrite filter_In.
    destruct (String.eqb_spec (id r) a); cbn; intuition congruence.
  - intros Hn. rewrite (filter_id_absent a _ Hn). now rewrite with_images_same.
  - f_equal. unfold with_images. cbn. f_equal.
    rewrite filter_filter. apply filter_ext. intros x.
    now destruct (negb (id x =? a)%string).
  - f_equal. unfold with_images. cbn. f_equal.
    rewrite !filter_filter. apply filter_ext. intros x. apply andb_comm.
Qed.

Lemma removeImage_laws_witness :
  remove "zzz" two_uploads = two_uploads.
Proof.
  refine (proj1 (proj2 (removeImage_laws "zzz" "a" two_uploads)) _).
  vm_compute. intuition discriminate.
Defined.

(** ** Sessions: events interleaved with a running batch

    [handleCompress] is an async function: it runs synchronously up to
    the [fetch] of its first record, and resumes, each time a request has
    settled, to update the list and send the next request (or to lower the
    busy flag after the last one). Between two such resumptions the other
    handlers of the component may run. A session is a sequence of such
    steps. *)

(** [setOutputFormat(format.value)] (line 349) *)
Definition with_outputFormat (st : State) (f : string) : State :=
  {| images := images st; quality := quality st;
     qualityPreset := qualityPreset st; outputFormat := f;
     isCompressing := isCompressing st |}.

(** The values offered by the format buttons (lines 342-345). *)
Definition format_buttons : list string :=
  ["original"; "jpeg"; "png"; "webp"].

(** A batch that waits for the request of [image], the [n]-th of the
    session, with [rest] still to be sent; [snapshot] is the state the
    handler closed over. *)
Inductive Batch :=
| Idle
| Waiting (snapshot : State) (image : ImageFile) (n : nat)
    (rest : list ImageFile).

Definition is_idle (b : Batch) : bool :=
  match b with Idle => true | Waiting _ _ _ _ => false end.

Section Session.

Variable network : nat -> FormData -> FetchOutcome.
Variable Number_toString : number -> string.

(** The loop reaches its next record: its request is sent; or there is
    none left and [setIsCompressing(false)] runs. *)
Definition continue (snapshot : State) (pending : list ImageFile)
    (w : World) : World * Batch :=
  match pending with
  | [] => ({| state := with_isCompressing (state w) false; log := log w |},
           Idle)
  | image :: rest =>
      ({| state := state w;
          log := log w ++ [EvRequest (request_of Number_toString snapshot image)] |},
       Waiting snapshot image (requests_made (log w)) rest)
  end.

(** The synchronous part of [handleCompress] after a click. *)
Definition start (w : World) : World * Batch :=
  if (List.length (images (state w)) =? 0)%nat then (w, Idle)
  else
    continue (state w) (filter eligible (images (state w)))
      {| state := with_images (with_isCompressing (state w) true)
                    (mark_compressing (images (state w)));
         log := log w |}.

(** The request in flight settles: [compressImage] returns, the list is
    updated and the loop goes on. *)
Definition resume (snapshot : State) (image : ImageFile) (n : nat)
    (rest : list ImageFile) (w : World) : World * Batch :=
  let fd := request_of Number_toString snapshot image in
  let o := network n fd in
  continue snapshot rest
    {| state := with_images (state w)
                  (replace_by_id (settle image o) (images (state w)));
       log := log w ++ [EvSettled fd o] |}.

Definition on_state (f : State -> State) (w : World) : World :=
  {| state := f (state w); log := log w |}.

(** One step of a session. The slider is shown for the custom preset
    only and ranges over 10..100; the compress button reacts when it is
    not disabled. A click is a step from an idle batch: while a batch
    waits the busy flag is up and the button is disabled. *)
Inductive step : World * Batch -> World * Batch -> Prop :=
| step_drop (files : list Accepted) w b :
    step (w, b) (on_state (onDrop files) w, b)
| step_preset (p : Preset) w b :
    step (w, b) (on_state (handleQualityPreset p) w, b)
| step_slider (q : Z) w b :
    qualityPreset (state w) = custom -> (10 <= q <= 100)%Z ->
    step (w, b) (on_state (handleQualityChange (of_Z q)) w, b)
| step_format (f : string) w b :
    In f format_buttons ->
    step (w, b) (on_state (fun st => with_outputFormat st f) w, b)
| step_remove (id0 : string) w b :
    step (w, b) (remove id0 w, b)
| step_clear w b :
    step (w, b) (clear w, b)
| step_click w :
    compress_disabled (state w) = false ->
    step (w, Idle) (start w)
| step_settled snapshot image n rest w :
    step (w, Waiting snapshot image n rest) (resume snapshot image n rest w).

Definition initial_world : World := {| state := initial_state; log := [] |}.

Inductive reachable : World * Batch -> Prop :=
| reachable_initial : reachable (initial_world, Idle)
| reachable_step s s' : reachable s -> step s s' -> reachable s'.

(** Running a batch to its end with no other event in between. *)
Fixpoint drain (snapshot : State) (image : ImageFile) (n : nat)
    (rest : list ImageFile) (w : World) : World :=
  match rest with
  | [] => fst (resume snapshot image n [] w)
  | _ :: rest' =>
      match resume snapshot image n rest w with
      | (w', Waiting snapshot' next n' _) => drain snapshot' next n' rest' w'
      | (w', Idle) => w'
      end
  end.

Definition run_to_completion (w : World) : World :=
  match start w with
  | (w', Idle) => w'
  | (w', Waiting snapshot image n rest) => drain snapshot image n rest w'
  end.

End Session.

(** ** Invariants of a session *)

(** No result and no error yet. *)
Definition pristine (img : ImageFile) : Prop :=
  original img = None /\ compressed img = None /\
  compressionRatio img = None /\ error img = None.

(** The optional fields agree with the status. *)
Definition status_fields (img : ImageFile) : Prop :=
  match status img with
  | Pending | Compressing => pristine img
  | Error =>
      error img <> None /\ original img = None /\ compressed img = None /\
      compressionRatio img = None
  | Done => error img = None
  end.

(** The estimate is the one of the current selection. *)
Definition in_sync (st : State) (img : ImageFile) : Prop :=
  estimatedSize img
  = Some (estimateSize (originalSize img) (preset_key (qualityPreset st))
            (Some (quality st))).

Definition record_ok (st : State) (img : ImageFile) : Prop :=
  originalSize img = file_size (file img) /\
  status_fields img /\
  (eligible img = true -> in_sync st img).

(** The quality is an integer of the slider's range, the one of the
    preset when a named preset is selected, and the output format is one
    of the buttons'. *)
Definition selection_ok (st : State) : Prop :=
  exists q : Z,
    (10 <= q <= 100)%Z /\ quality st = of_Z q /\
    match qualityPreset st with
    | high => q = 90%Z | medium => q = 70%Z | low => q = 50%Z
    | custom => True
    end /\
    In (outputFormat st) format_buttons.

Section SessionProperties.

Variable network : nat -> FormData -> FetchOutcome.
Variable Number_toString : number -> string.

(** A request of the session: it carries a file, a quality of the
    slider's range and the value of a format button. *)
Definition request_ok (e : Event) : Prop :=
  match e with
  | EvRequest fd | EvSettled fd _ =>
      exists (f : File) (q : Z) (fmt : string),
        fd_file fd = Some f /\ (10 <= q <= 100)%Z /\
        fd_quality fd = Some (Number_toString (of_Z q)) /\
        fd_format fd = Some fmt /\ In fmt format_buttons
  | EvRevoke _ => True
  end.

Definition stored_ok (img : ImageFile) : Prop :=
  originalSize img = file_size (file img) /\ pristine img.

Definition session_inv (s : World * Batch) : Prop :=
  let (w, b) := s in
  selection_ok (state w) /\
  Forall (record_ok (state w)) (images (state w)) /\
  Forall request_ok (log w) /\
  match b with
  | Idle =>
      in_flight (log w) = 0%Z /\ isCompressing (state w) = false /\
      (forall r, In r (images (state w)) -> status r <> Compressing)
  | Waiting snapshot image n rest =>
      in_flight (log w) = 1%Z /\ isCompressing (state w) = true /\
      selection_ok snapshot /\ Forall stored_ok (image :: rest) /\
      (forall r, In r (images (state w)) -> status r = Compressing ->
                 In (id r) (map id (image :: rest)))
  end.

Lemma in_flight_snoc (l : list Event) (e : Event) :
  in_flight (l ++ [e])
  = (in_flight l
     + (if is_request e then 1 else 0) - (if is_settled e then 1 else 0))%Z.
Proof.
  unfold in_flight. rewrite !filter_app, !length_app. cbn [filter].
  destruct e; cbn; lia.
Qed.

Lemma in_flight_revokes (l : list Event) (urls : list string) :
  in_flight (l ++ map EvRevoke urls) = in_flight l.
Proof.
  unfold in_flight. rewrite !filter_app, !length_app.
  assert (E1 : filter is_request (map EvRevoke urls) = [])
    by (induction urls; cbn; auto).
  assert (E2 : filter is_settled (map EvRevoke urls) = [])
    by (induction urls; cbn; auto).
  rewrite E1, E2. cbn. lia.
Qed.

Lemma selection_ok_ext (st st' : State) :
  quality st' = quality st -> qualityPreset st' = qualityPreset st ->
  outputFormat st' = outputFormat st ->
  selection_ok st -> selection_ok st'.
Proof.
  intros Hq Hp Hf (q & H1 & H2 & H3 & H4). exists q.
  rewrite Hq, Hp, Hf. auto.
Qed.

Lemma record_ok_ext (st st' : State) (img : ImageFile) :
  quality st' = quality st -> qualityPreset st' = qualityPreset st ->
  record_ok st img -> record_ok st' img.
Proof.
  intros Hq Hp (H1 & H2 & H3). unfold record_ok, in_sync.
  rewrite Hq, Hp. auto.
Qed.

Lemma record_ok_reestimated (st : State) (img : ImageFile) :
  record_ok st img ->
  record_ok st
    (with_estimatedSize img
       (estimateSize (originalSize img) (preset_key (qualityPreset st))
          (Some (quality st)))).
Proof.
  intros (H1 & H2 & H3). unfold record_ok, in_sync, status_fields, pristine,
    eligible in *. cbn. auto.
Qed.

(** The two outcomes of a render after a handler: the dependencies of
    the effect are unchanged, or every estimate is recomputed. *)
Lemma commit_cases (old new : State) :
  (commit old new = new /\ qualityPreset new = qualityPreset old /\
   quality new = quality old) \/
  commit old new
  = with_images new
      (map (fun img =>
              with_estimatedSize img
                (estimateSize (originalSize img)
                   (preset_key (qualityPreset new)) (Some (quality new))))
         (images new)).
Proof.
  unfold commit, deps_changed.
  destruct (Preset_eqb (qualityPreset old) (qualityPreset new)) eqn:Ep;
    [destruct (PrimFloat.Leibniz.eqb (quality old) (quality new)) eqn:Eq|];
    cbn [andb negb].
  - left. apply Preset_eqb_eq in Ep.
    apply FloatAxioms.Leibniz.eqb_spec in Eq. auto.
  - right. unfold estimate_effect. destruct new as [imgs q p f c].
    destruct imgs; reflexivity.
  - right. unfold estimate_effect. destruct new as [imgs q p f c].
    destruct imgs; reflexivity.
Qed.

(** What a handler other than the batch does to the session. *)
Definition ui_ok (w w' : World) : Prop :=
  selection_ok (state w') /\
  Forall (record_ok (state w')) (images (state w')) /\
  isCompressing (state w') = isCompressing (state w) /\
  (forall r', In r' (images (state w')) -> status r' = Compressing ->
              exists r, In r (images (state w)) /\ status r = Compressing /\
                        id r = id r') /\
  exists urls, log w' = log w ++ map EvRevoke urls.

Lemma ui_commit (w : World) (new : State) :
  images new = images (state w) ->
  isCompressing new = isCompressing (state w) ->
  selection_ok new ->
  Forall (record_ok (state w)) (images (state w)) ->
  ui_ok w {| state := commit (state w) new; log := log w |}.
Proof.
  intros Hi Hc Hs Hr. unfold ui_ok. cbn [state log].
  destruct (commit_cases (state w) new) as [(E & Ep & Eq)|E]; rewrite E.
  - split; [exact Hs|]. split; [|split; [exact Hc|split]].
    + rewrite Hi. eapply Forall_impl; [|exact Hr].
      intros img. now apply record_ok_ext.
    + intros r' Hin Hst. rewrite Hi in Hin. eauto.
    + exists []. cbn. now rewrite app_nil_r.
  - cbn [images with_images isCompressing].
    assert (Esel : forall st0 l, selection_ok st0 ->
                     selection_ok (with_images st0 l))
      by (intros st0 l; now apply selection_ok_ext).
    split; [now apply Esel|]. split; [|split; [exact Hc|split]].
    + rewrite Hi. apply Forall_forall. intros r Hin.
      apply in_map_iff in Hin. destruct Hin as (r0 & Er & Hin0). subst r.
      rewrite Forall_forall in Hr. specialize (Hr r0 Hin0).
      destruct Hr as (H1 & H2 & H3).
      unfold record_ok, in_sync, status_fields, pristine, eligible in *.
      cbn. auto.
    + intros r' Hin Hst. rewrite Hi in Hin.
      apply in_map_iff in Hin. destruct Hin as (r0 & Er & Hin0). subst r'.
      exists r0. cbn in Hst. auto.
    + exists []. cbn. now rewrite app_nil_r.
Qed.

Lemma of_Z_presets :
  90%float = of_Z 90 /\ 70%float = of_Z 70 /\ 50%float = of_Z 50.
Proof. repeat split; vm_compute; reflexivity. Qed.

Lemma ui_step_ok (w w' : World) (b b' : Batch) :
  selection_ok (state w) ->
  Forall (record_ok (state w)) (images (state w)) ->
  step network Number_toString (w, b) (w', b') ->
  b' = b /\ ui_ok w w' \/
  (b = Idle /\ (w', b') = start Number_toString w) \/
  (exists snapshot image n rest,
     b = Waiting snapshot image n rest /\
     (w', b') = resume network Number_toString snapshot image n rest w).
Proof.
  intros Hs Hr Hstep. inversion Hstep; subst; clear Hstep.
  - (* upload *)
    left. split; [reflexivity|]. unfold ui_ok, on_state, onDrop.
    cbn [state log images with_images isCompressing].
    split; [now apply (selection_ok_ext (state w))|].
    split; [|split; [reflexivity|split]].
    + apply Forall_app. split.
      * eapply Forall_impl; [|exact Hr]. intros img. now apply record_ok_ext.
      * apply Forall_forall. intros r Hin. apply in_map_iff in Hin.
        destruct Hin as (a & Er & _). subst r.
        unfold record_ok, in_sync, status_fields, pristine. cbn. auto 6.
    + intros r' Hin Hst. apply in_app_or in Hin. destruct Hin as [Hin|Hin].
      * eauto.
      * apply in_map_iff in Hin. destruct Hin as (a & Er & _). subst r'.
        discriminate.
    + exists []. cbn. now rewrite app_nil_r.
  - (* preset *)
    left. split; [reflexivity|]. unfold on_state, handleQualityPreset.
    apply ui_commit; try assumption.
    + now destruct p.
    + now destruct p.
    + destruct Hs as (q & S1 & S2 & S3 & S4).
      destruct of_Z_presets as (E90 & E70 & E50).
      destruct p; cbn.
      * exists 90%Z. repeat split; auto; lia.
      * exists 70%Z. repeat split; auto; lia.
      * exists 50%Z. repeat split; auto; lia.
      * exists q. repeat split; auto; lia.
  - (* slider *)
    left. split; [reflexivity|]. unfold on_state, handleQualityChange.
    apply ui_commit; try assumption; try reflexivity.
    destruct Hs as (q0 & S1 & S2 & S3 & S4).
    exists q. cbn. match goal with H : qualityPreset _ = custom |- _ =>
                     rewrite H end.
    repeat split; auto; lia.
  - (* output format *)
    left. split; [reflexivity|]. unfold ui_ok, on_state.
    cbn [state log images with_outputFormat isCompressing].
    split; [|split; [|split; [reflexivity|split]]].
    + destruct Hs as (q & S1 & S2 & S3 & S4). exists q. cbn. auto.
    + eapply Forall_impl; [|exact Hr]. intros img. now apply record_ok_ext.
    + eauto.
    + exists []. cbn. now rewrite app_nil_r.
  - (* remove *)
    left. split; [reflexivity|]. unfold ui_ok, remove, removeImage, setImages.
    cbn [snd state log images with_images isCompressing].
    split; [now apply (selection_ok_ext (state w))|].
    split; [|split; [reflexivity|split]].
    + apply Forall_forall. intros r Hin. apply filter_In in Hin.
      rewrite Forall_forall in Hr.
      apply (record_ok_ext (state w)); try reflexivity. apply Hr, Hin.
    + intros r' Hin Hst. apply filter_In in Hin. exists r'. tauto.
    + exists []. cbn. now rewrite app_nil_r.
  - (* clear *)
    left. split; [reflexivity|]. rewrite clear_run. unfold ui_ok.
    cbn [state log images with_images isCompressing].
    split; [now apply (selection_ok_ext (state w))|].
    split; [constructor|]. split; [reflexivity|]. split.
    + intros r' [].
    + exists (map preview (images (state w))). now rewrite map_map.
  - right. left. auto.
  - right. right. eauto 8.
Qed.

Lemma Forall_replace_by_id (P : ImageFile -> Prop) (c : ImageFile)
    (cur : list ImageFile) :
  P c -> Forall P cur -> Forall P (replace_by_id c cur).
Proof.
  intros Hc Hcur. unfold replace_by_id. apply Forall_forall.
  intros r Hin. apply in_map_iff in Hin. destruct Hin as (r0 & E & Hin0).
  destruct (String.eqb (id r0) (id c)); subst r; [exact Hc|].
  rewrite Forall_forall in Hcur. now apply Hcur.
Qed.

Lemma settle_record_ok (st : State) (image : ImageFile) (o : FetchOutcome) :
  stored_ok image -> record_ok st (settle image o).
Proof.
  intros (H1 & H2 & H3 & H4 & H5).
  assert (Hf : forall t, record_ok st (failed image t)).
  { intros t. unfold record_ok, status_fields, eligible. cbn.
    repeat split; auto; discriminate. }
  unfold settle. destruct o as [t|r]; [apply Hf|].
  destruct (negb (ok r)); [apply Hf|].
  destruct (http_body r) as [t|result]; [apply Hf|].
  unfold record_ok, status_fields, eligible. cbn.
  repeat split; auto; discriminate.
Qed.

Lemma request_of_ok (snapshot : State) (image : ImageFile) :
  selection_ok snapshot ->
  forall fd, fd = request_of Number_toString snapshot image ->
  exists (f : File) (q : Z) (fmt : string),
    fd_file fd = Some f /\ (10 <= q <= 100)%Z /\
    fd_quality fd = Some (Number_toString (of_Z q)) /\
    fd_format fd = Some fmt /\ In fmt format_buttons.
Proof.
  intros (q & H1 & H2 & H3 & H4) fd ->.
  exists (file image), q, (outputFormat snapshot). cbn.
  rewrite H2. auto.
Qed.

(** The loop going on keeps the invariant. *)
Lemma continue_inv (snapshot : State) (pending : list ImageFile) (w : World) :
  selection_ok (state w) ->
  Forall (record_ok (state w)) (images (state w)) ->
  Forall request_ok (log w) ->
  in_flight (log w) = 0%Z ->
  isCompressing (state w) = true ->
  selection_ok snapshot -> Forall stored_ok pending ->
  (forall r, In r (images (state w)) -> status r = Compressing ->
             In (id r) (map id pending)) ->
  session_inv (continue Number_toString snapshot pending w).
Proof.
  intros Hs Hr Hl Hf Hc Hsnap Hst Htr.
  destruct pending as [|image rest]; cbn [continue session_inv state log].
  - split; [now apply (selection_ok_ext (state w))|].
    split; [|split; [exact Hl|]].
    + eapply Forall_impl; [|exact Hr]. intros img. now apply record_ok_ext.
    + split; [exact Hf|]. split; [reflexivity|].
      intros r Hin Hst'. exact (Htr r Hin Hst').
  - split; [exact Hs|]. split; [exact Hr|]. split.
    + apply Forall_app. split; [exact Hl|]. constructor; [|constructor].
      exact (request_of_ok snapshot image Hsnap _ eq_refl).
    + rewrite in_flight_snoc. cbn. split; [lia|]. auto.
Qed.

Lemma step_inv (s s' : World * Batch) :
  session_inv s -> step network Number_toString s s' -> session_inv s'.
Proof.
  destruct s as [w b], s' as [w' b'].
  intros (Hs & Hr & Hl & Hb) Hstep.
  destruct (ui_step_ok w w' b b' Hs Hr Hstep)
    as [(-> & Hs' & Hr' & Hc' & Htr & urls & Hlog)
       |[(-> & E)|(snapshot & image & n & rest & -> & E)]].
  - (* another handler *)
    cbn [session_inv]. split; [exact Hs'|]. split; [exact Hr'|].
    rewrite Hlog. split.
    + apply Forall_app. split; [exact Hl|].
      apply Forall_forall. intros e He. apply in_map_iff in He.
      destruct He as (u & <- & _). exact I.
    + rewrite in_flight_revokes, Hc'.
      destruct b as [|snapshot image n rest].
      * destruct Hb as (H1 & H2 & H3). repeat split; auto.
        intros r' Hin Hst. destruct (Htr r' Hin Hst) as (r & Hin0 & Hst0 & _).
        exact (H3 r Hin0 Hst0).
      * destruct Hb as (H1 & H2 & H3 & H4 & H5). repeat split; auto.
        intros r' Hin Hst. destruct (Htr r' Hin Hst) as (r & Hin0 & Hst0 & Eid).
        rewrite <- Eid. exact (H5 r Hin0 Hst0).
  - (* click *)
    destruct Hb as (H1 & H2 & H3). rewrite E. unfold start.
    destruct (List.length (images (state w)) =? 0)%nat.
    + cbn [session_inv]. auto 6.
    + apply continue_inv; cbn [state log images with_images isCompressing].
      * now apply (selection_ok_ext (state w)).
      * apply Forall_forall. intros r Hin. unfold mark_compressing in Hin.
        apply in_map_iff in Hin. destruct Hin as (r0 & Er & Hin0).
        rewrite Forall_forall in Hr. destruct (Hr r0 Hin0) as (R1 & R2 & R3).
        apply (record_ok_ext (state w)); try reflexivity.
        destruct (status r0) eqn:Est; cbn in Er; subst r; try (split; auto).
        unfold record_ok, status_fields, in_sync, eligible in *.
        rewrite Est in *. cbn. auto.
      * exact Hl.
      * exact H1.
      * reflexivity.
      * exact Hs.
      * apply Forall_forall. intros r Hin. apply filter_In in Hin.
        destruct Hin as [Hin El]. rewrite Forall_forall in Hr.
        destruct (Hr r Hin) as (R1 & R2 & _). split; [exact R1|].
        unfold status_fields, eligible in *.
        destruct (status r); try discriminate; exact R2.
      * intros r Hin Hst. apply in_mark_compressing in Hin.
        destruct Hin as (r0 & Hin0 & Eid & Eel). rewrite Eid.
        apply in_map. apply filter_In. split; [exact Hin0|].
        rewrite <- Eel. unfold eligible. now rewrite Hst.
  - (* a request settles *)
    destruct Hb as (H1 & H2 & H3 & H4 & H5). rewrite E. unfold resume.
    inversion H4 as [|? ? Himg Hrest]; subst.
    apply continue_inv; cbn [state log images with_images isCompressing].
    + now apply (selection_ok_ext (state w)).
    + apply Forall_replace_by_id.
      * apply (record_ok_ext (state w)); try reflexivity.
        now apply settle_record_ok.
      * eapply Forall_impl; [|exact Hr]. intros img.
        now apply record_ok_ext.
    + apply Forall_app. split; [exact Hl|]. constructor; [|constructor].
      exact (request_of_ok snapshot image H3 _ eq_refl).
    + rewrite in_flight_snoc. cbn. lia.
    + exact H2.
    + exact H3.
    + exact Hrest.
    + intros r Hin Hst. unfold replace_by_id in Hin.
      apply in_map_iff in Hin. destruct Hin as (r0 & Er & Hin0).
      destruct (String.eqb_spec (id r0)
                  (id (settle image
                         (network n (request_of Number_toString snapshot image)))))
        as [Eid|Nid].
      * subst r. pose proof (settle_not_eligible image
                               (network n (request_of Number_toString snapshot image)))
          as Hne.
        unfold eligible in Hne. rewrite Hst in Hne. discriminate.
      * subst r. rewrite id_settle in Nid.
        destruct (H5 r0 Hin0 Hst) as [Ehd|Htl]; [congruence|exact Htl].
Qed.

Lemma reachable_inv (s : World * Batch) :
  reachable network Number_toString s -> session_inv s.
Proof.
  induction 1 as [|s s' _ IH Hstep].
  - cbn. split; [|split; [constructor|split; [constructor|]]].
    + exists 70%Z. cbn. repeat split; auto; lia.
    + split; [reflexivity|]. split; [reflexivity|]. intros r [].
  - exact (step_inv s s' IH Hstep).
Qed.

End SessionProperties.

Section SessionTheorems.

Variable network : nat -> FormData -> FetchOutcome.
Variable Number_toString : number -> string.

Lemma requests_made_snoc (l : list Event) (e : Event) :
  requests_made (l ++ [e])
  = (requests_made l + (if is_request e then 1 else 0))%nat.
Proof.
  unfold requests_made. rewrite filter_app, length_app. cbn [filter].
  destruct (is_request e); reflexivity.
Qed.

Lemma drain_run (snapshot : State) (rest : list ImageFile) :
  forall (image : ImageFile) (st0 : State) (l : list Event),
    drain network Number_toString snapshot image (requests_made l) rest
      {| state := st0;
         log := l ++ [EvRequest (request_of Number_toString snapshot image)] |}
    = {| state :=
           with_isCompressing
             (with_images st0
                (batch_images network Number_toString snapshot
                   (requests_made l) (image :: rest) (images st0)))
             false;
         log := l ++ batch_log network Number_toString snapshot
                       (requests_made l) (image :: rest) |}.
Proof.
  induction rest as [|next rest IH]; intros image st0 l.
  - cbn. rewrite <- app_assoc. reflexivity.
  - cbn [drain resume continue state log].
    rewrite IH. rewrite !requests_made_snoc. cbn [is_request].
    rewrite Nat.add_0_r, Nat.add_1_r.
    cbn [images with_images batch_images batch_log].
    rewrite <- !app_assoc. destruct st0. reflexivity.
Qed.

(** X6. A batch that no other event interrupts, taken step by step, ends
    in the state and with the log of [handleCompress] run as a whole. *)
Theorem uninterrupted_batch (w : World) :
  run_to_completion network Number_toString w
  = click_compress network Number_toString w.
Proof.
  destruct w as [st l].
  unfold run_to_completion, start, click_compress. cbn [state log].
  destruct (images st) as [|i0 imgs] eqn:Ei.
  - unfold handleCompress. rewrite Ei. reflexivity.
  - rewrite handleCompress_run by congruence. cbn [List.length Nat.eqb snd].
    rewrite <- Ei.
    destruct (filter eligible (images st)) as [|image rest] eqn:Ef.
    + cbn. rewrite app_nil_r. reflexivity.
    + cbn [continue state log]. rewrite drain_run. reflexivity.
Qed.

(** X7. At every point of a session at most one request is in flight: none
    when no batch runs, exactly one while a batch waits. The busy flag is
    up exactly while a batch waits, so the compress button is disabled
    then and a second batch cannot start before the first has ended; and
    no record is left in status compressing once the batch has ended. *)
Theorem session_one_batch (w : World) (b : Batch) :
  reachable network Number_toString (w, b) ->
  in_flight (log w) = (if is_idle b then 0 else 1)%Z /\
  isCompressing (state w) = negb (is_idle b) /\
  (compress_disabled (state w) = false -> b = Idle) /\
  (b = Idle ->
   forall r, In r (images (state w)) -> status r <> Compressing).
Proof.
  intros Hreach. apply reachable_inv in Hreach.
  destruct Hreach as (_ & _ & _ & Hb).
  destruct b as [|snapshot image n rest]; cbn [is_idle negb].
  - destruct Hb as (H1 & H2 & H3). repeat split; auto.
  - destruct Hb as (H1 & H2 & _). split; [exact H1|]. split; [exact H2|].
    split; [|discriminate]. unfold compress_disabled. rewrite H2.
    discriminate.
Qed.

(** X8. In every session the selected quality is an integer between 10 and
    100, equal to 90, 70 or 50 when the preset is high, medium or low;
    the selected format is original, jpeg, png or webp; and every request
    that was sent carries a file, such a quality and such a format. *)
Theorem session_requests (w : World) (b : Batch) :
  reachable network Number_toString (w, b) ->
  selection_ok (state w) /\ Forall (request_ok Number_toString) (log w).
Proof.
  intros Hreach. apply reachable_inv in Hreach.
  destruct Hreach as (Hs & _ & Hl & _). auto.
Qed.

(** X9. In every session each record of the list has the size of its
    file as original size; a pending or compressing record has no result
    and no error, and its estimate is the one of the current preset and
    quality; a failed record has an error and no result; a compressed
    record has no error. *)
Theorem session_records (w : World) (b : Batch) :
  reachable network Number_toString (w, b) ->
  Forall (record_ok (state w)) (images (state w)).
Proof.
  intros Hreach. apply reachable_inv in Hreach.
  destruct Hreach as (_ & Hr & _). exact Hr.
Qed.

(** X10. When the request of a record settles, the records of other ids
    are left as they are, and the list keeps its ids in their order; if
    the record was removed from the list while its request was in
    flight, the list does not change at all: the result is dropped. *)
Theorem settlement_updates_one_record (snapshot : State) (image : ImageFile)
    (n : nat) (rest : list ImageFile) (w : World) :
  let w' := fst (resume network Number_toString snapshot image n rest w) in
  map id (images (state w')) = map id (images (state w)) /\
  images (state (remove (id image) w'))
  = images (state (remove (id image) w)) /\
  (~ In (id image) (map id (images (state w))) ->
   images (state w') = images (state w)).
Proof.
  assert (E : images (state (fst (resume network Number_toString snapshot
                                    image n rest w)))
              = replace_by_id
                  (settle image
                     (network n (request_of Number_toString snapshot image)))
                  (images (state w))).
  { unfold resume. destruct rest; reflexivity. }
  cbv zeta. rewrite E. split; [|split].
  - apply map_id_replace_by_id.
  - unfold remove, removeImage, setImages. cbn [snd state images with_images].
    rewrite E. clear E. unfold replace_by_id.
    pose proof (id_settle image
                  (network n (request_of Number_toString snapshot image)))
      as Eid.
    set (c := settle image
                (network n (request_of Number_toString snapshot image))) in *.
    rewrite Eid.
    induction (images (state w)) as [|x l IH]; [reflexivity|].
    cbn [map filter].
    destruct (String.eqb (id x) (id image)) eqn:Ex.
    + rewrite Eid, String.eqb_refl. cbn. exact IH.
    + rewrite Ex. cbn. now rewrite IH.
  - intros Hn. apply replace_by_id_absent. now rewrite id_settle.
Qed.

End SessionTheorems.

(** Two uploads, then a click: the request of the first is in flight. *)
Definition sample_session : World * Batch :=
  start sample_toString (on_state (onDrop [upload_a; upload_b]) initial_world).

Lemma session_one_batch_witness :
  in_flight (log (fst sample_session)) = 1%Z /\
  isCompressing (state (fst sample_session)) = true.
Proof.
  assert (Hreach : reachable served sample_toString
                     (fst sample_session, snd sample_session)).
  { apply (reachable_step _ _
             (on_state (onDrop [upload_a; upload_b]) initial_world, Idle)).
    - apply (reachable_step _ _ (initial_world, Idle)).
      + apply reachable_initial.
      + apply step_drop.
    - apply step_click. vm_compute. reflexivity. }
  pose proof (session_one_batch served sample_toString _ _ Hreach) as H.
  split; [exact (proj1 H)|exact (proj1 (proj2 H))].
Defined.

Lemma session_requests_witness :
  Forall (request_ok sample_toString) (log (fst sample_session)).
Proof.
  refine (proj2 (session_requests served sample_toString
                   (fst sample_session) (snd sample_session) _)).
  apply (reachable_step _ _
           (on_state (onDrop [upload_a; upload_b]) initial_world, Idle)).
  - apply (reachable_step _ _ (initial_world, Idle)).
    + apply reachable_initial.
    + apply step_drop.
  - apply step_click. vm_compute. reflexivity.
Defined.

Lemma session_records_witness :
  Forall (record_ok (state (fst sample_session)))
    (images (state (fst sample_session))).
Proof.
  refine (session_records served sample_toString
            (fst sample_session) (snd sample_session) _).
  apply (reachable_step _ _
           (on_state (onDrop [upload_a; upload_b]) initial_world, Idle)).
  - apply (reachable_step _ _ (initial_world, Idle)).
    + apply reachable_initial.
    + apply step_drop.
  - apply step_click. vm_compute. reflexivity.
Defined.

(** The second upload is removed while its request is in flight. *)
Lemma settlement_updates_one_record_witness :
  images (state (fst (resume served sample_toString (state two_uploads)
                        record_b 1 [] (remove "b" two_uploads))))
  = images (state (remove "b" two_uploads)).
Proof.
  refine (proj2 (proj2 (settlement_updates_one_record served sample_toString
                          (state two_uploads) record_b 1 []
                          (remove "b" two_uploads))) _).
  vm_compute. intuition discriminate.
Defined.

(** ** The endpoint: statuses and payload *)

(** The name under which an encoder's output is served. *)
Definition encoder_name (e : Encoder) : string :=
  match e with
  | EncJpeg => "jpeg" | EncPng => "png" | EncWebp => "webp"
  | EncAvif => "avif"
  end.

Lemma select_encoder_name (f : string) :
  snd (select_encoder f) = encoder_name (fst (select_encoder f)).
Proof.
  unfold select_encoder.
  destruct (String.eqb f "jpeg" || String.eqb f "jpg"); [reflexivity|].
  destruct (String.eqb f "png"); [reflexivity|].
  destruct (String.eqb f "webp"); [reflexivity|].
  destruct (String.eqb f "avif"); reflexivity.
Qed.

Lemma select_encoder_button (f : string) :
  In f ["jpeg"; "png"; "webp"] -> snd (select_encoder f) = f.
Proof.
  intros [<-|[<-|[<-|[]]]]; reflexivity.
Qed.

Lemma number_or_truthy (a : option number) (b : number) :
  truthy_number b = true -> truthy_number (number_or a b) = true.
Proof.
  intros Hb. unfold number_or. destruct a as [x|]; [|exact Hb].
  destruct (truthy_number x) eqn:E; [exact E|exact Hb].
Qed.

Section EndpointProperties.

Variable sharp_metadata : list Byte.byte -> option Metadata.
Variable sharp_encode :
  Encoder -> number -> list Byte.byte -> option (list Byte.byte).
Variable base64_encode : list Byte.byte -> string.
Variable parseInt : string -> number.

Let endpoint := POST sharp_metadata sharp_encode base64_encode parseInt.

(** The three ways the endpoint answers. *)
Lemma POST_cases (formData : FormData) :
  let quality0 :=
    number_or (option_map parseInt (fd_quality formData)) 80%float in
  (fd_file formData = None /\
   endpoint formData = error_response 400 "没有上传文件") \/
  (fd_file formData <> None /\
   endpoint formData
   = error_response 500 "图片压缩失败，请检查文件格式是否正确") \/
  (exists file0 metadata encoder compressedBuffer compressedMetadata,
     fd_file formData = Some file0 /\
     sharp_metadata (file_bytes file0) = Some metadata /\
     encoder
     = fst (select_encoder
              (resolve_format (string_or (fd_format formData) "original")
                 (string_or (md_format metadata) "unknown"))) /\
     sharp_encode encoder quality0 (file_bytes file0) = Some compressedBuffer /\
     sharp_metadata compressedBuffer = Some compressedMetadata /\
     endpoint formData
     = {| http_status := 200;
          http_body := BodyJson
            {| json_original := Some
                 {| Original.name := file_name file0;
                    Original.size := buffer_length (file_bytes file0);
                    Original.width := number_or (md_width metadata) 0%float;
                    Original.height := number_or (md_height metadata) 0%float;
                    Original.format := string_or (md_format metadata) "unknown" |};
               json_compressed := Some
                 {| Compressed.size := buffer_length compressedBuffer;
                    Compressed.width :=
                      number_or (md_width compressedMetadata) 0%float;
                    Compressed.height :=
                      number_or (md_height compressedMetadata) 0%float;
                    Compressed.format := encoder_name encoder;
                    Compressed.base64 :=
                      "data:image/" ++ encoder_name encoder ++ ";base64,"
                      ++ base64_encode compressedBuffer |};
               json_compressionRatio :=
                 json_number
                   (compression_ratio (buffer_length compressedBuffer)
                      (buffer_length (file_bytes file0)));
               json_error := None |} |}).
Proof.
  cbv zeta. subst endpoint. unfold POST, internal_error.
  destruct (fd_file formData) as [file0|]; [|left; auto].
  right.
  destruct (sharp_metadata (file_bytes file0)) as [metadata|] eqn:Em;
    [|left; split; [discriminate|reflexivity]].
  pose proof (select_encoder_name
                (resolve_format (string_or (fd_format formData) "original")
                   (string_or (md_format metadata) "unknown"))) as En.
  destruct (select_encoder _) as [encoder outputFormat0] eqn:Es.
  cbn [fst snd] in En. subst outputFormat0.
  destruct (sharp_encode encoder _ _) as [compressedBuffer|] eqn:Ee;
    [|left; split; [discriminate|reflexivity]].
  destruct (sharp_metadata compressedBuffer) as [compressedMetadata|] eqn:Ec;
    [|left; split; [discriminate|reflexivity]].
  right. exists file0, metadata, encoder, compressedBuffer, compressedMetadata.
  split; [reflexivity|]. split; [exact Em|]. split; [now rewrite Es|].
  split; [exact Ee|]. split; [exact Ec|]. reflexivity.
Qed.

(** X11. The endpoint answers with status 200, 400 or 500, and with 400
    exactly when the form has no file. An answer other than 200 carries an
    error message and nothing else: no original, no compressed image and
    no ratio. An answer 200 carries both descriptions and no error. *)
Theorem POST_status (formData : FormData) :
  let r := endpoint formData in
  In (http_status r) [200; 400; 500]%Z /\
  (http_status r = 400%Z <-> fd_file formData = None) /\
  (ok r = true <-> http_status r = 200%Z) /\
  (http_status r <> 200%Z ->
   exists message, r = error_response (http_status r) message) /\
  (http_status r = 200%Z ->
   exists result o c,
     http_body r = BodyJson result /\ json_original result = Some o /\
     json_compressed result = Some c /\ json_error result = None).
Proof.
  cbv zeta.
  destruct (POST_cases formData)
    as [(Hf & E)|[(Hf & E)|(file0 & md & enc & buf & md' & Hf & _ & _ & _ & _ & E)]];
    rewrite E; cbn [http_status error_response http_body].
  - split; [cbn; auto|]. split; [tauto|]. split; [split; discriminate|].
    split; [eauto|discriminate].
  - split; [cbn; auto|]. split; [split; [discriminate|tauto]|].
    split; [split; discriminate|]. split; [eauto|discriminate].
  - split; [cbn; auto|]. split; [split; [discriminate|congruence]|].
    split; [split; reflexivity|]. split; [congruence|].
    intros _. eexists. eexists. eexists. cbn. repeat split.
Qed.

(** X12. What an answer 200 contains. The bytes were produced by one of the
    four encoders, called with a quality that is neither 0 nor NaN: the
    parsed quality field, or 80 when the field is missing or parses to 0
    or NaN. The reported format is the name of that encoder, the data URL
    is [data:image/<format>;base64,] followed by the encoded bytes in
    base 64, the reported sizes are the lengths of the uploaded and of the
    encoded bytes, and the name is the one of the uploaded file. *)
Theorem POST_payload (formData : FormData) :
  let r := endpoint formData in
  let quality0 :=
    number_or (option_map parseInt (fd_quality formData)) 80%float in
  http_status r = 200%Z ->
  exists file0 result o c encoder compressedBuffer,
    fd_file formData = Some file0 /\
    http_body r = BodyJson result /\
    json_original result = Some o /\ json_compressed result = Some c /\
    sharp_encode encoder quality0 (file_bytes file0) = Some compressedBuffer /\
    truthy_number quality0 = true /\
    (fd_quality formData = None -> quality0 = 80%float) /\
    (forall s, fd_quality formData = Some s ->
               quality0 = if truthy_number (parseInt s) then parseInt s
                          else 80%float) /\
    Compressed.format c = encoder_name encoder /\
    Compressed.base64 c
    = ("data:image/" ++ Compressed.format c ++ ";base64,"
       ++ base64_encode compressedBuffer)%string /\
    Compressed.size c = buffer_length compressedBuffer /\
    Original.size o = file_size file0 /\
    Original.name o = file_name file0.
Proof.
  cbv zeta. intros H200.
  destruct (POST_cases formData)
    as [(Hf & E)|[(Hf & E)|(file0 & md & enc & buf & md' & Hf & _ & _ & He & _ & E)]];
    rewrite E in *; try discriminate.
  eexists file0, _, _, _, enc, buf.
  split; [exact Hf|]. split; [reflexivity|]. split; [reflexivity|].
  split; [reflexivity|]. split; [exact He|].
  split; [apply number_or_truthy; vm_compute; reflexivity|].
  split; [intros ->; reflexivity|].
  split; [intros s ->; reflexivity|].
  cbn. repeat split.
Qed.

End EndpointProperties.

Lemma POST_payload_witness :
  exists c,
    http_body (sample_POST (request_of sample_toString (state two_uploads)
                              record_b))
    = BodyJson {| json_original :=
                    Some {| Original.name := "b.gif"; Original.size := 24%float;
                            Original.width := 4%float;
                            Original.height := 5%float;
                            Original.format := "gif" |};
                  json_compressed := Some c;
                  json_compressionRatio := Some 70.83%float;
                  json_error := None |} /\
    Compressed.base64 c = "data:image/jpeg;base64,AAAAAAAAAA==".
Proof.
  destruct (POST_payload sample_metadata sample_encode sample_base64
              sample_parseInt
              (request_of sample_toString (state two_uploads) record_b))
    as (file0 & result & o & c & encoder & buf & _ & Hb & _ & Hc & _).
  - vm_compute. reflexivity.
  - exists c. revert Hb Hc. vm_compute. intros Hb Hc.
    inversion Hb; subst; clear Hb. inversion Hc; subst; clear Hc.
    split; reflexivity.
Defined.

Lemma POST_status_witness :
  http_status (sample_POST {| fd_file := None; fd_quality := Some "70";
                              fd_format := Some "png" |}) = 400%Z.
Proof.
  refine (proj2 (proj1 (proj2
            (POST_status sample_metadata sample_encode sample_base64
               sample_parseInt
               {| fd_file := None; fd_quality := Some "70";
                  fd_format := Some "png" |}))) _).
  reflexivity.
Defined.

(** ** The client against the endpoint *)

Section ClientAndEndpoint.

Variable sharp_metadata : list Byte.byte -> option Metadata.
Variable sharp_encode :
  Encoder -> number -> list Byte.byte -> option (list Byte.byte).
Variable base64_encode : list Byte.byte -> string.
Variable parseInt : string -> number.
Variable Number_toString : number -> string.

Let endpoint := POST sharp_metadata sharp_encode base64_encode parseInt.

(** X13. A record whose request reaches the endpoint, sent under a
    selection the controls can produce and a quality that survives being
    written and parsed. Either the record becomes done: the answer is 200,
    the image was encoded with exactly the selected quality, in the
    selected format when that is not original, and the record holds the
    name and size of its own file and the size, format and data URL of the
    encoded bytes. Or it becomes an error: the answer is 500, never 400,
    the record shows the message of the client, not the one of the
    endpoint, and its result fields are left as they were. *)
Theorem compress_end_to_end (snapshot : State) (image : ImageFile) :
  selection_ok snapshot ->
  parseInt (Number_toString (quality snapshot)) = quality snapshot ->
  let r := endpoint (request_of Number_toString snapshot image) in
  let record := settle image (Resolved r) in
  (status record = Done /\ http_status r = 200%Z /\
   exists encoder compressedBuffer o c,
     sharp_encode encoder (quality snapshot) (file_bytes (file image))
     = Some compressedBuffer /\
     (outputFormat snapshot <> "original" ->
      encoder_name encoder = outputFormat snapshot) /\
     original record = Some o /\ compressed record = Some c /\
     Original.name o = file_name (file image) /\
     Original.size o = file_size (file image) /\
     Compressed.format c = encoder_name encoder /\
     Compressed.size c = buffer_length compressedBuffer /\
     Compressed.base64 c
     = ("data:image/" ++ encoder_name encoder ++ ";base64,"
        ++ base64_encode compressedBuffer)%string) \/
  (status record = Error /\ http_status r = 500%Z /\
   error record = Some "压缩失败" /\
   original record = original image /\
   compressed record = compressed image /\
   compressionRatio record = compressionRatio image).
Proof.
  intros (q & Hq & Eq & _ & Hfmt) Hparse. cbv zeta.
  destruct (POST_cases sharp_metadata sharp_encode base64_encode parseInt
              (request_of Number_toString snapshot image))
    as [(Hf & _)|[(_ & E)|(file0 & md & enc & buf & md' & Hf & _ & Henc & He
                           & _ & E)]].
  - discriminate.
  - right. subst endpoint. rewrite E. cbn. auto 6.
  - left. subst endpoint. rewrite E. cbn [settle ok http_status http_body].
    cbn in Hf. inversion Hf; subst file0; clear Hf.
    cbn [fd_quality request_of option_map number_or] in He.
    rewrite Hparse, Eq, (quality_truthy q Hq), <- Eq in He.
    split; [reflexivity|]. split; [reflexivity|].
    exists enc, buf. eexists. eexists.
    split; [exact He|]. split.
    + intros Hno. rewrite Henc. cbn [fd_format request_of string_or].
      assert (Hb : In (outputFormat snapshot) ["jpeg"; "png"; "webp"]).
      { cbn in Hfmt |- *. intuition congruence. }
      rewrite <- select_encoder_name.
      assert (Es : string_or (Some (outputFormat snapshot)) "original"
                   = outputFormat snapshot).
      { destruct Hb as [<-|[<-|[<-|[]]]]; reflexivity. }
      cbn [string_or] in Es. rewrite Es.
      assert (Er : forall o0, resolve_format (outputFormat snapshot) o0
                              = outputFormat snapshot).
      { intros o0. destruct Hb as [<-|[<-|[<-|[]]]]; reflexivity. }
      rewrite Er. now apply select_encoder_button.
    + cbn. repeat split.
Qed.

End ClientAndEndpoint.

Lemma compress_end_to_end_witness :
  status (settle record_b
            (Resolved (sample_POST (request_of sample_toString
                                      (state two_uploads) record_b))))
  = Done.
Proof.
  destruct (compress_end_to_end sample_metadata sample_encode sample_base64
              sample_parseInt sample_toString (state two_uploads) record_b)
    as [H|H].
  - exists 70%Z. vm_compute. intuition discriminate.
  - reflexivity.
  - exact (proj1 H).
  - exfalso. destruct H as (H & _). vm_compute in H. discriminate.
Defined.

(** ** Downloads ([handleDownload], [handleDownloadZip]) *)

(** The characters [[^/.]] of the pattern [/\.[^/.]+$/]. *)
Definition extension_char (c : ascii) : bool :=
  negb (Ascii.eqb c "/"%char) && negb (Ascii.eqb c "."%char).

Fixpoint extension_chars (s : string) : bool :=
  match s with
  | EmptyString => true
  | String c t => extension_char c && extension_chars t
  end.

(** The pattern matches at the start of [s]: a dot, then one or more
    characters other than a slash and a dot, up to the end. *)
Definition extension_here (s : string) : bool :=
  match s with
  | String c t =>
      Ascii.eqb c "."%char && negb (String.eqb t "") && extension_chars t
  | EmptyString => false
  end.

(** [name.replace(/\.[^/.]+$/, '')]: the leftmost match, which reaches
    the end of the name, is removed. *)
Fixpoint strip_extension (s : string) : string :=
  if extension_here s then EmptyString
  else match s with
       | EmptyString => EmptyString
       | String c t => String c (strip_extension t)
       end.

(** [s.split(sep)] for a separator of one character. *)
Fixpoint split (sep : ascii) (s : string) : list string :=
  match s with
  | EmptyString => [EmptyString]
  | String c t =>
      if Ascii.eqb c sep then EmptyString :: split sep t
      else match split sep t with
           | [] => [String c EmptyString]
           | piece :: pieces => String c piece :: pieces
           end
  end.

(** Lines 158-161 and 181-184: the file name of a download. *)
Definition download_name (image : ImageFile) (c : Compressed.t) : string :=
  let originalName :=
    string_or (option_map Original.name (original image)) "image" in
  let extension := string_or (Some (Compressed.format c)) "jpg" in
  let nameWithoutExt := strip_extension originalName in
  (nameWithoutExt ++ "_compressed." ++ extension)%string.

(** The link [handleDownload] clicks; [None] when it returns early. *)
Record Link := { href : string; download : string }.

Definition handleDownload (image : ImageFile) : option Link :=
  match compressed image with
  | None => None
  | Some c =>
      if String.eqb (Compressed.base64 c) "" then None
      else Some {| href := Compressed.base64 c;
                   download := download_name image c |}
  end.

(** The arguments of the call [zip.file(fileName, base64Data, ...)] that
    [handleDownloadZip] makes for a record: [None] for a record that the
    filter of line 169 or the test of line 178 leaves out; the data is
    [None] when [split(',')[1]] is undefined. *)
Definition zip_entry (img : ImageFile) : option (string * option string) :=
  if Status_eqb (status img) Done then
    match compressed img with
    | None => None
    | Some c =>
        if String.eqb (Compressed.base64 c) "" then None
        else Some (download_name img c,
                   nth_error (split ","%char (Compressed.base64 c)) 1)
    end
  else None.

Fixpoint contains (c : ascii) (s : string) : bool :=
  match s with
  | EmptyString => false
  | String c' t => Ascii.eqb c' c || contains c t
  end.

Lemma extension_chars_app (a b : string) :
  extension_chars (a ++ b) = extension_chars a && extension_chars b.
Proof.
  induction a as [|c a IH]; cbn; [reflexivity|].
  now rewrite IH, andb_assoc.
Qed.

Lemma extension_chars_dot (a b : string) :
  extension_chars (a ++ String "."%char b) = false.
Proof.
  rewrite extension_chars_app. cbn.
  now rewrite andb_false_r.
Qed.

Lemma extension_chars_no_dot (s : string) :
  contains "."%char s = false -> extension_here s = false.
Proof.
  destruct s as [|c t]; [reflexivity|]. cbn. intros H.
  apply orb_false_iff in H. destruct H as [H _]. now rewrite H.
Qed.

Lemma strip_extension_prefix (s : string) :
  strip_extension s = s \/
  exists ext,
    s = (strip_extension s ++ String "."%char ext)%string /\
    ext <> EmptyString /\ extension_chars ext = true.
Proof.
  induction s as [|c t IH].
  - left. reflexivity.
  - cbn [strip_extension]. destruct (extension_here (String c t)) eqn:E.
    + right. cbn in E. apply andb_prop in E. destruct E as [E E3].
      apply andb_prop in E. destruct E as [E1 E2].
      apply Ascii.eqb_eq in E1. subst c. exists t. cbn.
      split; [reflexivity|]. split; [|exact E3].
      intros ->. discriminate.
    + destruct IH as [IH|(ext & E1 & E2 & E3)].
      * left. now rewrite IH.
      * right. exists ext. cbn. rewrite <- E1. auto.
Qed.

Lemma strip_extension_round_trip (stem ext : string) :
  ext <> EmptyString -> extension_chars ext = true ->
  strip_extension (stem ++ String "."%char ext) = stem.
Proof.
  intros Hne Hext. induction stem as [|c stem IH].
  - cbn. rewrite Hext. destruct ext; [congruence|reflexivity].
  - cbn [append strip_extension].
    assert (E : extension_here (String c (stem ++ String "."%char ext))
                = false).
    { cbn. rewrite extension_chars_dot. now rewrite andb_false_r. }
    rewrite E. now rewrite IH.
Qed.

Lemma strip_extension_no_dot (s : string) :
  contains "."%char s = false -> strip_extension s = s.
Proof.
  induction s as [|c t IH]; [reflexivity|]. intros H.
  cbn [strip_extension]. rewrite (extension_chars_no_dot _ H).
  cbn in H. apply orb_false_iff in H. destruct H as [_ H].
  now rewrite IH.
Qed.

(** X14. Removing the extension of a file name. A name that ends in a dot
    followed by one or more characters other than a slash and a dot loses
    that dot and what follows it, whatever comes before (so only the last
    extension goes, and a name that is nothing but an extension becomes
    empty). Every other name is left as it is, in particular a name
    without a dot; and whatever is removed is such an extension. *)
Theorem strip_extension_spec :
  (forall stem ext,
     ext <> EmptyString -> extension_chars ext = true ->
     strip_extension (stem ++ String "."%char ext) = stem) /\
  (forall s, contains "."%char s = false -> strip_extension s = s) /\
  (forall s,
     strip_extension s = s \/
     exists ext,
       s = (strip_extension s ++ String "."%char ext)%string /\
       ext <> EmptyString /\ extension_chars ext = true).
Proof.
  split; [exact strip_extension_round_trip|].
  split; [exact strip_extension_no_dot|exact strip_extension_prefix].
Qed.

Lemma strip_extension_spec_witness :
  strip_extension "archive.tar.gz" = "archive.tar" /\
  strip_extension "README" = "README".
Proof.
  split.
  - refine (proj1 strip_extension_spec "archive.tar" "gz" _ _).
    + discriminate.
    + reflexivity.
  - refine (proj1 (proj2 strip_extension_spec) "README" _). reflexivity.
Defined.

Lemma split_no_separator (sep : ascii) (s : string) :
  contains sep s = false -> split sep s = [s].
Proof.
  induction s as [|c t IH]; [reflexivity|]. cbn. intros H.
  apply orb_false_iff in H. destruct H as [H1 H2].
  now rewrite H1, (IH H2).
Qed.

Lemma split_at_separator (sep : ascii) (a b : string) :
  contains sep a = false ->
  split sep (a ++ String sep b) = a :: split sep b.
Proof.
  induction a as [|c a IH]; cbn.
  - intros _. now rewrite Ascii.eqb_refl.
  - intros H. apply orb_false_iff in H. destruct H as [H1 H2].
    now rewrite H1, (IH H2).
Qed.

Lemma contains_app (c : ascii) (a b : string) :
  contains c (a ++ b) = contains c a || contains c b.
Proof.
  induction a as [|x a IH]; cbn; [reflexivity|].
  now rewrite IH, orb_assoc.
Qed.

Lemma append_assoc (a b c : string) :
  ((a ++ b) ++ c = a ++ (b ++ c))%string.
Proof. induction a as [|x a IH]; cbn; [reflexivity|now rewrite IH]. Qed.

(** The payload of a data URL as the endpoint builds it. *)
Lemma data_url_payload (e : Encoder) (payload : string) :
  contains ","%char payload = false ->
  nth_error
    (split ","%char
       ("data:image/" ++ encoder_name e ++ ";base64," ++ payload)%string) 1
  = Some payload.
Proof.
  intros H.
  replace ("data:image/" ++ encoder_name e ++ ";base64," ++ payload)%string
    with (("data:image/" ++ encoder_name e ++ ";base64")
          ++ String ","%char payload)%string
    by (destruct e; reflexivity).
  rewrite split_at_separator by (destruct e; reflexivity).
  now rewrite split_no_separator.
Qed.

Section DownloadProperties.

Variable sharp_metadata : list Byte.byte -> option Metadata.
Variable sharp_encode :
  Encoder -> number -> list Byte.byte -> option (list Byte.byte).
Variable base64_encode : list Byte.byte -> string.
Variable parseInt : string -> number.
Variable Number_toString : number -> string.

Let endpoint := POST sharp_metadata sharp_encode base64_encode parseInt.

(** X15. A record that the endpoint has compressed can always be
    downloaded: the link points to the data URL of the encoded bytes, and
    the file is named after the uploaded file, without its extension (or
    [image] when the upload has no name), followed by [_compressed.] and
    the name of the encoder. When the base-64 text has no comma, the
    archive gets an entry of the same name whose data is exactly that
    text. A record that is not done gets no entry in the archive. *)
Theorem download_of_compressed_record (snapshot : State) (image : ImageFile) :
  let record :=
    settle image
      (Resolved (endpoint (request_of Number_toString snapshot image))) in
  (status record = Done ->
   exists encoder compressedBuffer,
     let name :=
       (strip_extension (string_or (Some (file_name (file image))) "image")
        ++ "_compressed." ++ encoder_name encoder)%string in
     sharp_encode encoder
       (number_or (Some (parseInt (Number_toString (quality snapshot))))
          80%float)
       (file_bytes (file image)) = Some compressedBuffer /\
     handleDownload record
     = Some {| href := ("data:image/" ++ encoder_name encoder ++ ";base64,"
                        ++ base64_encode compressedBuffer)%string;
               download := name |} /\
     (contains ","%char (base64_encode compressedBuffer) = false ->
      zip_entry record = Some (name, Some (base64_encode compressedBuffer)))) /\
  (status record <> Done -> zip_entry record = None).
Proof.
  cbv zeta. split.
  - destruct (POST_cases sharp_metadata sharp_encode base64_encode parseInt
                (request_of Number_toString snapshot image))
      as [(Hf & _)|[(_ & E)|(file0 & md & enc & buf & md' & Hf & _ & _ & He
                             & _ & E)]].
    + discriminate.
    + subst endpoint. rewrite E. cbn. discriminate.
    + subst endpoint. rewrite E. intros _.
      cbn in Hf. inversion Hf; subst file0; clear Hf.
      exists enc, buf. split; [exact He|].
      assert (Ename : string_or (Some (encoder_name enc)) "jpg"
                      = encoder_name enc) by (destruct enc; reflexivity).
      split.
      * unfold handleDownload, download_name.
        cbn [settle ok http_status http_body Z.leb Z.compare andb negb
             Pos.compare Pos.compare_cont succeeded compressed original
             Compressed.base64 Compressed.format option_map Original.name
             json_compressed json_original].
        rewrite Ename. destruct enc; reflexivity.
      * intros Hc. unfold zip_entry, download_name.
        cbn [settle ok http_status http_body Z.leb Z.compare andb negb
             Pos.compare Pos.compare_cont succeeded compressed original
             Compressed.base64 Compressed.format option_map Original.name
             json_compressed json_original status Status_eqb].
        rewrite Ename, (data_url_payload enc _ Hc).
        destruct enc; reflexivity.
  - intros Hnd. unfold zip_entry.
    destruct (status _); try reflexivity. congruence.
Qed.

End DownloadProperties.

Lemma download_of_compressed_record_witness :
  exists encoder,
    handleDownload
      (settle record_b
         (Resolved (sample_POST (request_of sample_toString
                                   (state two_uploads) record_b))))
    = Some {| href := ("data:image/" ++ encoder_name encoder
                       ++ ";base64,AAAAAAAAAA==")%string;
              download := ("b_compressed." ++ encoder_name encoder)%string |}.
Proof.
  destruct (proj1 (download_of_compressed_record sample_metadata sample_encode
                     sample_base64 sample_parseInt sample_toString
                     (state two_uploads) record_b))
    as (encoder & buf & He & Hd & _).
  - reflexivity.
  - exists encoder. etransitivity; [exact Hd|].
    destruct encoder; reflexivity.
Defined.

(** ** Bounds of the estimate *)

(** The factor the estimator applies under a preset of the component. *)
Definition factor_of (p : Preset) (q : Z) : number :=
  match p with
  | high => 0.7%float
  | medium => 0.45%float
  | low => 0.25%float
  | custom => custom_factor (of_Z q)
  end.

Section EstimateBounds.

Local Open Scope Z_scope.

(** The value of a factor, scaled by [2^60]. *)
Definition factor_scaled (f : number) : Z :=
  match Prim2SF f with
  | S754_finite false m e => Zpos m * 2 ^ (e + 60)
  | _ => 0
  end.

(** A positive normal number that is at most 1. *)
Definition factor_ok (f : number) : bool :=
  match Prim2SF f with
  | S754_finite false m e =>
      bounded prec emax m e && (Zpos (digits2_pos m) =? 53)
      && (-60 <=? e) && (Zpos m * 2 ^ (e + 60) <=? 2 ^ 60)
  | _ => false
  end.

Lemma pow2_pos (k : Z) : 0 <= k -> 0 < 2 ^ k.
Proof. intros Hk. apply Z.pow_pos_nonneg; lia. Qed.

Lemma of_Z_finite (n : positive) :
  Zpos n < 2 ^ 53 ->
  exists mx ex,
    Prim2SF (of_Z (Zpos n)) = S754_finite false mx ex /\
    bounded prec emax mx ex = true /\
    Zpos mx * 2 ^ (ex + scale) = Zpos n * 2 ^ scale.
Proof.
  intros Hn. unfold of_Z.
  destruct (binary_normalize_value n Hn) as [Hv1 Hv2].
  rewrite Prim2SF_SF2Prim by (apply nonneg_valid; exact Hv1).
  pose proof (pow2_pos scale ltac:(unfold scale; lia)) as HS.
  destruct (binary_normalize prec emax (Zpos n) 0 false) as [s|s| |s m e];
    cbn [sval nonneg] in Hv1, Hv2.
  - exfalso. nia.
  - exfalso. rewrite Z.pow_add_r in Hv2 by (unfold scale; lia).
    assert (2 ^ 53 < 2 ^ 1024) by (apply Z.pow_lt_mono_r; lia). nia.
  - discriminate.
  - apply andb_prop in Hv1. destruct Hv1 as [Hs Hb].
    destruct s; [discriminate|]. exists m, e. auto.
Qed.

Lemma size_value (n : Z) :
  0 <= n < 2 ^ 53 ->
  nonneg (Prim2SF (of_Z n)) = true /\
  sval (Prim2SF (of_Z n)) = n * 2 ^ scale.
Proof.
  intros Hn. destruct n as [|p|p]; [| |lia].
  - assert (E : Prim2SF (of_Z 0) = S754_zero false)
      by (vm_compute; reflexivity).
    rewrite E. split; reflexivity.
  - destruct (of_Z_finite p ltac:(lia)) as (mx & ex & E & Hb & Hv).
    rewrite E. cbn [nonneg sval negb andb]. auto.
Qed.

Lemma round64_size (n : Z) :
  0 < n < 2 ^ 53 -> round64 (n * 2 ^ scale) = n * 2 ^ scale.
Proof.
  intros Hn.
  pose proof (pow2_pos scale ltac:(unfold scale; lia)) as HS.
  apply round64_exact; [nia|].
  assert (Hb : 1074 <= binade (n * 2 ^ scale) <= scale).
  { unfold binade. rewrite Z.log2_mul_pow2 by (unfold scale; lia).
    assert (Z.log2 n < 53) by (apply Z.log2_lt_pow2; lia).
    unfold scale. lia. }
  set (b := binade (n * 2 ^ scale)) in *.
  replace (2 ^ scale) with (2 ^ (scale - b) * 2 ^ b)
    by (rewrite <- Z.pow_add_r by lia; f_equal; lia).
  rewrite Z.mul_assoc. apply Z.mod_mul.
  pose proof (pow2_pos b ltac:(lia)). lia.
Qed.

(** The product of a positive size and a factor, before [Math.round]. *)
Lemma product_value (n : positive) (f : number) :
  Zpos n < 2 ^ 53 -> factor_ok f = true ->
  let y := Prim2SF (of_Z (Zpos n) * f)%float in
  nonneg y = true /\
  exists V,
    0 < V /\ V * 2 ^ 60 = Zpos n * 2 ^ scale * factor_scaled f /\
    sval y = Z.min (round64 V) (2 ^ (1024 + scale)).
Proof.
  intros Hn Hf. cbv zeta. rewrite mul_spec. unfold SF64mul.
  destruct (of_Z_finite n Hn) as (mx & ex & E & Hb & Hv). rewrite E.
  unfold factor_ok in Hf. unfold factor_scaled.
  destruct (Prim2SF f) as [| | |s mf ef]; try discriminate.
  destruct s; [discriminate|].
  apply andb_prop in Hf. destruct Hf as [Hf _].
  apply andb_prop in Hf. destruct Hf as [Hf He]. apply Z.leb_le in He.
  apply andb_prop in Hf. destruct Hf as [Hbf Hd]. apply Z.eqb_eq in Hd.
  destruct (SFmul_value mx mf ex ef Hb Hbf Hd) as [Hy Hs].
  split; [exact Hy|].
  destruct (bounded_inv mx ex Hb) as (Hex & _).
  exists (Zpos (mx * mf) * 2 ^ (ex + ef + scale)).
  split; [|split; [|exact Hs]].
  - pose proof (pow2_pos (ex + ef + scale) ltac:(unfold scale; lia)). lia.
  - rewrite <- Hv, Pos2Z.inj_mul.
    assert (Ep : 2 ^ (ex + ef + scale) * 2 ^ 60
                 = 2 ^ (ex + scale) * 2 ^ (ef + 60)).
    { rewrite <- !Z.pow_add_r by (unfold scale; lia). f_equal. lia. }
    rewrite <- (Z.mul_assoc _ (2 ^ (ex + ef + scale))), Ep. ring.
Qed.

(** The product with a factor is not below zero and not above the size. *)
Lemma product_bounds (n : Z) (f : number) :
  0 <= n < 2 ^ 53 -> factor_ok f = true ->
  let y := Prim2SF (of_Z n * f)%float in
  nonneg y = true /\ sval y <= n * 2 ^ scale.
Proof.
  intros Hn Hf. cbv zeta. destruct n as [|p|p]; [| |lia].
  - rewrite mul_spec. unfold SF64mul.
    assert (E : Prim2SF (of_Z 0) = S754_zero false)
      by (vm_compute; reflexivity).
    rewrite E. unfold factor_ok in Hf.
    destruct (Prim2SF f) as [| | |s mf ef]; try discriminate.
    cbn [SFmul nonneg sval]. split; [reflexivity|lia].
  - destruct (product_value p f ltac:(lia) Hf) as (Hy & V & HV & EV & Hs).
    split; [exact Hy|]. rewrite Hs.
    pose proof (pow2_pos scale ltac:(unfold scale; lia)) as HS.
    assert (Hle : factor_scaled f <= 2 ^ 60).
    { unfold factor_ok in Hf. unfold factor_scaled.
      destruct (Prim2SF f) as [| | |s mf ef]; try discriminate.
      destruct s; [discriminate|].
      apply andb_prop in Hf. destruct Hf as [_ Hf]. now apply Z.leb_le in Hf. }
    assert (HVle : V <= Zpos p * 2 ^ scale).
    { assert (H60 : 0 < 2 ^ 60) by (apply pow2_pos; lia).
      apply (Z.mul_le_mono_pos_r _ _ (2 ^ 60)); [exact H60|].
      rewrite EV. apply Z.mul_le_mono_nonneg_l; [lia|exact Hle]. }
    etransitivity; [apply Z.le_min_l|].
    rewrite <- (round64_size (Zpos p)) by lia.
    apply round64_mono; assumption.
Qed.

(** The product grows with the size and with the factor. *)
Lemma product_mono (n1 n2 : Z) (f1 f2 : number) :
  0 <= n1 -> n1 <= n2 -> n2 < 2 ^ 53 ->
  factor_ok f1 = true -> factor_ok f2 = true ->
  factor_scaled f1 <= factor_scaled f2 ->
  let y1 := Prim2SF (of_Z n1 * f1)%float in
  let y2 := Prim2SF (of_Z n2 * f2)%float in
  nonneg y1 = true /\ nonneg y2 = true /\ sval y1 <= sval y2.
Proof.
  intros H1 H12 H2 Hf1 Hf2 Hle. cbv zeta.
  destruct (product_bounds n1 f1 ltac:(lia) Hf1) as [Hy1 Hb1].
  destruct (product_bounds n2 f2 ltac:(lia) Hf2) as [Hy2 Hb2].
  split; [exact Hy1|]. split; [exact Hy2|].
  destruct n1 as [|p1|p1]; [| |lia].
  - etransitivity; [exact Hb1|]. rewrite Z.mul_0_l.
    now apply sval_nonneg.
  - destruct n2 as [|p2|p2]; try lia.
    destruct (product_value p1 f1 ltac:(lia) Hf1) as (_ & V1 & HV1 & EV1 & Hs1).
    destruct (product_value p2 f2 ltac:(lia) Hf2) as (_ & V2 & HV2 & EV2 & Hs2).
    rewrite Hs1, Hs2. apply Z.min_le_compat_r. apply round64_mono; [exact HV1|].
    pose proof (pow2_pos scale ltac:(unfold scale; lia)) as HS.
    assert (H60 : 0 < 2 ^ 60) by (apply pow2_pos; lia).
    apply (Z.mul_le_mono_pos_r _ _ (2 ^ 60)); [exact H60|].
    rewrite EV1, EV2.
    assert (Hf0 : 0 <= factor_scaled f1).
    { unfold factor_scaled. destruct (Prim2SF f1) as [| | |s mf ef]; try lia.
      destruct s; [lia|].
      unfold factor_ok in Hf1.
      destruct (Prim2SF f1) as [| | |s' mf' ef']; try discriminate. nia. }
    apply Z.mul_le_mono_nonneg; nia.
Qed.

Lemma estimateSize_factor (x : number) (p : Preset) (q : Z) :
  10 <= q <= 100 ->
  estimateSize x (preset_key p) (Some (of_Z q))
  = Math_round (x * factor_of p q)%float.
Proof.
  intros Hq. destruct p; cbn [preset_key factor_of].
  - now apply estimateSize_table.
  - now apply estimateSize_table.
  - now apply estimateSize_table.
  - now apply estimateSize_custom.
Qed.

(** Every factor of the component is a positive normal number that is at
    most 1, and none exceeds the one of preset high. *)
Lemma factor_of_ok (p : Preset) (q : Z) :
  10 <= q <= 100 ->
  factor_ok (factor_of p q) = true /\
  factor_scaled (factor_of p q) <= factor_scaled 0.7%float.
Proof.
  intros Hq.
  assert (Hall : forallb
                   (fun z => factor_ok (custom_factor (of_Z z))
                             && (factor_scaled (custom_factor (of_Z z))
                                 <=? factor_scaled 0.7%float))
                   (Z_range 10 91) = true)
    by (vm_compute; reflexivity).
  destruct p; cbn [factor_of].
  - split; [vm_compute; reflexivity|lia].
  - split; [vm_compute; reflexivity|]. vm_compute. discriminate.
  - split; [vm_compute; reflexivity|]. vm_compute. discriminate.
  - pose proof (forallb_Z_range _ 10 91 q Hall ltac:(lia)) as Hc.
    cbv beta in Hc. apply andb_prop in Hc. destruct Hc as [Hc1 Hc2].
    apply Z.leb_le in Hc2. auto.
Qed.

Lemma rounded_le (y1 y2 : number) :
  nonneg (Prim2SF y1) = true -> nonneg (Prim2SF y2) = true ->
  sval (Prim2SF y1) <= sval (Prim2SF y2) ->
  (Math_round y1 <=? Math_round y2)%float = true.
Proof.
  intros Hn1 Hn2 Hle. rewrite leb_spec.
  destruct (Math_round_value _ Hn1) as [Hr1 Hv1].
  destruct (Math_round_value _ Hn2) as [Hr2 Hv2].
  apply SFleb_sval; [exact Hr1|exact Hr2|].
  rewrite Hv1, Hv2. now apply round_scaled_mono.
Qed.

(** The rounded product with a factor lies between zero and the size. *)
Lemma rounded_product_bounds (n : Z) (f : number) :
  0 <= n < 2 ^ 53 -> factor_ok f = true ->
  (0 <=? Math_round (of_Z n * f))%float = true /\
  (Math_round (of_Z n * f) <=? of_Z n)%float = true.
Proof.
  intros Hn Hf.
  destruct (product_bounds n f Hn Hf) as [Hy Hb].
  destruct (Math_round_value _ Hy) as [Hr Hv].
  destruct (size_value n Hn) as [Hsn Hsv].
  split; rewrite leb_spec.
  - change (Prim2SF 0%float) with (S754_zero false).
    apply SFleb_sval; [reflexivity|exact Hr|].
    cbn [sval]. now apply sval_nonneg.
  - apply SFleb_sval; [exact Hr|exact Hsn|].
    rewrite Hv, Hsv, <- (round_scaled_multiple n).
    now apply round_scaled_mono.
Qed.

(** X16. Under every preset of the component and every quality of the
    slider, the estimate of a file of [n] bytes, [n] below [2^53], is not
    below zero and not above [n]. *)
Theorem estimate_within_size (p : Preset) (q n : Z) :
  10 <= q <= 100 -> 0 <= n < 2 ^ 53 ->
  let estimate := estimateSize (of_Z n) (preset_key p) (Some (of_Z q)) in
  (0 <=? estimate)%float = true /\ (estimate <=? of_Z n)%float = true.
Proof.
  intros Hq Hn. cbv zeta. rewrite estimateSize_factor by exact Hq.
  destruct (factor_of_ok p q Hq) as [Hf _].
  now apply rounded_product_bounds.
Qed.

(** X17. Under a fixed preset and quality, a file that is not smaller than
    another gets an estimate that is not smaller. *)
Theorem estimate_monotone_in_size (p : Preset) (q n1 n2 : Z) :
  10 <= q <= 100 -> 0 <= n1 -> n1 <= n2 -> n2 < 2 ^ 53 ->
  (estimateSize (of_Z n1) (preset_key p) (Some (of_Z q))
   <=? estimateSize (of_Z n2) (preset_key p) (Some (of_Z q)))%float = true.
Proof.
  intros Hq H1 H12 H2. rewrite !estimateSize_factor by exact Hq.
  destruct (factor_of_ok p q Hq) as [Hf _].
  destruct (product_mono n1 n2 _ _ H1 H12 H2 Hf Hf (Z.le_refl _))
    as (Hy1 & Hy2 & Hle).
  now apply rounded_le.
Qed.

(** X18. For every file the estimates of the presets are ordered: the one
    of low is not above the one of medium, which is not above the one of
    high; and no custom quality gives an estimate above the one of
    high. *)
Theorem estimate_presets_ordered (q n : Z) :
  10 <= q <= 100 -> 0 <= n < 2 ^ 53 ->
  let estimate p := estimateSize (of_Z n) (preset_key p) (Some (of_Z q)) in
  (estimate low <=? estimate medium)%float = true /\
  (estimate medium <=? estimate high)%float = true /\
  (estimate custom <=? estimate high)%float = true.
Proof.
  intros Hq Hn. cbv zeta beta. rewrite !estimateSize_factor by exact Hq.
  assert (Hstep : forall p1 p2,
            factor_scaled (factor_of p1 q) <= factor_scaled (factor_of p2 q) ->
            (Math_round (of_Z n * factor_of p1 q)
             <=? Math_round (of_Z n * factor_of p2 q))%float = true).
  { intros p1 p2 Hle.
    destruct (factor_of_ok p1 q Hq) as [Hf1 _].
    destruct (factor_of_ok p2 q Hq) as [Hf2 _].
    destruct (product_mono n n _ _ ltac:(lia) (Z.le_refl _) ltac:(lia)
                Hf1 Hf2 Hle) as (Hy1 & Hy2 & Hs).
    now apply rounded_le. }
  split; [|split]; apply Hstep.
  - vm_compute. discriminate.
  - vm_compute. discriminate.
  - apply factor_of_ok. exact Hq.
Qed.

(** X19. In every session, a record that waits for compression or is being
    compressed, of a file below [2^53] bytes, carries an estimate, and
    that estimate is not below zero and not above the size of the file. *)
Theorem session_estimates_within_size
    (network : nat -> FormData -> FetchOutcome)
    (Number_toString : number -> string) (w : World) (b : Batch)
    (img : ImageFile) :
  reachable network Number_toString (w, b) ->
  In img (images (state w)) -> eligible img = true ->
  Z.of_nat (List.length (file_bytes (file img))) < 2 ^ 53 ->
  exists estimate,
    estimatedSize img = Some estimate /\
    (0 <=? estimate)%float = true /\
    (estimate <=? originalSize img)%float = true.
Proof.
  intros Hreach Hin Hel Hsize. apply reachable_inv in Hreach.
  destruct Hreach as ((q & Hq & Eq & _) & Hr & _).
  rewrite Forall_forall in Hr. destruct (Hr img Hin) as (Eo & _ & Hsync).
  specialize (Hsync Hel). unfold in_sync in Hsync.
  eexists. split; [exact Hsync|].
  rewrite Eo, Eq. unfold file_size.
  rewrite estimateSize_factor by exact Hq.
  destruct (factor_of_ok (qualityPreset (state w)) q Hq) as [Hf _].
  apply rounded_product_bounds; [lia|exact Hf].
Qed.

End EstimateBounds.

Lemma estimate_within_size_witness :
  (0 <=? estimateSize (of_Z 45) "high" (Some (of_Z 90)))%float = true /\
  (estimateSize (of_Z 45) "high" (Some (of_Z 90)) <=? of_Z 45)%float = true.
Proof.
  apply (estimate_within_size high 90 45); [lia|].
  split; [lia|reflexivity].
Defined.

Lemma estimate_monotone_in_size_witness :
  (estimateSize (of_Z 20) "custom" (Some (of_Z 55))
   <=? estimateSize (of_Z 24) "custom" (Some (of_Z 55)))%float = true.
Proof.
  apply (estimate_monotone_in_size custom 55 20 24); [lia|lia|lia|].
  reflexivity.
Defined.

Lemma estimate_presets_ordered_witness :
  (estimateSize (of_Z 1000000) "low" (Some (of_Z 55))
   <=? estimateSize (of_Z 1000000) "medium" (Some (of_Z 55)))%float = true.
Proof.
  refine (proj1 (estimate_presets_ordered 55 1000000 _ _)); [lia|].
  split; [lia|reflexivity].
Defined.

Lemma session_estimates_within_size_witness :
  exists estimate,
    estimatedSize record_b = Some estimate /\
    (0 <=? estimate)%float = true /\
    (estimate <=? originalSize record_b)%float = true.
Proof.
  refine (session_estimates_within_size served sample_toString
            (on_state (onDrop [upload_a; upload_b]) initial_world) Idle
            record_b _ _ _ _).
  - apply (reachable_step _ _ (initial_world, Idle)).
    + apply reachable_initial.
    + apply step_drop.
  - right. left. reflexivity.
  - reflexivity.
  - reflexivity.
Defined.

(** * Reading a decimal with two places

    [parseFloat] of the text produced by [toFixed(2)] is the correctly
    rounded quotient of the number of hundredths by 100. The rounding of
    a quotient starts from a location (exact, below, at or above the
    middle), which is related here to the rounding of an integer. *)

Section DecimalParsing.

Local Open Scope Z_scope.

(** [rne] picks a nearest multiple of [2^K]. *)
Lemma rne_nearest (V K : Z) :
  0 <= K -> 2 * Z.abs (rne V K * 2 ^ K - V) <= 2 ^ K.
Proof.
  intros HK.
  assert (HP : 0 < 2 ^ K) by (apply Z.pow_pos_nonneg; lia).
  pose proof (Z.div_mod V (2 ^ K) ltac:(lia)) as Hdm.
  pose proof (Z.mod_pos_bound V (2 ^ K) HP) as Hb.
  unfold rne.
  set (q := V / 2 ^ K) in *. set (r := V mod 2 ^ K) in *.
  set (D := 2 ^ K) in *.
  destruct (Z.ltb_spec (2 * r) D).
  - replace (q * D - V) with (- r) by lia. lia.
  - destruct (Z.ltb_spec D (2 * r)).
    + replace ((q + 1) * D - V) with (D - r) by lia. lia.
    + destruct (Z.even q).
      * replace (q * D - V) with (- r) by lia. lia.
      * replace ((q + 1) * D - V) with (D - r) by lia. lia.
Qed.

(** A location as the two bits below the quotient. *)
Definition loc_code (l : location) : Z :=
  match l with
  | loc_Exact => 0
  | loc_Inexact Lt => 1
  | loc_Inexact Eq => 2
  | loc_Inexact Gt => 3
  end.

Definition loc_pos (q : positive) (l : location) : positive :=
  match l with
  | loc_Exact => q~0~0
  | loc_Inexact Lt => q~0~1
  | loc_Inexact Eq => q~1~0
  | loc_Inexact Gt => q~1~1
  end%positive.

Lemma loc_pos_value (q : positive) (l : location) :
  Zpos (loc_pos q l) = 4 * Zpos q + loc_code l.
Proof. destruct l as [|[ | | ]]; cbn [loc_pos loc_code]; lia. Qed.

Lemma loc_pos_digits (q : positive) (l : location) :
  Zpos (digits2_pos (loc_pos q l)) = Zpos (digits2_pos q) + 2.
Proof. destruct l as [|[ | | ]]; cbn [loc_pos digits2_pos]; lia. Qed.

Lemma shifted_start_loc (q : Z) (l : location) :
  0 <= q -> shifted (4 * q + loc_code l) 2 (shr_record_of_loc q l).
Proof.
  intros Hq. unfold shifted.
  change (2 ^ (2 + 1)) with 8. change (2 ^ 2) with 4.
  destruct l as [|[ | | ]];
    cbn [shr_record_of_loc shr_m shr_r shr_s loc_code];
    (split; [exact Hq|]).
  - exists 0. split; [lia|]. split; [lia|]. split; intros; [discriminate|lia].
  - exists 0. split; [lia|]. split; [lia|]. split; intros; [discriminate|lia].
  - exists 2. split; [lia|]. split; [lia|]. split; intros; [lia|reflexivity].
  - exists 2. split; [lia|]. split; [lia|]. split; intros; [lia|reflexivity].
Qed.

Lemma shifted_iter_from (M j : Z) (mrs : shr_record) (n : nat) :
  0 <= j -> shifted M j mrs ->
  shifted M (j + Z.of_nat n) (Nat.iter n shr_1 mrs).
Proof.
  intros Hj Hs. induction n as [|n IH].
  - now rewrite Z.add_0_r.
  - rewrite Nat2Z.inj_succ. cbn [Nat.iter].
    replace (j + Z.succ (Z.of_nat n)) with (j + Z.of_nat n + 1) by lia.
    apply shifted_step; [lia|exact IH].
Qed.

(** The first half of [binary_round_aux], from any location. *)
Lemma shr_fexp_rne_loc (q : positive) (e : Z) (l : location) :
  let E := fexp prec emax (Zpos (digits2_pos q) + e) in
  e <= E ->
  let '(mrs, e') := shr_fexp prec emax (Zpos q) e l in
  e' = E /\
  round_nearest_even (shr_m mrs) (loc_of_shr_record mrs)
  = rne (4 * Zpos q + loc_code l) (E - e + 2).
Proof.
  intros E HE. unfold shr_fexp. cbn [Zdigits2]. fold E.
  destruct (E - e) as [|k|k] eqn:Ek; try lia; cbn [shr].
  - split; [lia|]. apply shifted_rne; [lia|].
    apply shifted_start_loc. lia.
  - split; [lia|]. rewrite iter_pos_nat.
    apply shifted_rne; [lia|].
    replace (Zpos k + 2) with (2 + Z.of_nat (Pos.to_nat k))
      by (rewrite positive_nat_Z; lia).
    apply shifted_iter_from; [lia|]. apply shifted_start_loc. lia.
Qed.

Definition with_sign (s : bool) (y : spec_float) : spec_float :=
  match y with
  | S754_zero _ => S754_zero s
  | S754_finite _ m e => S754_finite s m e
  | S754_infinity _ => S754_infinity s
  | S754_nan => S754_nan
  end.

(** Rounding from a location is rounding the integer that carries the
    location in its two lowest bits, and the sign is only copied. *)
Lemma binary_round_aux_loc (s : bool) (q : positive) (e : Z) (l : location) :
  e <= fexp prec emax (Zpos (digits2_pos q) + e) ->
  binary_round_aux prec emax s (Zpos q) e l
  = with_sign s
      (binary_round_aux prec emax false (Zpos (loc_pos q l)) (e - 2)
         loc_Exact).
Proof.
  intros HE.
  pose proof (shr_fexp_rne_loc q e l HE) as H1.
  assert (HE2 : e - 2 <= fexp prec emax (Zpos (digits2_pos (loc_pos q l))
                                        + (e - 2))).
  { rewrite loc_pos_digits.
    replace (Zpos (digits2_pos q) + 2 + (e - 2))
      with (Zpos (digits2_pos q) + e) by lia. lia. }
  pose proof (shr_fexp_rne (loc_pos q l) (e - 2) HE2) as H2.
  cbv zeta in H1, H2. rewrite loc_pos_digits in H2.
  replace (Zpos (digits2_pos q) + 2 + (e - 2))
    with (Zpos (digits2_pos q) + e) in H2 by lia.
  unfold binary_round_aux.
  destruct (shr_fexp prec emax (Zpos q) e l) as [mrs1 e1].
  destruct (shr_fexp prec emax (Zpos (loc_pos q l)) (e - 2) loc_Exact)
    as [mrs2 e2].
  destruct H1 as [-> R1]. destruct H2 as [-> R2].
  rewrite loc_pos_value in R2. rewrite R1, R2.
  replace (fexp prec emax (Zpos (digits2_pos q) + e) - (e - 2))
    with (fexp prec emax (Zpos (digits2_pos q) + e) - e + 2) by lia.
  destruct (shr_fexp prec emax _ _ loc_Exact) as [mrs3 e3].
  destruct (shr_m mrs3); [reflexivity| |reflexivity].
  destruct (e3 <=? emax - prec); reflexivity.
Qed.

End DecimalParsing.

Section DecimalQuotient.

Local Open Scope Z_scope.

(** The error of the rounded quotient by 100, in integers: [N] is the
    rounding at [4 * P4] of [4 * q + c], where [c] is the location of the
    remainder [r]. *)
Lemma quotient_error (N P4 q r c : Z) :
  (P4 = 1 \/ exists h, 0 < h /\ P4 = 2 * h) ->
  0 <= r < 100 ->
  (c = 0 /\ r = 0) \/ (c = 1 /\ 0 < 2 * r < 100) \/
  (c = 2 /\ 2 * r = 100) \/ (c = 3 /\ 100 < 2 * r) ->
  2 * Z.abs (N * (4 * P4) - (4 * q + c)) <= 4 * P4 ->
  2 * Z.abs (100 * (N * (4 * P4)) - 4 * (100 * q + r)) <= 100 * (4 * P4).
Proof.
  intros HP Hr Hc Hn.
  replace (N * (4 * P4)) with (4 * (N * P4)) in * by ring.
  set (NP := N * P4) in *.
  destruct HP as [->|(h & Hh & ->)];
    destruct Hc as [[-> Hc]|[[-> Hc]|[[-> Hc]|[-> Hc]]]]; lia.
Qed.

Lemma new_location_hundred (r : Z) :
  0 <= r < 100 ->
  let c := loc_code (new_location 100 r) in
  (c = 0 /\ r = 0) \/ (c = 1 /\ 0 < 2 * r < 100) \/
  (c = 2 /\ 2 * r = 100) \/ (c = 3 /\ 100 < 2 * r).
Proof.
  intros Hr. cbv zeta. unfold new_location. cbn [Z.even].
  unfold new_location_even.
  destruct (Z.eqb_spec r 0) as [->|Hn]; [left; split; reflexivity|].
  destruct (Z.compare_spec (2 * r) 100) as [E|E|E]; cbn [loc_code].
  - right. right. left. lia.
  - right. left. lia.
  - right. right. right. lia.
Qed.

(** The quotient and the remainder that [SFdiv] rounds, for an integer
    divided by 100. *)
Lemma SFdiv_core_hundred (p : positive) :
  let e' := Z.min (Zpos (digits2_pos p) - 60) 0 in
  let m' := Zpos p * 2 ^ (- e') in
  SFdiv_core_binary prec emax (Zpos p) 0 100 0
  = (m' / 100, e', new_location 100 (m' mod 100)).
Proof.
  cbv zeta. unfold SFdiv_core_binary. cbn [Zdigits2].
  change (Zpos (digits2_pos 100)) with 7. rewrite fexp64.
  set (d1 := Zpos (digits2_pos p)).
  assert (Hd : 1 <= d1) by (subst d1; lia).
  replace (Z.min (Z.max (d1 + 0 - (7 + 0) - 53) (-1074)) (0 - 0))
    with (Z.min (d1 - 60) 0) by lia.
  set (e' := Z.min (d1 - 60) 0).
  replace (0 - 0 - e') with (- e') by lia.
  assert (Em : match - e' with
               | Zpos _ => Z.shiftl (Zpos p) (- e')
               | 0 => Zpos p
               | Zneg _ => 0
               end = Zpos p * 2 ^ (- e')).
  { destruct (- e') as [|k|k] eqn:Ek.
    - cbn. lia.
    - now rewrite Z.shiftl_mul_pow2 by lia.
    - exfalso. subst e'. lia. }
  rewrite Em. unfold Z.div, Z.modulo.
  destruct (Z.div_eucl (Zpos p * 2 ^ (- e')) 100) as [q r]. reflexivity.
Qed.

(** A non-negative number of a positive value below the infinity is
    finite. *)
Lemma nonneg_finite (y : spec_float) (R : Z) :
  nonneg y = true -> sval y = R -> 0 < R < 2 ^ (1024 + scale) ->
  exists m e, y = S754_finite false m e /\ bounded prec emax m e = true /\
              Zpos m * 2 ^ (e + scale) = R.
Proof.
  intros Hn Hs HR. destruct y as [s|s| |s m e]; cbn [nonneg sval] in *.
  - lia.
  - lia.
  - discriminate.
  - apply andb_prop in Hn. destruct Hn as [Hsg Hb].
    destruct s; [discriminate|]. exists m, e. auto.
Qed.

(** The quotient of a positive integer by 100, as [SFdiv] computes it: a
    finite number of the sign of the dividend, within half a unit in the
    last place of the exact quotient. *)
Lemma SFdiv_hundred (s : bool) (p : positive) :
  Zpos p < 2 ^ 900 ->
  exists mv ev,
    SFdiv prec emax (S754_finite s p 0) (S754_finite false 100 0)
    = S754_finite s mv ev /\
    bounded prec emax mv ev = true /\
    2 * Z.abs (100 * (Zpos mv * 2 ^ (ev + scale)) - Zpos p * 2 ^ scale)
    <= 100 * 2 ^ (ev + scale).
Proof.
  intros Hp. cbn [SFdiv]. rewrite xorb_false_r.
  pose proof (SFdiv_core_hundred p) as Hcore. cbv zeta in Hcore.
  rewrite Hcore. clear Hcore.
  set (d1 := Zpos (digits2_pos p)) in *.
  set (e' := Z.min (d1 - 60) 0) in *.
  set (m' := Zpos p * 2 ^ (- e')) in *.
  assert (Hd1 : 1 <= d1 <= 900).
  { subst d1. split; [lia|]. apply digits_le; [lia|exact Hp]. }
  assert (He' : -59 <= e' <= 0) by (subst e'; lia).
  destruct (digits2_bounds p) as [Hpl Hpu]. fold d1 in Hpl, Hpu.
  assert (Hm'lo : 2 ^ 59 <= m').
  { subst m'. destruct (Z_le_gt_dec d1 60) as [Hle|Hgt].
    - replace (- e') with (60 - d1) by (subst e'; lia).
      replace 59 with ((d1 - 1) + (60 - d1)) by lia.
      rewrite Z.pow_add_r by lia.
      apply Z.mul_le_mono_nonneg_r; [apply Z.pow_nonneg; lia|exact Hpl].
    - replace (- e') with 0 by (subst e'; lia).
      rewrite Z.pow_0_r, Z.mul_1_r.
      eapply Z.le_trans; [|exact Hpl]. apply Z.pow_le_mono_r; lia. }
  assert (Hm'hi : m' < 2 ^ 900).
  { subst m'. destruct (Z_le_gt_dec d1 60) as [Hle|Hgt].
    - replace (- e') with (60 - d1) by (subst e'; lia).
      apply Z.lt_le_trans with (2 ^ d1 * 2 ^ (60 - d1)).
      + apply Z.mul_lt_mono_pos_r; [apply Z.pow_pos_nonneg; lia|exact Hpu].
      + rewrite <- Z.pow_add_r by lia. apply Z.pow_le_mono_r; lia.
    - replace (- e') with 0 by (subst e'; lia).
      rewrite Z.pow_0_r, Z.mul_1_r. exact Hp. }
  pose proof (Z.div_mod m' 100 ltac:(lia)) as Hdm.
  pose proof (Z.mod_pos_bound m' 100 ltac:(lia)) as Hr.
  set (q := m' / 100) in *. set (r := m' mod 100) in *.
  assert (Hq52 : 2 ^ 52 <= q).
  { change (2 ^ 59) with 576460752303423488 in Hm'lo.
    change (2 ^ 52) with 4503599627370496. lia. }
  assert (Hqhi : q < 2 ^ 900) by lia.
  destruct q as [|qp|qp] eqn:Eq; [exfalso; cbn in Hq52; lia| |lia].
  set (dq := Zpos (digits2_pos qp)).
  assert (Hdq : 53 <= dq <= 900).
  { subst dq. split; [apply (digits_ge qp 52); [lia|exact Hq52]|].
    apply digits_le; [lia|exact Hqhi]. }
  assert (HE : e' <= fexp prec emax (dq + e')) by (rewrite fexp64; lia).
  cbv beta iota.
  rewrite binary_round_aux_loc by exact HE.
  set (l := new_location 100 r).
  assert (HE2 : e' - 2 <= fexp prec emax (Zpos (digits2_pos (loc_pos qp l))
                                         + (e' - 2))).
  { rewrite loc_pos_digits. fold dq. rewrite fexp64. lia. }
  destruct (binary_round_aux_correct (loc_pos qp l) (e' - 2) HE2
              ltac:(unfold scale; lia)) as [Hn Hs].
  set (y0 := binary_round_aux prec emax false (Zpos (loc_pos qp l)) (e' - 2)
               loc_Exact) in *.
  set (a := e' - 2 + scale) in *.
  assert (Ha : 0 <= a) by (subst a; unfold scale; lia).
  set (Meq := Zpos (loc_pos qp l)) in *.
  assert (EMeq : Meq = 4 * Zpos qp + loc_code l)
    by (subst Meq; apply loc_pos_value).
  set (V := Meq * 2 ^ a) in *.
  assert (HV : 0 < V).
  { subst V. apply Z.mul_pos_pos; [subst Meq; lia|].
    apply Z.pow_pos_nonneg; lia. }
  assert (HK : binade V = dq - 51 + a).
  { subst V Meq a. rewrite binade_scaled by (unfold scale; lia).
    rewrite loc_pos_digits. fold dq. rewrite fexp64. lia. }
  set (K' := dq - 51).
  assert (HK' : 2 <= K') by (subst K'; lia).
  assert (Hrne : rne V (binade V) = rne Meq K').
  { rewrite HK. subst V. apply rne_scale; lia. }
  set (N := rne Meq K') in *.
  pose proof (rne_nearest Meq K' ltac:(lia)) as Hnear. fold N in Hnear.
  pose proof (rne_bounds V (binade V)) as Hb. rewrite Hrne in Hb.
  pose proof (quotient_lt V HV) as Hlt.
  pose proof (quotient_ge V HV ltac:(rewrite HK; subst a; unfold scale; lia))
    as Hge.
  assert (HN : 2 ^ 52 <= N <= 2 ^ 53) by lia.
  assert (Hround : round64 V = N * 2 ^ (K' + a)).
  { unfold round64. rewrite Hrne, HK. reflexivity. }
  rewrite Hround in Hs.
  assert (HPK : 0 < 2 ^ (K' + a)) by (apply Z.pow_pos_nonneg; lia).
  assert (Htop : N * 2 ^ (K' + a) < 2 ^ (1024 + scale)).
  { apply Z.le_lt_trans with (2 ^ 53 * 2 ^ (K' + a)).
    - apply Z.mul_le_mono_nonneg_r; lia.
    - rewrite <- Z.pow_add_r by lia.
      apply Z.pow_lt_mono_r; [lia|unfold scale; lia|].
      subst K' a. unfold scale. lia. }
  rewrite Z.min_l in Hs by lia.
  destruct (nonneg_finite y0 _ Hn Hs) as (mv & ev & Ey & Hbv & Hval).
  { split; [|exact Htop]. apply Z.mul_pos_pos; lia. }
  exists mv, ev. rewrite Ey. cbn [with_sign].
  split; [reflexivity|]. split; [exact Hbv|].
  (* the exponent of the result is not below the rounding position *)
  destruct (bounded_inv mv ev Hbv) as (Hev & Hdv & _).
  assert (Hmv : Zpos mv < 2 ^ 53).
  { destruct (digits2_bounds mv) as [_ Hu].
    eapply Z.lt_le_trans; [exact Hu|]. apply Z.pow_le_mono_r; lia. }
  assert (Hexp : K' + a <= ev + scale).
  { destruct (Z_le_gt_dec (K' + a) (ev + scale)) as [|Hgt]; [assumption|].
    exfalso.
    assert (Hpw : 2 * 2 ^ (ev + scale) <= 2 ^ (K' + a)).
    { replace (2 * 2 ^ (ev + scale)) with (2 ^ (ev + scale + 1))
        by (rewrite Z.pow_add_r by (unfold scale; lia); lia).
      apply Z.pow_le_mono_r; lia. }
    assert (0 < 2 ^ (ev + scale))
      by (apply Z.pow_pos_nonneg; unfold scale; lia).
    change (2 ^ 53) with (2 * 2 ^ 52) in Hmv.
    nia. }
  apply Z.le_trans with (100 * 2 ^ (K' + a));
    [|apply Z.mul_le_mono_nonneg_l; [lia|apply Z.pow_le_mono_r; lia]].
  rewrite Hval.
  (* the error of the rounding, at the scale of the quotient *)
  assert (Hp4 : exists P4, 2 ^ K' = 4 * P4 /\
                           (P4 = 1 \/ exists h, 0 < h /\ P4 = 2 * h)).
  { exists (2 ^ (K' - 2)). split.
    - replace K' with (2 + (K' - 2)) at 1 by lia.
      rewrite Z.pow_add_r by lia. reflexivity.
    - destruct (Z.eq_dec K' 2) as [->|Hne]; [left; reflexivity|].
      right. exists (2 ^ (K' - 3)). split; [apply Z.pow_pos_nonneg; lia|].
      replace (K' - 2) with (1 + (K' - 3)) by lia.
      rewrite Z.pow_add_r by lia. reflexivity. }
  destruct Hp4 as (P4 & EP & HP4).
  pose proof (new_location_hundred r Hr) as Hloc. cbv zeta in Hloc.
  fold l in Hloc.
  rewrite EP, EMeq in Hnear.
  pose proof (quotient_error N P4 (Zpos qp) r (loc_code l) HP4 Hr Hloc Hnear)
    as Herr.
  (* back to the scale of the values *)
  assert (Etrue : Zpos p * 2 ^ scale = (100 * Zpos qp + r) * (4 * 2 ^ a)).
  { rewrite <- Hdm. subst m' a.
    replace (4 * 2 ^ (e' - 2 + scale)) with (2 ^ (e' + scale)).
    - rewrite <- Z.mul_assoc, <- Z.pow_add_r by (unfold scale; lia).
      do 2 f_equal. lia.
    - replace (e' + scale) with (2 + (e' - 2 + scale)) by lia.
      rewrite Z.pow_add_r by (unfold scale; lia). reflexivity. }
  rewrite Etrue, (Z.pow_add_r 2 K' a), EP by lia.
  assert (HPa : 0 < 2 ^ a) by (apply Z.pow_pos_nonneg; lia).
  replace (100 * (N * (4 * P4 * 2 ^ a)) - (100 * Zpos qp + r) * (4 * 2 ^ a))
    with ((100 * (N * (4 * P4)) - 4 * (100 * Zpos qp + r)) * 2 ^ a) by ring.
  rewrite Z.abs_mul, (Z.abs_eq (2 ^ a)) by lia.
  replace (100 * (4 * P4 * 2 ^ a)) with (100 * (4 * P4) * 2 ^ a) by ring.
  rewrite Z.mul_assoc. apply Z.mul_le_mono_nonneg_r; [lia|exact Herr].
Qed.

End DecimalQuotient.

(** ** The surfaced ratio *)

(** [m * 2^e] is within half a unit in its last place of [n / 100]:
    [|m * 2^e - n / 100| <= 2^e / 2], as for a number nearest to
    [n / 100]. *)
Definition within_half_ulp (n : Z) (m : positive) (e : Z) : Prop :=
  (0 <= e -> 2 * Z.abs (100 * Zpos m * 2 ^ e - n) <= 100 * 2 ^ e)%Z /\
  (e < 0 -> 2 * Z.abs (100 * Zpos m - n * 2 ^ (- e)) <= 100)%Z.

Section RatioValue.

Local Open Scope Z_scope.

Lemma json_number_finite (v : number) (s : bool) (m : positive) (e : Z) :
  Prim2SF v = S754_finite s m e -> json_number v = Some v.
Proof.
  intros Hv. unfold json_number, is_finite, is_nan, is_infinity, is_zero.
  rewrite !FloatAxioms.eqb_spec, abs_spec, Hv.
  change (Prim2SF PrimFloat.infinity) with (S754_infinity false).
  change (Prim2SF PrimFloat.zero) with (S754_zero false).
  unfold SFeqb. cbn [SFabs SFcompare].
  destruct s; rewrite Z.compare_refl, Pos.compare_cont_refl; reflexivity.
Qed.

Lemma json_number_zero (v : number) (s : bool) :
  Prim2SF v = S754_zero s -> json_number v = Some 0%float.
Proof.
  intros Hv. unfold json_number, is_finite, is_nan, is_infinity, is_zero.
  rewrite !FloatAxioms.eqb_spec, abs_spec, Hv. reflexivity.
Qed.

Lemma json_number_not_finite (v : number) :
  Prim2SF v = S754_nan \/ (exists s, Prim2SF v = S754_infinity s) ->
  json_number v = None.
Proof.
  intros Hv. unfold json_number, is_finite, is_nan, is_infinity.
  rewrite !FloatAxioms.eqb_spec, abs_spec.
  destruct Hv as [->|[s ->]]; [reflexivity|]. destruct s; reflexivity.
Qed.

(** Reading a positive number of hundredths. *)
Lemma parseFloat_fixed_nearest (s : bool) (p : positive) :
  Zpos p < 2 ^ 900 ->
  exists mv ev,
    Prim2SF (parseFloat_fixed (TextDecimal s (Zpos p)))
    = S754_finite s mv ev /\
    within_half_ulp (Zpos p) mv ev.
Proof.
  intros Hp. destruct (SFdiv_hundred s p Hp) as (mv & ev & Ey & Hb & Herr).
  exists mv, ev. cbn [parseFloat_fixed]. rewrite Ey.
  rewrite Prim2SF_SF2Prim by exact Hb. split; [reflexivity|].
  destruct (bounded_inv mv ev Hb) as (Hev & _).
  assert (HS : 0 < 2 ^ scale) by (apply Z.pow_pos_nonneg; unfold scale; lia).
  assert (HES : 0 < 2 ^ (ev + scale))
    by (apply Z.pow_pos_nonneg; unfold scale; lia).
  split; intros He.
  - rewrite Z.pow_add_r in Herr by (unfold scale; lia).
    replace (100 * (Zpos mv * (2 ^ ev * 2 ^ scale)) - Zpos p * 2 ^ scale)
      with ((100 * Zpos mv * 2 ^ ev - Zpos p) * 2 ^ scale) in Herr by ring.
    rewrite Z.abs_mul, (Z.abs_eq (2 ^ scale)) in Herr by lia.
    rewrite !Z.mul_assoc in Herr.
    apply Z.mul_le_mono_pos_r in Herr; [|exact HS]. lia.
  - assert (E : 2 ^ scale = 2 ^ (- ev) * 2 ^ (ev + scale)).
    { rewrite <- Z.pow_add_r by (unfold scale; lia). f_equal. lia. }
    rewrite E in Herr.
    replace (100 * (Zpos mv * 2 ^ (ev + scale))
             - Zpos p * (2 ^ (- ev) * 2 ^ (ev + scale)))
      with ((100 * Zpos mv - Zpos p * 2 ^ (- ev)) * 2 ^ (ev + scale))
      in Herr by ring.
    rewrite Z.abs_mul, (Z.abs_eq (2 ^ (ev + scale))) in Herr by lia.
    rewrite !Z.mul_assoc in Herr.
    apply Z.mul_le_mono_pos_r in Herr; [|exact HES]. lia.
Qed.

(** A number below 1e21 has at most 2^900 hundredths. *)
Lemma nearest_hundredths_bound (x : number) (s : bool) (m : positive)
    (e : Z) :
  Prim2SF x = S754_finite s m e ->
  (PrimFloat.abs x <? 1e21)%float = true ->
  0 <= nearest_hundredths m e < 2 ^ 900.
Proof.
  intros Hx Hlt.
  pose proof (Prim2SF_valid x) as Hv. rewrite Hx in Hv. cbn in Hv.
  destruct (bounded_inv m e Hv) as (He & Hd & _).
  assert (Hm : Zpos m < 2 ^ 53).
  { destruct (digits2_bounds m) as [_ Hu].
    eapply Z.lt_le_trans; [exact Hu|]. apply Z.pow_le_mono_r; lia. }
  rewrite ltb_spec, abs_spec, Hx in Hlt. cbn [SFabs] in Hlt.
  remember (Prim2SF 1e21%float) as t eqn:Et. vm_compute in Et. subst t.
  unfold SFltb in Hlt. cbn [SFcompare] in Hlt.
  assert (He17 : e <= 17).
  { destruct (Z.compare_spec e 17); [lia|lia|discriminate]. }
  clear Hlt.
  destruct (nearest_hundredths_spec m e) as [Hpos Hneg].
  set (n := nearest_hundredths m e) in *.
  destruct (Z_le_gt_dec 0 e) as [H0|H0].
  - rewrite (Hpos H0).
    assert (HP : 0 < 2 ^ e) by (apply Z.pow_pos_nonneg; lia).
    split; [lia|].
    apply Z.le_lt_trans with (100 * 2 ^ 53 * 2 ^ 17).
    + apply Z.mul_le_mono_nonneg; try lia. apply Z.pow_le_mono_r; lia.
    + vm_compute. reflexivity.
  - specialize (Hneg ltac:(lia)).
    assert (HP : 2 <= 2 ^ (- e)).
    { change 2 with (2 ^ 1) at 1. apply Z.pow_le_mono_r; lia. }
    assert (Hn0 : 0 <= n) by nia.
    split; [exact Hn0|].
    apply Z.le_lt_trans with (100 * 2 ^ 53); [nia|vm_compute; reflexivity].
Qed.

End RatioValue.

(** What a record shows for a ratio [raw] computed by the endpoint:
    nothing when [raw] is not a number or is infinite; [0] when it is a
    zero; for a finite [raw] below 1e21 in absolute value, with [n] the
    number of hundredths nearest to it, [0] when [n] is 0 and otherwise
    a number of the sign of [raw] within half a unit in its last place of
    [n / 100]; and [raw] itself from 1e21 on, where [toFixed] writes all
    the digits of the number. *)
Definition two_decimals (raw : number) (shown : option number) : Prop :=
  match Prim2SF raw with
  | S754_nan | S754_infinity _ => shown = None
  | S754_zero _ => shown = Some 0%float
  | S754_finite s m e =>
      if (PrimFloat.abs raw <? 1e21)%float
      then
        exists n,
          toFixed2 raw = TextDecimal s n /\ is_nearest_hundredths m e n /\
          ((n = 0%Z /\ shown = Some 0%float) \/
           ((0 < n)%Z /\
            exists v mv ev,
              shown = Some v /\ Prim2SF v = S754_finite s mv ev /\
              within_half_ulp n mv ev))
      else shown = Some raw
  end.

Lemma json_parse_toFixed2 (raw : number) :
  two_decimals raw (json_number (parseFloat_fixed (toFixed2 raw))).
Proof.
  unfold two_decimals.
  destruct (Prim2SF raw) as [s|s| |s m e] eqn:E.
  - unfold toFixed2. rewrite E. vm_compute. reflexivity.
  - unfold toFixed2. rewrite E. cbn [parseFloat_fixed].
    apply json_number_not_finite. right. exists s.
    now apply Prim2SF_SF2Prim.
  - unfold toFixed2. rewrite E. vm_compute. reflexivity.
  - destruct (PrimFloat.abs raw <? 1e21)%float eqn:Hlt.
    + pose proof (nearest_hundredths_bound raw s m e E Hlt) as Hn.
      unfold toFixed2. rewrite E, Hlt.
      exists (nearest_hundredths m e). split; [reflexivity|].
      split; [apply nearest_hundredths_spec|].
      destruct (nearest_hundredths m e) as [|p|p]; [| |exfalso; lia].
      * left. split; [reflexivity|]. cbn [parseFloat_fixed].
        apply (json_number_zero _ s). now apply Prim2SF_SF2Prim.
      * right. split; [lia|].
        destruct (parseFloat_fixed_nearest s p ltac:(lia))
          as (mv & ev & Ev & Hnear).
        exists (parseFloat_fixed (TextDecimal s (Zpos p))), mv, ev.
        split; [now apply (json_number_finite _ s mv ev)|]. auto.
    + unfold toFixed2. rewrite E, Hlt. cbn [parseFloat_fixed].
      now apply (json_number_finite _ s m e).
Qed.

Section CompressionRatio.

Variable sharp_metadata : list Byte.byte -> option Metadata.
Variable sharp_encode :
  Encoder -> number -> list Byte.byte -> option (list Byte.byte).
Variable base64_encode : list Byte.byte -> string.
Variable parseInt : string -> number.
Variable Number_toString : number -> string.

Let endpoint := POST sharp_metadata sharp_encode base64_encode parseInt.

(** C8. When a record is compressed successfully by the endpoint, its
    measured size is the length of the encoded bytes, and its
    [compressionRatio] is what the endpoint computed from
    [raw = (1 - compressedSize / originalSize) * 100] over the lengths of
    the encoded and of the uploaded bytes: [raw] formatted with two
    decimals, read back as a number and sent as JSON. For a finite [raw]
    below 1e21 in absolute value that is a number within half a unit in
    its last place of [n / 100], where [n] is the number of hundredths
    nearest to [raw], ties upwards; a zero, also one that [raw] rounds to
    from below, is surfaced as [0]; a [raw] that is not finite is surfaced
    as no value. *)
Theorem compressionRatio_two_decimals (snapshot : State) (image : ImageFile) :
  let response := endpoint (request_of Number_toString snapshot image) in
  let record := settle image (Resolved response) in
  status record = Done ->
  exists encoder compressedBuffer,
    sharp_encode encoder
      (number_or (Some (parseInt (Number_toString (quality snapshot)))) 80%float)
      (file_bytes (file image)) = Some compressedBuffer /\
    let compressedSize := buffer_length compressedBuffer in
    let raw := ((1 - compressedSize / file_size (file image)) * 100)%float in
    option_map Compressed.size (compressed record) = Some compressedSize /\
    compressionRatio record = json_number (parseFloat_fixed (toFixed2 raw)) /\
    two_decimals raw (compressionRatio record).
Proof.
  intros response record Hdone.
  assert (Hok : ok response = true).
  { subst record. unfold settle in Hdone.
    destruct (ok response); [reflexivity|discriminate]. }
  destruct (POST_ok sharp_metadata sharp_encode base64_encode parseInt
              _ Hok) as (result & c & Hb & Hc).
  destruct (POST_success sharp_metadata sharp_encode base64_encode parseInt
              _ result c Hb Hc)
    as (file0 & metadata & encoder & buf & Hf & Hm & Hs & He & Hsz & Hr & _).
  cbn in Hf. inversion Hf; subst file0; clear Hf.
  exists encoder, buf. split; [exact He|].
  intros compressedSize raw.
  assert (Erec : record = succeeded image result).
  { subst record. unfold settle. rewrite Hok. cbn [negb].
    subst response. unfold endpoint. now rewrite Hb. }
  assert (Eratio : compressionRatio record
                   = json_number (parseFloat_fixed (toFixed2 raw))).
  { rewrite Erec. cbn. exact Hr. }
  split; [|split].
  - rewrite Erec. cbn. rewrite Hc. cbn. now rewrite Hsz.
  - exact Eratio.
  - rewrite Eratio. apply json_parse_toFixed2.
Qed.

End CompressionRatio.

Lemma compressionRatio_two_decimals_witness :
  exists encoder compressedBuffer,
    sample_encode encoder
      (number_or (Some (sample_parseInt (sample_toString 70%float))) 80%float)
      (file_bytes (file record_b)) = Some compressedBuffer /\
    let record := settle record_b
                    (Resolved (sample_POST
                                 (request_of sample_toString
                                    (state two_uploads) record_b))) in
    let compressedSize := buffer_length compressedBuffer in
    let raw := ((1 - compressedSize / file_size (file record_b)) * 100)%float in
    option_map Compressed.size (compressed record) = Some compressedSize /\
    compressionRatio record = json_number (parseFloat_fixed (toFixed2 raw)) /\
    two_decimals raw (compressionRatio record).
Proof.
  apply (compressionRatio_two_decimals sample_metadata sample_encode
           sample_base64 sample_parseInt sample_toString
           (state two_uploads) record_b).
  vm_compute. reflexivity.
Defined.

(** ** A batch under interleaved events *)

(** The requests and settlements of a log, in their order. *)
Definition traffic (l : list Event) : list Event :=
  filter (fun e => is_request e || is_settled e) l.


(** The step does not make the list longer: it is not an upload of one
    or more files. *)
Definition no_upload (s s' : World * Batch) : Prop :=
  (List.length (images (state (fst s')))
   <= List.length (images (state (fst s))))%nat.

(** The identifiers of the records a batch still has to settle. *)
Definition batch_queue (b : Batch) : list string :=
  match b with
  | Idle => []
  | Waiting _ image _ rest => map id (image :: rest)
  end.

Section BatchRuns.

Variable network : nat -> FormData -> FetchOutcome.
Variable Number_toString : number -> string.

(** The states a batch passes through: from its start, any number of
    steps, each taken while the batch still waits and each allowed by
    [allowed]. The last step of a batch ends in [Idle]. *)
Inductive batch_run (allowed : World * Batch -> World * Batch -> Prop)
  : World * Batch -> World * Batch -> Prop :=
| batch_run_start s : batch_run allowed s s
| batch_run_step s s' s'' :
    batch_run allowed s s' -> is_idle (snd s') = false ->
    step network Number_toString s' s'' -> allowed s' s'' ->
    batch_run allowed s s''.



Lemma traffic_batch_log (snapshot : State) (pending : list ImageFile) :
  forall n,
    traffic (batch_log network Number_toString snapshot n pending)
    = batch_log network Number_toString snapshot n pending.
Proof.
  induction pending as [|image rest IH]; intros n; cbn; [reflexivity|].
  unfold traffic in IH. now rewrite IH.
Qed.







Lemma commit_records (old new : State) :
  images new = images old ->
  forall r', In r' (images (commit old new)) ->
             exists r, In r (images old) /\ status r = status r' /\
                       id r = id r'.
Proof.
  intros Hi r' Hin.
  destruct (commit_cases old new) as [(E & _)|E]; rewrite E in Hin.
  - rewrite Hi in Hin. eauto.
  - cbn [images with_images] in Hin. rewrite Hi in Hin.
    apply in_map_iff in Hin. destruct Hin as (r & <- & Hin). eauto.
Qed.

Lemma commit_log_images (old new : State) :
  images new = images old ->
  List.length (images (commit old new)) = List.length (images old).
Proof.
  intros Hi.
  destruct (commit_cases old new) as [(E & _)|E]; rewrite E.
  - now rewrite Hi.
  - cbn [images with_images]. now rewrite length_map, Hi.
Qed.

(** What one step does to the batch, the log and the records. *)
Lemma step_cases (w w' : World) (b b' : Batch) :
  step network Number_toString (w, b) (w', b') ->
  (b' = b /\
   (exists urls, log w' = log w ++ map EvRevoke urls) /\
   (forall r', In r' (images (state w')) ->
               (exists r, In r (images (state w)) /\ status r = status r' /\
                          id r = id r') \/
               (List.length (images (state w))
                < List.length (images (state w')))%nat)) \/
  (b = Idle /\ (w', b') = start Number_toString w) \/
  (exists snapshot image n rest,
     b = Waiting snapshot image n rest /\
     (w', b') = resume network Number_toString snapshot image n rest w).
Proof.
  intros Hstep. inversion Hstep; subst; clear Hstep.
  - left. split; [reflexivity|]. split; [exists []; cbn; now rewrite app_nil_r|].
    intros r' Hin. unfold on_state, onDrop in *.
    cbn [state images with_images] in *.
    apply in_app_or in Hin. destruct Hin as [Hin|Hin]; [left; eauto|].
    right. rewrite length_app.
    destruct files as [|f files]; [destruct Hin|].
    cbn [map List.length]. lia.
  - left. split; [reflexivity|]. split; [exists []; cbn; now rewrite app_nil_r|].
    intros r' Hin. left. unfold on_state, handleQualityPreset in Hin.
    cbn [state] in Hin. apply commit_records in Hin; [exact Hin|].
    now destruct p.
  - left. split; [reflexivity|]. split; [exists []; cbn; now rewrite app_nil_r|].
    intros r' Hin. left. unfold on_state, handleQualityChange in Hin.
    cbn [state] in Hin. apply commit_records in Hin; [exact Hin|reflexivity].
  - left. split; [reflexivity|]. split; [exists []; cbn; now rewrite app_nil_r|].
    intros r' Hin. left. eauto.
  - left. split; [reflexivity|]. split; [exists []; cbn; now rewrite app_nil_r|].
    intros r' Hin. left. unfold remove, removeImage, setImages in Hin.
    cbn [snd state images with_images] in Hin.
    apply filter_In in Hin. exists r'. tauto.
  - left. split; [reflexivity|]. rewrite clear_run. split.
    + exists (map preview (images (state w))). cbn [log]. now rewrite map_map.
    + intros r' [].
  - right. left. auto.
  - right. right. eauto 8.
Qed.



(** While a batch runs with no upload in between, no record is pending
    and every compressing record is still in the queue of the batch. *)
Lemma batch_run_queue (w : World) (s : World * Batch) :
  batch_run no_upload (start Number_toString w) s ->
  forall r, In r (images (state (fst s))) ->
            status r <> Pending /\
            (status r = Compressing -> In (id r) (batch_queue (snd s))).
Proof.
  intros Hrun.
  remember (start Number_toString w) as s0 eqn:Es0.
  induction Hrun as [s|s s' s'' Hrun IH Hwait Hstep Hquiet].
  - subst s. unfold start.
    destruct (images (state w)) as [|i0 imgs] eqn:Ei.
    { cbn. rewrite Ei. intros r []. }
    cbn [List.length Nat.eqb]. rewrite <- Ei. clear Ei i0 imgs.
    assert (Hmark : forall r, In r (mark_compressing (images (state w))) ->
                      status r <> Pending /\
                      (status r = Compressing ->
                       In (id r)
                          (map id (filter eligible (images (state w)))))).
    { intros r Hin. split.
      - unfold mark_compressing in Hin. apply in_map_iff in Hin.
        destruct Hin as (r0 & <- & _).
        destruct (status r0) eqn:Es; cbn; rewrite ?Es; discriminate.
      - intros Hst. apply in_mark_compressing in Hin.
        destruct Hin as (r0 & Hin0 & Eid & Eel). rewrite Eid.
        apply in_map, filter_In. split; [exact Hin0|].
        rewrite <- Eel. unfold eligible. now rewrite Hst. }
    destruct (filter eligible (images (state w))) as [|image rest];
      cbn [continue fst snd state images with_images with_isCompressing
           batch_queue]; exact Hmark.
  - specialize (IH Es0). destruct s' as [w' b'], s'' as [w'' b''].
    unfold no_upload in Hquiet. cbn [fst snd] in *.
    destruct b' as [|snapshot image n rest]; [discriminate|].
    destruct (step_cases w' w'' _ b'' Hstep)
      as [(-> & _ & Hrec)|[(Eb & _)|(sn & im & k & rs & Eb & Eres)]].
    + intros r' Hin. destruct (Hrec r' Hin) as [(r & Hr & Est & Eid)|Hlen];
        [|lia].
      rewrite <- Est, <- Eid. exact (IH r Hr).
    + discriminate.
    + inversion Eb; subst sn im k rs; clear Eb.
      unfold resume in Eres.
      set (c := settle image
                  (network n (request_of Number_toString snapshot image)))
        in *.
      assert (Hnew : forall r, In r (replace_by_id c (images (state w'))) ->
                       status r <> Pending /\
                       (status r = Compressing -> In (id r) (map id rest))).
      { intros r Hin. unfold replace_by_id in Hin.
        apply in_map_iff in Hin. destruct Hin as (r0 & Er & Hin0).
        pose proof (settle_not_eligible image
                      (network n (request_of Number_toString snapshot image)))
          as Hne.
        fold c in Hne. unfold eligible in Hne.
        destruct (String.eqb_spec (id r0) (id c)) as [Eid|Nid]; subst r.
        - destruct (status c); try discriminate; split; discriminate.
        - destruct (IH r0 Hin0) as [Hp Hq]. split; [exact Hp|].
          intros Hst. specialize (Hq Hst). cbn [batch_queue map] in Hq.
          destruct Hq as [Ehd|Htl]; [|exact Htl].
          exfalso. apply Nid. subst c. now rewrite id_settle. }
      destruct rest as [|next rest'];
        cbn [continue state log] in Eres;
        inversion Eres; subst w'' b''; clear Eres;
        cbn [fst snd state images with_images with_isCompressing batch_queue
             map]; exact Hnew.
Qed.

(** X1. When a batch has ended and no file was uploaded while it ran
    (removals, clear-all and changes of preset, quality or format may
    have happened, and the network may have answered anything), every
    record of the list is done or in error and the compress button is
    disabled. In particular for the handler run as a whole, with no
    event in between; running it again at once then sends no request and
    changes no record. *)
Theorem batch_reaches_terminal (w : World) :
  (forall s,
     batch_run no_upload (start Number_toString w) s -> snd s = Idle ->
     Forall terminal (images (state (fst s))) /\
     compress_disabled (state (fst s)) = true) /\
  let click := click_compress network Number_toString in
  Forall terminal (images (state (click w))) /\
  compress_disabled (state (click w)) = true /\
  log (click (click w)) = log (click w) /\
  images (state (click (click w))) = images (state (click w)).
Proof.
  split; [|exact (click_reaches_terminal network Number_toString w)].
  intros s Hrun Hidle.
  pose proof (batch_run_queue w s Hrun) as Hq. rewrite Hidle in Hq.
  cbn [batch_queue] in Hq.
  assert (Hterm : forall r, In r (images (state (fst s))) -> terminal r).
  { intros r Hin. destruct (Hq r Hin) as [Hp Hc]. unfold terminal.
    destruct (status r); auto; [congruence|destruct (Hc eq_refl)]. }
  split; [apply Forall_forall; exact Hterm|].
  unfold compress_disabled.
  assert (Hp : filter (fun img => Status_eqb (status img) Pending)
                 (images (state (fst s))) = []).
  { induction (images (state (fst s))) as [|r l IH]; [reflexivity|].
    cbn [filter]. destruct (Hq r ltac:(now left)) as [Hr _].
    destruct (status r) eqn:Es; [congruence| | |];
      cbn [Status_eqb]; apply IH; intros; try apply Hq; try apply Hterm;
      now right. }
  rewrite Hp. apply orb_true_r.
Qed.

End BatchRuns.

(** A step of a batch that waits, from the components of its state. *)
Lemma step_settled_at (network : nat -> FormData -> FetchOutcome)
    (Number_toString : number -> string) (s : World * Batch)
    (snapshot : State) (image : ImageFile) (n : nat)
    (rest : list ImageFile) :
  snd s = Waiting snapshot image n rest ->
  step network Number_toString s
    (resume network Number_toString snapshot image n rest (fst s)).
Proof.
  destruct s as [w b]. cbn. intros ->. apply step_settled.
Qed.

(** The first upload of the concrete session. *)
Definition record_a : ImageFile :=
  nth 0 (images (state two_uploads)) record_b.



(** One upload, a click, and its request has been answered. *)
Definition one_settled : World * Batch :=
  resume served sample_toString (state one_upload) record_a 0 []
    (fst (start sample_toString one_upload)).

Lemma batch_reaches_terminal_witness :
  Forall terminal (images (state (fst one_settled))) /\
  compress_disabled (state (fst one_settled)) = true.
Proof.
  apply (proj1 (batch_reaches_terminal served sample_toString one_upload)).
  - apply (batch_run_step served sample_toString no_upload _
             (start sample_toString one_upload)).
    + apply batch_run_start.
    + reflexivity.
    + apply (step_settled_at served sample_toString
               (start sample_toString one_upload)).
      vm_compute. reflexivity.
    + unfold no_upload. vm_compute. lia.
  - reflexivity.
Defined.

(** An image that grows by one byte in 21759: the ratio, about -0.0046,
    is formatted as [-0.00], read back as [-0] and surfaced as [0]. *)
Example compressionRatio_below_zero :
  toFixed2 ((1 - of_Z 21760 / of_Z 21759) * 100)%float = TextDecimal true 0 /\
  json_number (compression_ratio (of_Z 21760) (of_Z 21759)) = Some 0%float.
Proof. split; vm_compute; reflexivity. Qed.
